(** * The notes browser of the portfolio site: renderer, link resolver,
      navigation history and browser-history synchronisation.

    The development embeds the TypeScript of the notes pages
    (the [NotesPage] component with [NoteContent], [renderInlineContent],
    [formatInlineText], and the single-note page with [renderInline] and
    [formatText]) and of the API client types.

    Conventions.
    - A JavaScript string is a list of code units; code units are
      restricted to the range of [ascii] (0..255).
    - A regular expression literal is a value of [regex]; it is run by a
      backtracking matcher that tries alternatives in the order the
      ECMAScript semantics prescribes (greedy first).
    - A React state variable is a field of [PageState]; an [async]
      handler is a [Task]: synchronous statements separated by awaits.
      The closure a handler was created in is the explicit argument
      [snap]. *)

From Stdlib Require Import Ascii String.
From stdpp Require Import base option list gmap strings.

Set Warnings "-register-all".

Local Open Scope list_scope.

(** ** Strings *)

Abbreviation str := (list ascii).

(** A string literal of the source. *)
Definition js (s : string) : str := list_ascii_of_string s.

(** The double quote, which occurs inside the HTML replacement strings. *)
Definition dq : ascii := ascii_of_nat 34.

Definition ascii_eqb (a b : ascii) : bool := Ascii.eqb a b.

Definition str_eqb (a b : str) : bool := bool_decide (a = b).

(** [text.slice(i, j)] for [0 <= i], [0 <= j]. *)
Definition slice (text : str) (i j : nat) : str := take (j - i) (drop i text).

(** [text.slice(i)]. *)
Definition sliceFrom (text : str) (i : nat) : str := drop i text.

Fixpoint startsWith (s p : str) : bool :=
  match p, s with
  | [], _ => true
  | c :: p', d :: s' => ascii_eqb c d && startsWith s' p'
  | _ :: _, [] => false
  end.

(** ECMAScript WhiteSpace and LineTerminator code units below 256:
    TAB, LF, VT, FF, CR, SP and NBSP.  Both [String.prototype.trim] and the
    class [\s] use this set. *)
Definition isWhite (c : ascii) : bool :=
  let n := nat_of_ascii c in
  ((n =? 9) || (n =? 10) || (n =? 11) || (n =? 12) || (n =? 13) || (n =? 32)
   || (n =? 160))%nat.

Definition isDigit (c : ascii) : bool :=
  let n := nat_of_ascii c in ((48 <=? n) && (n <=? 57))%nat.

Fixpoint trimStart (s : str) : str :=
  match s with
  | c :: s' => if isWhite c then trimStart s' else s
  | [] => []
  end.

Definition trimEnd (s : str) : str := reverse (trimStart (reverse s)).

(** [s.trim()]. *)
Definition trim (s : str) : str := trimEnd (trimStart s).

(** [s.split("\n")]: always at least one piece. *)
Fixpoint splitLines (s : str) : list str :=
  match s with
  | [] => [[]]
  | c :: s' =>
      if ascii_eqb c "010"%char then [] :: splitLines s'
      else match splitLines s' with
           | l :: ls => (c :: l) :: ls
           | [] => [[c]]
           end
  end.

(** ** Regular expressions

    Only the constructs that occur in the regular expression literals of the
    pages: literal characters, character classes, [\d], [\s], greedy [+] on
    a one-character atom, an optional non-capturing group, capture groups and
    concatenation. *)

Inductive cls : Type :=
  | CChar (c : ascii)          (* an escaped or plain literal character *)
  | CNot (cs : list ascii)     (* [^...] *)
  | CSet (cs : list ascii)     (* [...] *)
  | CDigit                     (* \d *)
  | CSpace.                    (* \s *)

Definition cls_ok (k : cls) (c : ascii) : bool :=
  match k with
  | CChar d => ascii_eqb d c
  | CNot cs => negb (existsb (ascii_eqb c) cs)
  | CSet cs => existsb (ascii_eqb c) cs
  | CDigit => isDigit c
  | CSpace => isWhite c
  end.

Inductive regex : Type :=
  | Atom (k : cls)
  | Plus (k : cls)                   (* k+ , greedy *)
  | Cat (r1 r2 : regex)
  | Opt (r : regex)                  (* (?: r)? , greedy *)
  | Grp (i : nat) (r : regex).       (* the capture group number i *)

(** Capture [i] is stored at position [i]; position 0 is unused. *)
Abbreviation caps := (list (option str)).

Section Matcher.
Context {A : Type}.

(** One or more characters of the class, the longest run first, then
    shorter ones while the continuation fails. *)
Fixpoint plus_k (p : ascii -> bool) (s : str) (k : str -> option A)
  : option A :=
  match s with
  | c :: s' =>
      if p c then
        match plus_k p s' k with
        | Some x => Some x
        | None => k s'
        end
      else None
  | [] => None
  end.

(** The backtracking matcher, in continuation-passing style: [k] receives
    the rest of the input and the captures so far. *)
Fixpoint rmatch (r : regex) (s : str) (cs : caps)
    (k : str -> caps -> option A) : option A :=
  match r with
  | Atom c =>
      match s with
      | x :: s' => if cls_ok c x then k s' cs else None
      | [] => None
      end
  | Plus c => plus_k (cls_ok c) s (fun s' => k s' cs)
  | Cat r1 r2 => rmatch r1 s cs (fun s1 cs1 => rmatch r2 s1 cs1 k)
  | Opt r1 =>
      match rmatch r1 s cs k with
      | Some x => Some x
      | None => k s cs
      end
  | Grp i r1 =>
      rmatch r1 s cs
        (fun s' cs' =>
           k s' (<[i := Some (take (length s - length s') s)]> cs'))
  end.
End Matcher.

(** The match object of [RegExp.prototype.exec]: [index], [match[0]] and the
    numbered groups. *)
Record MatchObj : Type := mkMatch {
  index : nat;
  whole : str;
  groups : caps;
}.

Definition group (m : MatchObj) (i : nat) : option str :=
  mjoin (groups m !! i).

(** A match of [r] (with [n] capture groups) at the very start of [s]. *)
Definition match_at (r : regex) (n : nat) (s : str) : option (str * caps) :=
  rmatch r s (replicate (S n) None)
    (fun s' cs => Some (take (length s - length s') s, cs)).

(** The leftmost match in [s], which is the suffix of the text at index [i]. *)
Fixpoint search (r : regex) (n : nat) (s : str) (i : nat) : option MatchObj :=
  match match_at r n s with
  | Some (w, cs) => Some (mkMatch i w cs)
  | None =>
      match s with
      | [] => None
      | _ :: s' => search r n s' (S i)
      end
  end.

(** [r.exec(text)] for a global [r] whose [lastIndex] is [lastIndex]. *)
Definition exec (r : regex) (n : nat) (text : str) (lastIndex : nat)
  : option MatchObj :=
  if bool_decide (lastIndex ≤ length text)
  then search r n (drop lastIndex text) lastIndex
  else None.

(** [line.match(r)] as a truth value, for an [r] that starts with [^]. *)
Definition matchesAtStart (r : regex) (n : nat) (line : str) : bool :=
  bool_decide (is_Some (match_at r n line)).

(** [line.replace(r, "")] for an [r] that starts with [^] (no [g] flag). *)
Definition removeAtStart (r : regex) (n : nat) (line : str) : str :=
  match match_at r n line with
  | Some (w, _) => drop (length w) line
  | None => line
  end.

(** A replacement string: literal pieces and [$i] references. *)
Inductive tpiece : Type :=
  | TLit (s : str)
  | TGroup (i : nat).

Definition expand (tmpl : list tpiece) (m : MatchObj) : str :=
  flat_map (fun p => match p with
                     | TLit s => s
                     | TGroup i => default [] (group m i)
                     end) tmpl.

(** [text.replace(r, tmpl)] for a global [r] whose matches are never empty
    (true of the three patterns it is used with).  [fuel] bounds the number
    of matches. *)
Fixpoint replaceLoop (fuel : nat) (r : regex) (n : nat) (tmpl : list tpiece)
    (text : str) (lastIndex : nat) (acc : str) : str :=
  match fuel with
  | 0 => acc ++ sliceFrom text lastIndex
  | S fuel' =>
      match exec r n text lastIndex with
      | None => acc ++ sliceFrom text lastIndex
      | Some m =>
          replaceLoop fuel' r n tmpl text (index m + length (whole m))
            (acc ++ slice text lastIndex (index m) ++ expand tmpl m)
      end
  end.

Definition replaceAll (r : regex) (n : nat) (tmpl : list tpiece) (text : str)
  : str :=
  replaceLoop (S (length text)) r n tmpl text 0 [].

Infix "+++" := Cat (at level 60, right associativity).

Definition chr (c : ascii) : regex := Atom (CChar c).

(** ** Inline rendering *)

Module Pat.
(** [/\*\*([^*]+)\*\*/g] *)
Definition bold : regex :=
  chr "*" +++ chr "*" +++ Grp 1 (Plus (CNot ["*"%char])) +++ chr "*" +++ chr "*".

(** [/\*([^*]+)\*/g] *)
Definition italic : regex :=
  chr "*" +++ Grp 1 (Plus (CNot ["*"%char])) +++ chr "*".

(** The inline code pattern: a backtick, [([^`]+)], a backtick. *)
Definition code : regex :=
  chr "`" +++ Grp 1 (Plus (CNot ["`"%char])) +++ chr "`".

(** [/\[\[([^\]|]+)(?:\|([^\]]+))?\]\]/g] of [renderInlineContent]. *)
Definition wikiLinkPattern : regex :=
  chr "[" +++ chr "[" +++ Grp 1 (Plus (CNot ["]"%char; "|"%char]))
  +++ Opt (chr "|" +++ Grp 2 (Plus (CNot ["]"%char])))
  +++ chr "]" +++ chr "]".

(** [/\[\[([^\]]+)\]\]/g] of [renderInline]. *)
Definition wikiLinkPatternNoAlias : regex :=
  chr "[" +++ chr "[" +++ Grp 1 (Plus (CNot ["]"%char])) +++ chr "]" +++ chr "]".

(** [/^[-*]\s/] without its anchor. *)
Definition bullet : regex :=
  Atom (CSet ["-"%char; "*"%char]) +++ Atom CSpace.

(** [/^\d+\.\s/] without its anchor. *)
Definition numbered : regex :=
  Plus CDigit +++ chr "." +++ Atom CSpace.
End Pat.

Module Tmpl.
Definition strong : list tpiece :=
  [ TLit (js "<strong class=" ++ [dq]
          ++ js "text-[var(--color-text-primary)]" ++ [dq] ++ js ">");
    TGroup 1;
    TLit (js "</strong>") ].

Definition em : list tpiece :=
  [ TLit (js "<em>"); TGroup 1; TLit (js "</em>") ].

Definition code : list tpiece :=
  [ TLit (js "<code class=" ++ [dq]
          ++ js "bg-[var(--color-space-700)] px-1 py-0.5 rounded text-sm font-mono text-[var(--color-accent-400)]"
          ++ [dq] ++ js ">");
    TGroup 1;
    TLit (js "</code>") ].
End Tmpl.

(** [formatText] of the single-note page: the HTML string. *)
Definition formatText (text : str) : str :=
  replaceAll Pat.code 1 Tmpl.code
    (replaceAll Pat.italic 1 Tmpl.em
       (replaceAll Pat.bold 1 Tmpl.strong text)).

(** [formatInlineText] of the notes page: the [__html] of the span it
    returns. *)
Definition formatInlineText (text : str) : str :=
  let result :=
    replaceAll Pat.code 1 Tmpl.code
      (replaceAll Pat.italic 1 Tmpl.em
         (replaceAll Pat.bold 1 Tmpl.strong text)) in
  result.

(** The inline React nodes the two renderers build. *)
Inductive Inline : Type :=
  | Html (html : str)
      (* <span dangerouslySetInnerHTML={{ __html: html }} /> *)
  | Span (html : str)
      (* <span>{formatInlineText(..)}</span>, a span around an [Html] node *)
  | Button (displayText : str) (linkTarget : str).
      (* <button onClick = onLinkClick(linkTarget)>{displayText}</button> *)

(** The [while ((match = wikiLinkPattern.exec(text)) !== null)] loop of
    [renderInlineContent]; it returns [parts] and [lastIndex]. *)
Fixpoint renderInlineContent_loop (fuel : nat) (text : str) (lastIndex : nat)
    (parts : list Inline) : list Inline * nat :=
  match fuel with
  | 0 => (parts, lastIndex)
  | S fuel' =>
      match exec Pat.wikiLinkPattern 2 text lastIndex with
      | None => (parts, lastIndex)
      | Some m =>
          let parts1 :=
            if bool_decide (lastIndex < index m)
            then parts ++ [Span (formatInlineText (slice text lastIndex (index m)))]
            else parts in
          let linkTarget := default [] (group m 1) in
          let displayText :=
            match group m 2 with
            | Some (c :: a) => c :: a
            | _ => default [] (group m 1)
            end in
          renderInlineContent_loop fuel' text (index m + length (whole m))
            (parts1 ++ [Button displayText linkTarget])
      end
  end.

Definition renderInlineContent (text : str) : list Inline :=
  let '(parts, lastIndex) :=
    renderInlineContent_loop (S (length text)) text 0 [] in
  let parts :=
    if bool_decide (lastIndex < length text)
    then parts ++ [Span (formatInlineText (sliceFrom text lastIndex))]
    else parts in
  if bool_decide (0 < length parts) then parts
  else [Html (formatInlineText text)].

(** The same loop in [renderInline] of the single-note page. *)
Fixpoint renderInline_loop (fuel : nat) (text : str) (lastIndex : nat)
    (parts : list Inline) : list Inline * nat :=
  match fuel with
  | 0 => (parts, lastIndex)
  | S fuel' =>
      match exec Pat.wikiLinkPatternNoAlias 1 text lastIndex with
      | None => (parts, lastIndex)
      | Some m =>
          let parts1 :=
            if bool_decide (lastIndex < index m)
            then parts ++ [Html (formatText (slice text lastIndex (index m)))]
            else parts in
          let linkText := default [] (group m 1) in
          renderInline_loop fuel' text (index m + length (whole m))
            (parts1 ++ [Button linkText linkText])
      end
  end.

Definition renderInline (text : str) : list Inline :=
  let '(parts, lastIndex) := renderInline_loop (S (length text)) text 0 [] in
  let parts :=
    if bool_decide (lastIndex < length text)
    then parts ++ [Html (formatText (sliceFrom text lastIndex))]
    else parts in
  if bool_decide (0 < length parts) then parts
  else [Html (formatText text)].

Definition isButton (i : Inline) : bool :=
  match i with Button _ _ => true | _ => false end.

(** The interactive link units among inline nodes, as (display, target). *)
Definition linkUnits (l : list Inline) : list (str * str) :=
  omap (fun i => match i with Button d t => Some (d, t) | _ => None end) l.

(** ** Block rendering: [NoteContent] *)

Inductive Block : Type :=
  | Pre (codeContent : str)          (* <pre><code>{codeContent}</code></pre> *)
  | H3 (c : list Inline)
  | H2 (c : list Inline)
  | H1 (c : list Inline)
  | Blockquote (c : list Inline)
  | Li (c : list Inline)             (* <li className="ml-4 ..."> *)
  | LiDecimal (c : list Inline)      (* <li className="... list-decimal"> *)
  | Spacer                           (* <div className="h-3" /> *)
  | P (c : list Inline).

Inductive Rendered : Type :=
  | Placeholder (text : str)         (* <p className="... italic">text</p> *)
  | Div (elements : list Block).     (* <div>{elements}</div> *)

(** The three variables the [forEach] callback closes over. *)
Record LineState : Type := mkLineState {
  inCodeBlock : bool;
  codeContent : str;
  elements : list Block;
}.

Definition noContentText : str := js "This note has no content.".

Section BlockPipeline.
(** [renderInlineContent] on the notes page, [renderInline] on the
    single-note page; the two copies of [NoteContent] differ in nothing
    else that is modelled here. *)
Variable inl : str -> list Inline.

Definition push (st : LineState) (b : Block) : LineState :=
  mkLineState (inCodeBlock st) (codeContent st) (elements st ++ [b]).

(** The body of [lines.forEach((line, index) => ...)]. *)
Definition lineStep (st : LineState) (line : str) : LineState :=
  if startsWith line (js "```") then
    if negb (inCodeBlock st) then mkLineState true [] (elements st)
    else mkLineState false (codeContent st)
           (elements st ++ [Pre (codeContent st)])
  else if inCodeBlock st then
    mkLineState true (codeContent st ++ line ++ ["010"%char]) (elements st)
  else if startsWith line (js "### ") then push st (H3 (inl (sliceFrom line 4)))
  else if startsWith line (js "## ") then push st (H2 (inl (sliceFrom line 3)))
  else if startsWith line (js "# ") then push st (H1 (inl (sliceFrom line 2)))
  else if startsWith line (js "> ") then
    push st (Blockquote (inl (sliceFrom line 2)))
  else if matchesAtStart Pat.bullet 0 line then
    push st (Li (inl (sliceFrom line 2)))
  else if matchesAtStart Pat.numbered 0 line then
    push st (LiDecimal (inl (removeAtStart Pat.numbered 0 line)))
  else if str_eqb (trim line) [] then push st Spacer
  else push st (P (inl line)).

(** The block pipeline proper: everything after the early return. *)
Definition renderBlocks (content : str) : list Block :=
  elements (foldl lineStep (mkLineState false [] []) (splitLines content)).

Definition NoteContentWith (content : str) : Rendered :=
  if str_eqb content [] || str_eqb (trim content) []
  then Placeholder noContentText
  else Div (renderBlocks content).
End BlockPipeline.

(** [NoteContent] of the notes page. *)
Definition NoteContent : str -> Rendered := NoteContentWith renderInlineContent.

(** [NoteContent] of the single-note page. *)
Definition NoteContentSlug : str -> Rendered := NoteContentWith renderInline.

Definition inlinesOf (b : Block) : list Inline :=
  match b with
  | H3 c | H2 c | H1 c | Blockquote c | Li c | LiDecimal c | P c => c
  | Pre _ | Spacer => []
  end.

Definition blocksOf (r : Rendered) : list Block :=
  match r with
  | Placeholder _ => []
  | Div els => els
  end.

(** Every link unit of a rendered note, in document order. *)
Definition renderedLinks (r : Rendered) : list (str * str) :=
  flat_map (fun b => linkUnits (inlinesOf b)) (blocksOf r).

(** ** Data model of the API client (frontend/lib/api.ts) *)

Module NoteMetadata.
Record t : Type := mk {
  id : str;
  title : str;
  category : str;
  book : option str;          (* book?: string *)
  file_path : str;
  word_count : nat;
}.
End NoteMetadata.

(** An entry of [siblings], [children] or [parent]. *)
Module NavRef.
Record t : Type := mk { id : str; title : str }.
End NavRef.

Module Crumb.
Record t : Type := mk { id : str; title : str; file_path : str }.
End Crumb.

Module NavigationContext.
Record t : Type := mk {
  breadcrumbs : list Crumb.t;
  siblings : list NavRef.t;
  children : list NavRef.t;
  parent : option NavRef.t;
  is_leaf : bool;
  depth : nat;
}.
End NavigationContext.

(** [Note extends NoteMetadata]. *)
Module Note.
Record t : Type := mk {
  id : str;
  title : str;
  category : str;
  book : option str;
  file_path : str;
  word_count : nat;
  content : str;
  links : list str;
  navigation : option NavigationContext.t;
}.
End Note.

Module NoteTree.
Inductive t : Type :=
  mk (id : str) (title : str) (file_path : str) (book : option str)
     (is_root is_leaf : bool) (depth children_count : nat)
     (wiki_links : list str) (children : list t).

Definition id (n : t) : str :=
  match n with mk i _ _ _ _ _ _ _ _ _ => i end.

Definition children (n : t) : list t :=
  match n with mk _ _ _ _ _ _ _ _ _ c => c end.
End NoteTree.

Module BookData.
Record t : Type := mk {
  note_count : nat;
  trees : list NoteTree.t;
  has_tree : bool;
}.
End BookData.

Module CategoryData.
Record t : Type := mk {
  note_count : nat;
  book_count : nat;
  books : gmap str BookData.t;     (* Record<string, BookData> *)
}.
End CategoryData.

(** [VaultStructure] is [gmap str CategoryData.t]: an object indexed by
    category name.  Properties inherited from [Object.prototype] are not
    modelled. *)

(** ** The notes page: state *)

Inductive ViewLevel : Type := VCategories | VBooks | VNote.

(** The state stored in a browser-history entry. *)
Module NavigationState.
Record t : Type := mk {
  viewLevel : ViewLevel;
  selectedCategory : option str;
  selectedBook : option str;
  noteId : option str;
  noteHistoryIds : list str;
}.
End NavigationState.

(** The [useState] variables of [NotesPage], in declaration order. *)
Record PageState : Type := mkPageState {
  structure : gmap str CategoryData.t;
  loading : bool;
  error : option str;
  noteHistory : list Note.t;
  viewLevel : ViewLevel;
  selectedCategory : option str;
  selectedBook : option str;
  currentNote : option Note.t;
  noteLoading : bool;
  searchQuery : str;
  searchResults : list NoteMetadata.t;
  isSearching : bool;
  isRestoringState : bool;
}.

Definition setStructure (v : gmap str CategoryData.t) (p : PageState) : PageState :=
  mkPageState v (loading p) (error p) (noteHistory p) (viewLevel p) (selectedCategory p) (selectedBook p) (currentNote p) (noteLoading p) (searchQuery p) (searchResults p) (isSearching p) (isRestoringState p).

Definition setLoading (v : bool) (p : PageState) : PageState :=
  mkPageState (structure p) v (error p) (noteHistory p) (viewLevel p) (selectedCategory p) (selectedBook p) (currentNote p) (noteLoading p) (searchQuery p) (searchResults p) (isSearching p) (isRestoringState p).

Definition setError (v : option str) (p : PageState) : PageState :=
  mkPageState (structure p) (loading p) v (noteHistory p) (viewLevel p) (selectedCategory p) (selectedBook p) (currentNote p) (noteLoading p) (searchQuery p) (searchResults p) (isSearching p) (isRestoringState p).

Definition setNoteHistory (v : list Note.t) (p : PageState) : PageState :=
  mkPageState (structure p) (loading p) (error p) v (viewLevel p) (selectedCategory p) (selectedBook p) (currentNote p) (noteLoading p) (searchQuery p) (searchResults p) (isSearching p) (isRestoringState p).

Definition setViewLevel (v : ViewLevel) (p : PageState) : PageState :=
  mkPageState (structure p) (loading p) (error p) (noteHistory p) v (selectedCategory p) (selectedBook p) (currentNote p) (noteLoading p) (searchQuery p) (searchResults p) (isSearching p) (isRestoringState p).

Definition setSelectedCategory (v : option str) (p : PageState) : PageState :=
  mkPageState (structure p) (loading p) (error p) (noteHistory p) (viewLevel p) v (selectedBook p) (currentNote p) (noteLoading p) (searchQuery p) (searchResults p) (isSearching p) (isRestoringState p).

Definition setSelectedBook (v : option str) (p : PageState) : PageState :=
  mkPageState (structure p) (loading p) (error p) (noteHistory p) (viewLevel p) (selectedCategory p) v (currentNote p) (noteLoading p) (searchQuery p) (searchResults p) (isSearching p) (isRestoringState p).

Definition setCurrentNote (v : option Note.t) (p : PageState) : PageState :=
  mkPageState (structure p) (loading p) (error p) (noteHistory p) (viewLevel p) (selectedCategory p) (selectedBook p) v (noteLoading p) (searchQuery p) (searchResults p) (isSearching p) (isRestoringState p).

Definition setNoteLoading (v : bool) (p : PageState) : PageState :=
  mkPageState (structure p) (loading p) (error p) (noteHistory p) (viewLevel p) (selectedCategory p) (selectedBook p) (currentNote p) v (searchQuery p) (searchResults p) (isSearching p) (isRestoringState p).

Definition setSearchQuery (v : str) (p : PageState) : PageState :=
  mkPageState (structure p) (loading p) (error p) (noteHistory p) (viewLevel p) (selectedCategory p) (selectedBook p) (currentNote p) (noteLoading p) v (searchResults p) (isSearching p) (isRestoringState p).

Definition setSearchResults (v : list NoteMetadata.t) (p : PageState) : PageState :=
  mkPageState (structure p) (loading p) (error p) (noteHistory p) (viewLevel p) (selectedCategory p) (selectedBook p) (currentNote p) (noteLoading p) (searchQuery p) v (isSearching p) (isRestoringState p).

Definition setIsSearching (v : bool) (p : PageState) : PageState :=
  mkPageState (structure p) (loading p) (error p) (noteHistory p) (viewLevel p) (selectedCategory p) (selectedBook p) (currentNote p) (noteLoading p) (searchQuery p) (searchResults p) v (isRestoringState p).

Definition setIsRestoringState (v : bool) (p : PageState) : PageState :=
  mkPageState (structure p) (loading p) (error p) (noteHistory p) (viewLevel p) (selectedCategory p) (selectedBook p) (currentNote p) (noteLoading p) (searchQuery p) (searchResults p) (isSearching p) v.

Definition initialPageState : PageState :=
  mkPageState ∅ true None [] VCategories None None None false [] [] false false.

(** ** Browser history

    [entries] are the session-history entries, [cursor] the index of the
    current one.  The state of an entry is its [notesNav] field, [None] when
    the entry carries none. *)
Record Browser : Type := mkBrowser {
  entries : list (option NavigationState.t);
  cursor : nat;
}.

(** [window.history.pushState({ notesNav: st }, "")]: entries after the
    current one are dropped. *)
Definition pushState (st : NavigationState.t) (b : Browser) : Browser :=
  mkBrowser (take (S (cursor b)) (entries b) ++ [Some st]) (S (cursor b)).

(** [window.history.replaceState({ notesNav: st }, "")]. *)
Definition replaceState (st : NavigationState.t) (b : Browser) : Browser :=
  mkBrowser (<[cursor b := Some st]> (entries b)) (cursor b).

(** ** Statements, requests and tasks *)

(** The synchronous statements of the handlers. *)
Inductive Stmt : Type :=
  | SetStructure (v : gmap str CategoryData.t)
  | SetLoading (v : bool)
  | SetError (v : option str)
  | SetNoteHistory (v : list Note.t)
  | SetViewLevel (v : ViewLevel)
  | SetSelectedCategory (v : option str)
  | SetSelectedBook (v : option str)
  | SetCurrentNote (v : option Note.t)
  | SetNoteLoading (v : bool)
  | SetSearchQuery (v : str)
  | SetSearchResults (v : list NoteMetadata.t)
  | SetIsSearching (v : bool)
  | SetIsRestoringState (v : bool)
  | HistoryPushState (st : NavigationState.t)
  | HistoryReplaceState (st : NavigationState.t)
  | ConsoleError (msg : str).

(** Who calls [searchNotes]: the debounced effect of the search box or
    [handleWikiLinkClick]. *)
Inductive Origin : Type := FromSearchBox | FromWikiLink.

Inductive Request : Type :=
  | ReqNote (id : str)                    (* GET /api/notes/{id} *)
  | ReqSearch (o : Origin) (q : str)      (* GET /api/notes/search?q= *)
  | ReqStructure.                         (* GET /api/notes/structure *)

Inductive LogEntry : Type :=
  | LDo (s : Stmt)
  | LRequest (r : Request).

(** An [async] function: statements up to the next [await], then a
    continuation that receives the settled promise, [None] for a rejection. *)
Inductive Task : Type :=
  | Ret
  | Do (s : Stmt) (k : Task)
  | AwaitNote (id : str) (k : option Note.t -> Task)
  | AwaitAll (ids : list str) (k : option (list Note.t) -> Task)
      (* await Promise.all(ids.map(id => fetchNote(id))) *)
  | AwaitSearch (o : Origin) (q : str) (k : option (list NoteMetadata.t) -> Task)
  | AwaitStructure (k : option (gmap str CategoryData.t) -> Task).

Notation "s ;> k" := (Do s k) (at level 65, right associativity).

(** What the backend answers; [None] is a failed request. *)
Record Api : Type := mkApi {
  fetchNote : str -> option Note.t;
  searchNotes : str -> option (list NoteMetadata.t);
  fetchVaultStructure : option (gmap str CategoryData.t);
}.

(** The page together with the browser.  [timer] is the pending debounce
    timeout of the search effect with the query its callback closed over. *)
Record Sys : Type := mkSys {
  ui : PageState;
  browser : Browser;
  timer : option str;
  log : list LogEntry;
}.

Definition onUi (f : PageState -> PageState) (s : Sys) : Sys :=
  mkSys (f (ui s)) (browser s) (timer s) (log s).

Definition onBrowser (f : Browser -> Browser) (s : Sys) : Sys :=
  mkSys (ui s) (f (browser s)) (timer s) (log s).

Definition setTimer (t : option str) (s : Sys) : Sys :=
  mkSys (ui s) (browser s) t (log s).

Definition logged (e : LogEntry) (s : Sys) : Sys :=
  mkSys (ui s) (browser s) (timer s) (log s ++ [e]).

Definition effectOf (st : Stmt) : Sys -> Sys :=
  match st with
  | SetStructure v => onUi (setStructure v)
  | SetLoading v => onUi (setLoading v)
  | SetError v => onUi (setError v)
  | SetNoteHistory v => onUi (setNoteHistory v)
  | SetViewLevel v => onUi (setViewLevel v)
  | SetSelectedCategory v => onUi (setSelectedCategory v)
  | SetSelectedBook v => onUi (setSelectedBook v)
  | SetCurrentNote v => onUi (setCurrentNote v)
  | SetNoteLoading v => onUi (setNoteLoading v)
  | SetSearchQuery v => onUi (setSearchQuery v)
  | SetSearchResults v => onUi (setSearchResults v)
  | SetIsSearching v => onUi (setIsSearching v)
  | SetIsRestoringState v => onUi (setIsRestoringState v)
  | HistoryPushState st => onBrowser (pushState st)
  | HistoryReplaceState st => onBrowser (replaceState st)
  | ConsoleError _ => fun s => s
  end.

Definition execStmt (st : Stmt) (s : Sys) : Sys := logged (LDo st) (effectOf st s).

(** The requests a task issues when it reaches an await. *)
Definition requestsOf (t : Task) : list Request :=
  match t with
  | AwaitNote id _ => [ReqNote id]
  | AwaitAll ids _ => map ReqNote ids
  | AwaitSearch o q _ => [ReqSearch o q]
  | AwaitStructure _ => [ReqStructure]
  | Ret | Do _ _ => []
  end.

Definition logRequests (rs : list Request) (s : Sys) : Sys :=
  foldl (fun s r => logged (LRequest r) s) s rs.

Definition issue (t : Task) (s : Sys) : Sys := logRequests (requestsOf t) s.

(** Run the statements up to the next await; the requests of that await are
    issued.  The result is the suspended task, or [Ret]. *)
Fixpoint advance (t : Task) (s : Sys) : Sys * Task :=
  match t with
  | Do st k => advance k (execStmt st s)
  | _ => (issue t s, t)
  end.

(** [Promise.all] over the fetches: all the notes in order, or a rejection
    as soon as one fetch fails. *)
Definition fetchAll (api : Api) (ids : list str) : option (list Note.t) :=
  mapM (fetchNote api) ids.

(** The continuation of a suspended task once the backend has answered. *)
Definition respond (api : Api) (t : Task) : option Task :=
  match t with
  | AwaitNote id k => Some (k (fetchNote api id))
  | AwaitAll ids k => Some (k (fetchAll api ids))
  | AwaitSearch _ q k => Some (k (searchNotes api q))
  | AwaitStructure k => Some (k (fetchVaultStructure api))
  | Ret | Do _ _ => None
  end.

(** The effect on [searchQuery], run after a render in which the query
    differs from the one of the previous render: the cleanup of the previous
    run clears its timeout; a query shorter than 2 empties the results,
    a longer one arms the 300 ms timeout. *)
Definition searchEffect (prevQuery : str) (s : Sys) : Sys :=
  if bool_decide (searchQuery (ui s) = prevQuery) then s
  else
    let s1 := setTimer None s in
    if bool_decide (length (searchQuery (ui s1)) < 2)
    then execStmt (SetIsSearching false) (execStmt (SetSearchResults []) s1)
    else setTimer (Some (searchQuery (ui s1))) s1.

(** One uninterrupted stretch of a task followed by the render it causes. *)
Definition segment (t : Task) (s : Sys) : Sys * Task :=
  let '(s1, t1) := advance t s in
  (searchEffect (searchQuery (ui s)) s1, t1).

(** A task run on its own: every await is answered by [api] before anything
    else happens. *)
Fixpoint runIso (api : Api) (t : Task) (q0 : str) (s : Sys) : Sys :=
  match t with
  | Ret => searchEffect q0 s
  | Do st k => runIso api k q0 (execStmt st s)
  | AwaitNote id k =>
      let s1 := searchEffect q0 (issue t s) in
      runIso api (k (fetchNote api id)) (searchQuery (ui s1)) s1
  | AwaitAll ids k =>
      let s1 := searchEffect q0 (issue t s) in
      runIso api (k (fetchAll api ids)) (searchQuery (ui s1)) s1
  | AwaitSearch o q k =>
      let s1 := searchEffect q0 (issue t s) in
      runIso api (k (searchNotes api q)) (searchQuery (ui s1)) s1
  | AwaitStructure k =>
      let s1 := searchEffect q0 (issue t s) in
      runIso api (k (fetchVaultStructure api)) (searchQuery (ui s1)) s1
  end.

(** [runIso] started after a render of [s]. *)
Definition runTask (api : Api) (t : Task) (s : Sys) : Sys :=
  runIso api t (searchQuery (ui s)) s.

(** The states a task run on its own is suspended in, one per await. *)
Fixpoint suspensions (api : Api) (t : Task) (q0 : str) (s : Sys) : list Sys :=
  match t with
  | Ret => []
  | Do st k => suspensions api k q0 (execStmt st s)
  | AwaitNote id k =>
      let s1 := searchEffect q0 (issue t s) in
      s1 :: suspensions api (k (fetchNote api id)) (searchQuery (ui s1)) s1
  | AwaitAll ids k =>
      let s1 := searchEffect q0 (issue t s) in
      s1 :: suspensions api (k (fetchAll api ids)) (searchQuery (ui s1)) s1
  | AwaitSearch o q k =>
      let s1 := searchEffect q0 (issue t s) in
      s1 :: suspensions api (k (searchNotes api q)) (searchQuery (ui s1)) s1
  | AwaitStructure k =>
      let s1 := searchEffect q0 (issue t s) in
      s1 :: suspensions api (k (fetchVaultStructure api)) (searchQuery (ui s1)) s1
  end.

(** ** The notes page: handlers *)

(** A string in a boolean position: [null]/[undefined] and the empty string
    are falsy. *)
Definition truthy (o : option str) : bool :=
  match o with
  | Some (_ :: _) => true
  | _ => false
  end.

(** [x || null] for an optional string. *)
Definition orNull (o : option str) : option str :=
  if truthy o then o else None.

(** The property key [structure[selectedCategory!]] looks up: [null] is
    converted to the string of its name. *)
Definition keyOf (o : option str) : str :=
  match o with
  | Some s => s
  | None => js "null"
  end.

(** [toLowerCase] on code units below 256: A-Z and the capital letters
    0xC0-0xDE other than the multiplication sign 0xD7 move up by 32. *)
Definition lowerChar (c : ascii) : ascii :=
  let n := nat_of_ascii c in
  if ((65 <=? n) && (n <=? 90)
      || (192 <=? n) && (n <=? 222) && negb (n =? 215))%nat
  then ascii_of_nat (n + 32) else c.

Definition toLowerCase (s : str) : str := map lowerChar s.

Definition initialState : NavigationState.t :=
  NavigationState.mk VCategories None None None [].

(** [pushNavigationState(state)] followed by [k]; the [isRestoringState] it
    tests is the one of the render the calling handler was created in. *)
Definition pushNavigationState (snap : PageState) (st : NavigationState.t)
    (k : Task) : Task :=
  if isRestoringState snap then k else HistoryPushState st ;> k.

(** [handlePopState] for [event.state?.notesNav = state]. *)
Definition handlePopState (state : option NavigationState.t) : Task :=
  match state with
  | None =>
      SetViewLevel VCategories ;> SetSelectedCategory None ;>
      SetSelectedBook None ;> SetCurrentNote None ;> SetNoteHistory [] ;>
      SetSearchQuery [] ;> Ret
  | Some state =>
      let finally_ := SetNoteLoading false ;> SetIsRestoringState false ;> Ret in
      let catch_ :=
        ConsoleError (js "Failed to restore note:") ;>
        SetCurrentNote None ;> SetNoteHistory [] ;> finally_ in
      SetIsRestoringState true ;>
      SetViewLevel (NavigationState.viewLevel state) ;>
      SetSelectedCategory (NavigationState.selectedCategory state) ;>
      SetSelectedBook (NavigationState.selectedBook state) ;>
      SetSearchQuery [] ;>
      if truthy (NavigationState.noteId state) then
        SetNoteLoading true ;>
        AwaitNote (default [] (NavigationState.noteId state))
          (fun r =>
             match r with
             | Some fetched =>
                 SetCurrentNote (Some fetched) ;>
                 if bool_decide (0 < length (NavigationState.noteHistoryIds state))
                 then
                   AwaitAll (NavigationState.noteHistoryIds state)
                     (fun r2 =>
                        match r2 with
                        | Some historyNotes =>
                            SetNoteHistory historyNotes ;> finally_
                        | None => catch_
                        end)
                 else SetNoteHistory [] ;> finally_
             | None => catch_
             end)
      else
        SetCurrentNote None ;> SetNoteHistory [] ;> SetNoteLoading false ;>
        SetIsRestoringState false ;> Ret
  end.

(** [resetToCategories]. *)
Definition resetToCategories : Task :=
  SetViewLevel VCategories ;> SetSelectedCategory None ;>
  SetSelectedBook None ;> SetCurrentNote None ;> SetNoteHistory [] ;>
  SetSearchQuery [] ;> Ret.

(** The effect on [searchParams] and [isRestoringState]; [shouldReset] is
    [!searchParams.has("note") && !searchParams.has("book")]. *)
Definition urlEffect (shouldReset : bool) (snap : PageState) : Task :=
  if isRestoringState snap then Ret
  else if shouldReset
          && (bool_decide (is_Some (currentNote snap))
              || truthy (selectedBook snap) || truthy (selectedCategory snap))
  then resetToCategories
  else Ret.

(** The effect that fetches the vault structure on mount. *)
Definition structureEffect : Task :=
  AwaitStructure
    (fun r =>
       match r with
       | Some data => SetStructure data ;> SetLoading false ;> Ret
       | None =>
           SetError (Some (js "Could not load notes. Make sure the backend is running.")) ;>
           SetLoading false ;> Ret
       end).

(** The callback of the debounce timeout; [query] is the [searchQuery] of
    the render that armed it. *)
Definition searchCallback (query : str) : Task :=
  SetIsSearching true ;>
  AwaitSearch FromSearchBox query
    (fun r =>
       match r with
       | Some results => SetSearchResults results ;> SetIsSearching false ;> Ret
       | None => SetSearchResults [] ;> SetIsSearching false ;> Ret
       end).

(** [handleCategoryClick]. *)
Definition handleCategoryClick (snap : PageState) (category : str) : Task :=
  SetSelectedCategory (Some category) ;> SetViewLevel VBooks ;>
  SetSelectedBook None ;> SetCurrentNote None ;> SetNoteHistory [] ;>
  pushNavigationState snap
    (NavigationState.mk VBooks (Some category) None None []) Ret.

(** [bookData?.trees?.[0]?.id] when it is truthy. *)
Definition firstTreeId (bookData : option BookData.t) : option str :=
  match bookData with
  | Some bd =>
      match BookData.trees bd with
      | tree :: _ =>
          if truthy (Some (NoteTree.id tree)) then Some (NoteTree.id tree)
          else None
      | [] => None
      end
  | None => None
  end.

(** [structure[selectedCategory!]?.books[book]]. *)
Definition lookupBook (snap : PageState) (book : str) : option BookData.t :=
  match structure snap !! keyOf (selectedCategory snap) with
  | Some cat => CategoryData.books cat !! book
  | None => None
  end.

(** [handleBookClick]. *)
Definition handleBookClick (snap : PageState) (book : str) : Task :=
  SetSelectedBook (Some book) ;> SetViewLevel VNote ;>
  SetNoteLoading true ;> SetNoteHistory [] ;>
  match firstTreeId (lookupBook snap book) with
  | Some rootId =>
      AwaitNote rootId
        (fun r =>
           match r with
           | Some fetched =>
               SetCurrentNote (Some fetched) ;>
               pushNavigationState snap
                 (NavigationState.mk VNote (selectedCategory snap) (Some book)
                    (Some (Note.id fetched)) [])
                 (SetNoteLoading false ;> Ret)
           | None =>
               ConsoleError (js "Failed to load note:") ;>
               SetCurrentNote None ;> SetNoteLoading false ;> Ret
           end)
  | None => SetCurrentNote None ;> SetNoteLoading false ;> Ret
  end.

(** [const newHistory = currentNote ? [...noteHistory, currentNote] : noteHistory]. *)
Definition newHistory (snap : PageState) : list Note.t :=
  match currentNote snap with
  | Some cur => noteHistory snap ++ [cur]
  | None => noteHistory snap
  end.

(** [navigateToNote]. *)
Definition navigateToNote (snap : PageState) (noteId : str) : Task :=
  SetNoteLoading true ;>
  let rest :=
    AwaitNote noteId
      (fun r =>
         match r with
         | Some fetched =>
             SetCurrentNote (Some fetched) ;>
             pushNavigationState snap
               (NavigationState.mk VNote (selectedCategory snap)
                  (selectedBook snap) (Some (Note.id fetched))
                  (map Note.id (newHistory snap)))
               (SetNoteLoading false ;> Ret)
         | None =>
             ConsoleError (js "Failed to load note:") ;>
             SetNoteLoading false ;> Ret
         end) in
  if bool_decide (is_Some (currentNote snap))
  then SetNoteHistory (newHistory snap) ;> rest
  else rest.

(** [currentNote?.book]. *)
Definition currentBook (snap : PageState) : option str :=
  match currentNote snap with
  | Some cur => Note.book cur
  | None => None
  end.

Definition sameTitle (linkText : str) (r : NoteMetadata.t) : bool :=
  str_eqb (toLowerCase (NoteMetadata.title r)) (toLowerCase linkText).

Definition sameBook (snap : PageState) (r : NoteMetadata.t) : bool :=
  bool_decide (NoteMetadata.book r = currentBook snap).

(** [results.find(p1) || results.find(p2) || results[0]]. *)
Definition exactMatch (snap : PageState) (linkText : str)
    (results : list NoteMetadata.t) : option NoteMetadata.t :=
  match find (fun r => sameTitle linkText r && sameBook snap r) results with
  | Some r => Some r
  | None =>
      match find (fun r => sameTitle linkText r) results with
      | Some r => Some r
      | None => head results
      end
  end.

(** [handleWikiLinkClick]. *)
Definition handleWikiLinkClick (snap : PageState) (linkText : str) : Task :=
  AwaitSearch FromWikiLink linkText
    (fun r =>
       match r with
       | Some results =>
           if bool_decide (0 < length results) then
             match exactMatch snap linkText results with
             | Some found => navigateToNote snap (NoteMetadata.id found)
             | None => Ret
             end
           else Ret
       | None => ConsoleError (js "Failed to navigate:") ;> Ret
       end).

(** The [onClick] of a search result. *)
Definition handleSearchResultClick (snap : PageState) (result : NoteMetadata.t)
  : Task :=
  SetSelectedCategory (Some (NoteMetadata.category result)) ;>
  SetSelectedBook (orNull (NoteMetadata.book result)) ;>
  SetViewLevel VNote ;> SetNoteHistory [] ;> SetNoteLoading true ;>
  AwaitNote (NoteMetadata.id result)
    (fun r =>
       match r with
       | Some fullNote =>
           SetCurrentNote (Some fullNote) ;> SetNoteLoading false ;>
           SetSearchQuery [] ;>
           pushNavigationState snap
             (NavigationState.mk VNote (Some (NoteMetadata.category result))
                (orNull (NoteMetadata.book result))
                (Some (Note.id fullNote)) [])
             Ret
       | None => Ret      (* the rejection is not caught: the handler stops *)
       end).

(** The [onClick] of the category in the breadcrumb. *)
Definition handleCrumbCategoryClick : Task :=
  SetViewLevel VBooks ;> SetSelectedBook None ;> SetCurrentNote None ;>
  SetNoteHistory [] ;> Ret.

(** The [onClick] of the "Back to categories" button of the books grid. *)
Definition handleBackToCategoriesClick : Task :=
  SetViewLevel VCategories ;> SetSelectedCategory None ;> Ret.

(** ** The notes page: events

    A step is one event: a click, a keystroke in the search box, a browser
    traversal, the debounce timeout, the URL effect, or the completion of a
    request some suspended handler waits for.  Handlers interleave at their
    awaits. *)

Record World : Type := mkWorld {
  sys : Sys;
  pending : list Task;      (* handlers suspended at an await *)
}.

Inductive Event : Type :=
  | ClickAllCategories                 (* breadcrumb: resetToCategories *)
  | ClickCrumbCategory                 (* breadcrumb: the selected category *)
  | ClickCrumbBook                     (* breadcrumb: the selected book *)
  | TypeQuery (q : str)                (* onChange of the search input *)
  | ClickSearchResult (i : nat)
  | ClickCategory (category : str)
  | ClickBackToCategories
  | ClickBook (book : str)
  | ClickBack                          (* handleBack: window.history.back() *)
  | ClickWikiLink (linkTarget : str)
  | ClickChild (i : nat)
  | PopState (target : nat)            (* the browser moves to entry [target] *)
  | TimerFires
  | UrlEffectRuns (shouldReset : bool)
  | Resolve (i : nat) (api : Api).     (* the [i]-th suspended handler resumes *)

(** [!loading && !error && searchQuery.length < 2]. *)
Definition mainVisible (p : PageState) : bool :=
  negb (loading p) && negb (truthy (error p))
  && bool_decide (length (searchQuery p) < 2).

Definition isView (v : ViewLevel) (p : PageState) : bool :=
  match v, viewLevel p with
  | VCategories, VCategories | VBooks, VBooks | VNote, VNote => true
  | _, _ => false
  end.

(** The note card is rendered: the note view without the spinner. *)
Definition noteShown (p : PageState) : bool :=
  mainVisible p && isView VNote p && negb (noteLoading p)
  && bool_decide (is_Some (currentNote p)).

(** [Object.entries(structure[selectedCategory]?.books || {})]. *)
Definition booksShown (p : PageState) : gmap str BookData.t :=
  match selectedCategory p with
  | Some c =>
      match structure p !! c with
      | Some cat => CategoryData.books cat
      | None => ∅
      end
  | None => ∅
  end.

Definition childrenOf (n : Note.t) : list NavRef.t :=
  match Note.navigation n with
  | Some nav => NavigationContext.children nav
  | None => []
  end.

(** The handler a click or keystroke runs, when its control is rendered. *)
Definition handlerOf (p : PageState) (e : Event) : option Task :=
  match e with
  | ClickAllCategories => Some resetToCategories
  | ClickCrumbCategory =>
      if truthy (selectedCategory p) then Some handleCrumbCategoryClick
      else None
  | ClickCrumbBook =>
      if truthy (selectedBook p)
      then Some (handleBookClick p (default [] (selectedBook p)))
      else None
  | TypeQuery q => Some (SetSearchQuery q ;> Ret)
  | ClickSearchResult i =>
      if bool_decide (2 ≤ length (searchQuery p)) then
        match searchResults p !! i with
        | Some r => Some (handleSearchResultClick p r)
        | None => None
        end
      else None
  | ClickCategory category =>
      if mainVisible p && isView VCategories p
         && bool_decide (is_Some (structure p !! category))
      then Some (handleCategoryClick p category)
      else None
  | ClickBackToCategories =>
      if mainVisible p && isView VBooks p && truthy (selectedCategory p)
      then Some handleBackToCategoriesClick
      else None
  | ClickBook book =>
      if mainVisible p && isView VBooks p && truthy (selectedCategory p)
         && bool_decide (is_Some (booksShown p !! book))
      then Some (handleBookClick p book)
      else None
  | ClickWikiLink linkTarget =>
      match currentNote p with
      | Some cur =>
          if noteShown p
             && bool_decide
                  (linkTarget ∈ (renderedLinks (NoteContent (Note.content cur))).*2)
          then Some (handleWikiLinkClick p linkTarget)
          else None
      | None => None
      end
  | ClickChild i =>
      match currentNote p with
      | Some cur =>
          if noteShown p then
            match childrenOf cur !! i with
            | Some child => Some (navigateToNote p (NavRef.id child))
            | None => None
            end
          else None
      | None => None
      end
  | _ => None
  end.

(** A handler starts: it runs up to its first await. *)
Definition spawn (t : Task) (w : World) : World :=
  let '(s, t') := segment t (sys w) in
  mkWorld s (pending w ++ match t' with Ret => [] | _ => [t'] end).

(** The [i]-th suspended handler receives its answer and runs up to its next
    await. *)
Definition resume (i : nat) (api : Api) (w : World) : option World :=
  match pending w !! i with
  | Some t =>
      match respond api t with
      | Some t2 =>
          let '(s, t') := segment t2 (sys w) in
          Some (mkWorld s
                  match t' with
                  | Ret => delete i (pending w)
                  | _ => <[i := t']> (pending w)
                  end)
      | None => None
      end
  | None => None
  end.

(** The browser makes entry [target] the current one and fires [popstate]
    with the state of that entry. *)
Definition traverse (target : nat) (w : World) : option World :=
  let b := browser (sys w) in
  if bool_decide (target < length (entries b) ∧ target ≠ cursor b) then
    Some (spawn (handlePopState (mjoin (entries b !! target)))
            (mkWorld (onBrowser (fun b => mkBrowser (entries b) target) (sys w))
               (pending w)))
  else None.

Definition step (w : World) (e : Event) : option World :=
  let p := ui (sys w) in
  match e with
  | Resolve i api => resume i api w
  | PopState target => traverse target w
  | ClickBack =>
      if mainVisible p && isView VNote p
         && bool_decide (0 < cursor (browser (sys w)))
      then traverse (cursor (browser (sys w)) - 1) w
      else None
  | TimerFires =>
      match timer (sys w) with
      | Some q =>
          Some (spawn (searchCallback q)
                  (mkWorld (setTimer None (sys w)) (pending w)))
      | None => None
      end
  | UrlEffectRuns shouldReset => Some (spawn (urlEffect shouldReset p) w)
  | _ =>
      match handlerOf p e with
      | Some t => Some (spawn t w)
      | None => None
      end
  end.

(** The page right after it is mounted in a browser whose current entry is
    [cursor b]: the first effect replaces the state of that entry, the
    structure effect starts its fetch. *)
Definition mount (b : Browser) : World :=
  spawn (HistoryReplaceState initialState ;> structureEffect)
    (mkWorld (mkSys initialPageState b None []) []).

Fixpoint run (w : World) (es : list Event) : option World :=
  match es with
  | [] => Some w
  | e :: es' =>
      match step w e with
      | Some w' => run w' es'
      | None => None
      end
  end.

(** An entry written by this page: every state it pushes or replaces is
    the initial state, a books state without a note id, or a note state.
    [None] is an entry of another page. *)
Definition ownEntry (e : option NavigationState.t) : Prop :=
  match e with
  | Some st =>
      NavigationState.viewLevel st = VNote ∨ NavigationState.noteId st = None
  | None => True
  end.

(** The session history the page is mounted in. *)
Definition sessionOk (b : Browser) : Prop :=
  cursor b < length (entries b) ∧ Forall ownEntry (entries b).

Definition reachable (w : World) : Prop :=
  ∃ b es, sessionOk b ∧ run (mount b) es = Some w.

(** *** Runs without overlap

    Every request is answered before the next event: after an event the
    handler it started is resumed until nothing is suspended.  The URL
    effect, which React runs again after a commit in which
    [isRestoringState] changed, is not part of the step of the event that
    changed the flag: it is the event [UrlEffectRuns] of its own, which in a
    run of the page follows that event. *)

Fixpoint settle (api : Api) (n : nat) (w : World) : World :=
  match n with
  | 0 => w
  | S n' =>
      match pending w with
      | [] => w
      | _ :: _ =>
          match resume 0 api w with
          | Some w' => settle api n' w'
          | None => w
          end
      end
  end.

Definition quiet (w : World) : bool :=
  match pending w with [] => true | _ :: _ => false end.

Definition seqStep (w : World) (ea : Event * Api) : option World :=
  if quiet w then
    match step w ea.1 with
    | Some w' =>
        let w'' := settle ea.2 2 w' in
        if quiet w'' then Some w'' else None
    | None => None
    end
  else None.

Fixpoint seqRun (w : World) (eas : list (Event * Api)) : option World :=
  match eas with
  | [] => Some w
  | ea :: eas' =>
      match seqStep w ea with
      | Some w' => seqRun w' eas'
      | None => None
      end
  end.

Definition seqReachable (w : World) : Prop :=
  ∃ b api eas,
    sessionOk b ∧ seqRun (settle api 2 (mount b)) eas = Some w.

(** The requests recorded in a log, in the order they were issued. *)
Definition requestsIn (l : list LogEntry) : list Request :=
  omap (fun e => match e with LRequest r => Some r | LDo _ => None end) l.

(** The number of awaits [t] goes through when [api] answers. *)
Fixpoint awaitsLeft (api : Api) (t : Task) : nat :=
  match t with
  | Ret => 0
  | Do _ k => awaitsLeft api k
  | AwaitNote id k => S (awaitsLeft api (k (fetchNote api id)))
  | AwaitAll ids k => S (awaitsLeft api (k (fetchAll api ids)))
  | AwaitSearch _ q k => S (awaitsLeft api (k (searchNotes api q)))
  | AwaitStructure k => S (awaitsLeft api (k (fetchVaultStructure api)))
  end.

(** ** Wiki-links as the specification describes them *)

(** [[[target]]] or [[[target|alias]]]. *)
Record WikiLink : Type := mkLink {
  target : str;
  alias : option str;
}.

Definition linkSource (l : WikiLink) : str :=
  js "[[" ++ target l
  ++ match alias l with Some a => "|"%char :: a | None => [] end
  ++ js "]]".

Definition displayOf (l : WikiLink) : str := default (target l) (alias l).

(** The target is not empty and holds neither a closing bracket nor a bar;
    the alias, when there is one, is not empty and holds no closing
    bracket. *)
Definition wfLink (l : WikiLink) : Prop :=
  target l ≠ [] ∧ ("]"%char ∉ target l) ∧ ("|"%char ∉ target l)
  ∧ match alias l with
    | Some a => a ≠ [] ∧ ("]"%char ∉ a)
    | None => True
    end.

(** Text that opens no link: no two opening brackets in a row, and, unless
    [endOk], no opening bracket as its last character. *)
Fixpoint openFree (endOk : bool) (p : str) : bool :=
  match p with
  | [] => true
  | c :: p' =>
      (negb (ascii_eqb c "[")
       || match p' with
          | [] => endOk
          | d :: _ => negb (ascii_eqb d "[")
          end)
      && openFree endOk p'
  end.

(** A line of text is a sequence of links, each preceded by link-free text,
    followed by a link-free end: [segSource segs ++ tail]. *)
Definition segSource (segs : list (str * WikiLink)) : str :=
  flat_map (fun pl => pl.1 ++ linkSource pl.2) segs.

Definition wfSeg (pl : str * WikiLink) : Prop :=
  openFree false pl.1 = true ∧ wfLink pl.2.

(** The node for the text between two links: nothing for no text. *)
Definition textNode (p : str) : list Inline :=
  match p with
  | [] => []
  | _ :: _ => [Span (formatInlineText p)]
  end.

Definition segNodes (segs : list (str * WikiLink)) : list Inline :=
  flat_map (fun pl => textNode pl.1 ++ [Button (displayOf pl.2) (target pl.2)])
    segs.

(** [r] is the first element of [l] that satisfies [P]. *)
Definition FirstWith {A} (P : A -> bool) (l : list A) (r : A) : Prop :=
  ∃ pre post, l = pre ++ r :: post ∧ P r = true
              ∧ Forall (fun x => P x = false) pre.

(** *** The tie-break in the words of the specification

    "(1) prefer a result whose title case-insensitively equals the target
    AND whose book matches the current note's book; (2) else prefer a result
    whose title case-insensitively equals the target, regardless of book;
    (3) else take the first search result".  None of these definitions
    mentions the tests [handleWikiLinkClick] makes. *)

(** A capital letter among the code units below 256: A to Z, or one of the
    accented capitals 0xC0 to 0xDE (0xD7 is the multiplication sign). *)
Definition isCapital (n : nat) : Prop :=
  65 ≤ n ≤ 90 ∨ (192 ≤ n ≤ 222 ∧ n ≠ 215).

(** Two code units are the same letter: equal, or a capital and its small
    letter, which lies 32 above it. *)
Definition sameLetter (c d : ascii) : Prop :=
  c = d
  ∨ (isCapital (nat_of_ascii c) ∧ nat_of_ascii d = nat_of_ascii c + 32)
  ∨ (isCapital (nat_of_ascii d) ∧ nat_of_ascii c = nat_of_ascii d + 32).

(** "Case-insensitively equals": the same letters in the same order. *)
Definition equalIgnoringCase (a b : str) : Prop := Forall2 sameLetter a b.

(** "A result whose title case-insensitively equals the target". *)
Definition titleEquals (linkText : str) (r : NoteMetadata.t) : Prop :=
  equalIgnoringCase (NoteMetadata.title r) linkText.

(** "Whose book matches the current note's book". *)
Definition inBookOf (cur : Note.t) (r : NoteMetadata.t) : Prop :=
  NoteMetadata.book r = Note.book cur.

(** [r] is the first element of [l] with the property [P]. *)
Definition FirstSuch {A} (P : A -> Prop) (l : list A) (r : A) : Prop :=
  ∃ pre post, l = pre ++ r :: post ∧ P r ∧ Forall (fun x => ¬ P x) pre.

(** The tie-break: (1) the first result with the title of the target,
    ignoring case, and the book of the current note; else (2) the first
    result with that title, whatever its book; else (3) the first result. *)
Definition tieBreakRule (cur : Note.t) (linkText : str)
    (results : list NoteMetadata.t) (r : NoteMetadata.t) : Prop :=
  FirstSuch (fun x => titleEquals linkText x ∧ inBookOf cur x) results r
  ∨ (Forall (fun x => ¬ (titleEquals linkText x ∧ inBookOf cur x)) results
     ∧ FirstSuch (titleEquals linkText) results r)
  ∨ (Forall (fun x => ¬ titleEquals linkText x) results
     ∧ head results = Some r).

(** ** A small vault used in the examples *)

Module Example.
Definition note (id title : string) (book : string) (content : string)
    (kids : list (string * string)) : Note.t :=
  Note.mk (js id) (js title) (js "Science") (Some (js book)) (js (id ++ ".md"))
    0 (js content) []
    (Some (NavigationContext.mk [] []
             (map (fun k => NavRef.mk (js k.1) (js k.2)) kids) None
             (bool_decide (kids = [])) 0)).

Definition meta (n : Note.t) : NoteMetadata.t :=
  NoteMetadata.mk (Note.id n) (Note.title n) (Note.category n) (Note.book n)
    (Note.file_path n) (Note.word_count n).

Definition root : Note.t :=
  note "root" "Sapiens" "Sapiens"
    "Read [[chapter 1]] and [[Atomic Habits|this book]]."
    [("c1", "Chapter 1"); ("c2", "Chapter 2")].

Definition c1 : Note.t := note "c1" "Chapter 1" "Sapiens" "Fire." [].
Definition c2 : Note.t := note "c2" "Chapter 2" "Sapiens" "Wheat." [].

(** A note of another book with the title of [c1]. *)
Definition other : Note.t := note "o1" "Chapter 1" "Cosmos" "Stars." [].

Definition tree : NoteTree.t :=
  NoteTree.mk (js "root") (js "Sapiens") (js "root.md") (Some (js "Sapiens"))
    true false 0 2 []
    [ NoteTree.mk (js "c1") (js "Chapter 1") (js "c1.md") (Some (js "Sapiens"))
        false true 1 0 [] [];
      NoteTree.mk (js "c2") (js "Chapter 2") (js "c2.md") (Some (js "Sapiens"))
        false true 1 0 [] [] ].

(** One category with a book that has a tree and a flat book without. *)
Definition vault : gmap str CategoryData.t :=
  {[ js "Science" :=
       CategoryData.mk 5 2
         {[ js "Sapiens" := BookData.mk 3 [tree] true;
            js "Flat" := BookData.mk 2 [] false ]} ]}.

Definition notes : list Note.t := [root; c1; c2; other].

(** The backend answering every request. *)
Definition api : Api :=
  mkApi
    (fun id => find (fun n => str_eqb (Note.id n) id) notes)
    (fun q =>
       if str_eqb (toLowerCase q) (js "chapter 1")
       then Some [meta other; meta c1]
       else if str_eqb q (js "ch") then Some [meta c1; meta c2]
       else Some [])
    (Some vault).

(** The backend serving the structure and searches but no note. *)
Definition apiNoNotes : Api :=
  mkApi (fun _ => None) (searchNotes api) (Some vault).

(** A fresh tab: one entry, written by no page yet. *)
Definition session : Browser := mkBrowser [None] 0.

(** The page after the structure has loaded, the category and the book
    were selected and the root note is shown. *)
Definition atRoot : option World :=
  seqRun (settle api 2 (mount session))
    [ (ClickCategory (js "Science"), api); (ClickBook (js "Sapiens"), api) ].

(** The root note shown after the book was selected. *)
Definition shown : Sys :=
  mkSys
    (mkPageState vault false None [] VNote (Some (js "Science"))
       (Some (js "Sapiens")) (Some root) false [] [] false false)
    (mkBrowser
       [ Some initialState;
         Some (NavigationState.mk VBooks (Some (js "Science")) None None []);
         Some (NavigationState.mk VNote (Some (js "Science"))
                 (Some (js "Sapiens")) (Some (js "root")) []) ]
       2)
    None [].

(** The same page after a click on the first child: [c1] is shown and
    [root] is on the history stack. *)
Definition atC1 : World :=
  default (mount session)
    (seqRun (settle api 2 (mount session))
       [ (ClickCategory (js "Science"), api); (ClickBook (js "Sapiens"), api);
         (ClickChild 0, api) ]).

(** A run with overlap: the wiki-link of the root note is clicked and,
    before the search answers, the breadcrumb resets to the categories. *)
Definition linkThenReset : list Event :=
  [ Resolve 0 api; ClickCategory (js "Science"); ClickBook (js "Sapiens");
    Resolve 0 api; ClickWikiLink (js "chapter 1"); ClickAllCategories;
    Resolve 0 api; Resolve 0 api ].

(** A run with overlap: two characters are typed, the timeout fires, the
    query is cleared, and only then the search answers. *)
Definition typeThenClear : list Event :=
  [ Resolve 0 api; TypeQuery (js "ch"); TimerFires; TypeQuery [];
    Resolve 0 api ].

(** The page after "ch" was typed, the timeout fired and the search
    answered. *)
Definition afterSearch : World :=
  default (mount session)
    (run (mount session)
       [ Resolve 0 api; TypeQuery (js "ch"); TimerFires; Resolve 0 api ]).

(** The state stored for the note [c1] reached from [root]. *)
Definition stateC1 : NavigationState.t :=
  NavigationState.mk VNote (Some (js "Science")) (Some (js "Sapiens"))
    (Some (js "c1")) [js "root"].
End Example.

(** ** Runs in which handlers overlap *)

Module Overlap.
(** The state stored for the root note of the book. *)
Definition stateRoot : NavigationState.t :=
  NavigationState.mk VNote (Some (js "Science")) (Some (js "Sapiens"))
    (Some (js "root")) [].

(** The clicks that lead to [c1] reached from [root], each answered before
    the next: the session then holds the entries of the categories, of the
    books of Science, of [root] and of [c1], and the cursor is on the
    last. *)
Definition toC1 : list Event :=
  [ Resolve 0 Example.api; ClickCategory (js "Science");
    ClickBook (js "Sapiens"); Resolve 0 Example.api;
    ClickChild 0; Resolve 0 Example.api ].

(** Back, Forward and Back of the browser, pressed before any answer
    arrives: three restores wait, of [root], of [c1] and of [root] again.
    Then the note of the second arrives, and then the note of the first,
    which ends the first restore.  [b] is [shouldReset]: the URL effect runs
    after each commit in which the guard flag changed, here after the first
    restore has set it. *)
Definition backForwardBack (b : bool) : list Event :=
  [ PopState 2; UrlEffectRuns b; PopState 3; PopState 2;
    Resolve 1 Example.api; Resolve 0 Example.api ].

(** The URL effect after the flag was released, then the answers the other
    two restores wait for: the note of the third restore, and the history
    notes of the second. *)
Definition lateAnswers (b : bool) : list Event :=
  [ UrlEffectRuns b; Resolve 1 Example.api; Resolve 0 Example.api ].

(** The wiki-link of the root note is clicked and, before the search
    answers, the second child is clicked and its note arrives. *)
Definition linkThenChild : list Event :=
  [ Resolve 0 Example.api; ClickCategory (js "Science");
    ClickBook (js "Sapiens"); Resolve 0 Example.api;
    ClickWikiLink (js "chapter 1"); ClickChild 1; Resolve 1 Example.api ].

(** The search of the link answers, then the note it resolves to. *)
Definition lateLink : list Event :=
  [ Resolve 0 Example.api; Resolve 0 Example.api ].
End Overlap.

(** ** A vault with more notes of one title than a search returns *)

Module Crowded.
Definition letter (i : nat) : string :=
  String (ascii_of_nat (97 + i)) EmptyString.

(** Twenty notes titled "Chapter 1", each in a book of its own. *)
Definition crowd : list Note.t :=
  map (fun i => Example.note ("o" ++ letter i) "Chapter 1"
                  ("Book " ++ letter i) "Elsewhere." [])
    (seq 0 20).

(** The notes of the vault, in the order the search service lists them. *)
Definition notes : list Note.t := crowd ++ Example.notes.

(** The backend of that vault: a search returns the notes with the title
    asked for, the first 20 of them ([searchNotes] asks with [limit = 20]). *)
Definition api : Api :=
  mkApi
    (fun id => find (fun n => str_eqb (Note.id n) id) notes)
    (fun q =>
       Some (map Example.meta
               (take 20
                  (filter (fun n => toLowerCase (Note.title n) = toLowerCase q)
                     notes))))
    (Some Example.vault).
End Crowded.

(** ** Predicates on tasks and states used by the invariants *)

Definition isRet (t : Task) : bool :=
  match t with Ret => true | _ => false end.

(** What a suspended task does once [api] answers, run on its own. *)
Definition resumeIso (api : Api) (t : Task) (s : Sys) : Sys :=
  match respond api t with
  | Some t2 => runIso api t2 (searchQuery (ui s)) s
  | None => s
  end.

(** The task never calls [searchNotes] on behalf of the search box. *)
Fixpoint boxFree (t : Task) : Prop :=
  match t with
  | Ret => True
  | Do _ k => boxFree k
  | AwaitNote _ k => ∀ r, boxFree (k r)
  | AwaitAll _ k => ∀ r, boxFree (k r)
  | AwaitSearch o _ k => o = FromWikiLink ∧ ∀ r, boxFree (k r)
  | AwaitStructure k => ∀ r, boxFree (k r)
  end.

(** The task never assigns [searchResults]. *)
Fixpoint resultsFree (t : Task) : Prop :=
  match t with
  | Ret => True
  | Do st k =>
      match st with SetSearchResults _ => False | _ => True end ∧ resultsFree k
  | AwaitNote _ k => ∀ r, resultsFree (k r)
  | AwaitAll _ k => ∀ r, resultsFree (k r)
  | AwaitSearch _ _ k => ∀ r, resultsFree (k r)
  | AwaitStructure k => ∀ r, resultsFree (k r)
  end.

(** A non-empty history stack only in the note view, and every entry of the
    session written by this page. *)
Definition historyOk (s : Sys) : Prop :=
  (noteHistory (ui s) ≠ [] → viewLevel (ui s) = VNote)
  ∧ Forall ownEntry (entries (browser s)).

(** The armed timeout, if any, closed over [q0] and [q0] has two characters
    or more. *)
Definition timerOk (q0 : str) (s : Sys) : Prop :=
  ∀ q, timer s = Some q → q = q0 ∧ 2 ≤ length q.

(** The results are empty if [q0] is shorter than two characters. *)
Definition resultsOk (q0 : str) (s : Sys) : Prop :=
  length q0 < 2 → searchResults (ui s) = [].

Definition seqInv (w : World) : Prop :=
  pending w = []
  ∧ historyOk (sys w)
  ∧ timerOk (searchQuery (ui (sys w))) (sys w)
  ∧ resultsOk (searchQuery (ui (sys w))) (sys w).

(** What an event other than a completion starts: a task [t] on a state
    [s0] that differs from the current one in the cursor of the session or
    in the timer at most. *)
Inductive Starts (w : World) : Event → Task → Sys → Prop :=
  | StartsHandler e t :
      handlerOf (ui (sys w)) e = Some t → Starts w e t (sys w)
  | StartsPopState e target :
      (e = PopState target ∨ e = ClickBack) →
      target < length (entries (browser (sys w))) →
      Starts w e
        (handlePopState (mjoin (entries (browser (sys w)) !! target)))
        (onBrowser (fun b => mkBrowser (entries b) target) (sys w))
  | StartsTimer q :
      timer (sys w) = Some q →
      Starts w TimerFires (searchCallback q) (setTimer None (sys w))
  | StartsUrlEffect b :
      Starts w (UrlEffectRuns b) (urlEffect b (ui (sys w))) (sys w).

(** The events that enter a book: a book of the books panel or of the
    breadcrumb, or a search result. *)
Definition entersBook (e : Event) : bool :=
  match e with
  | ClickBook _ | ClickCrumbBook | ClickSearchResult _ => true
  | _ => false
  end.

(** Whatever a suspended task does after its answer, it does not search for
    the search box. *)
Definition boxAfter (t : Task) : Prop :=
  ∀ api t2, respond api t = Some t2 → boxFree t2.

(** The invariant of all runs: the timer is in step with the query and no
    suspended handler will search for the search box. *)
Definition boxInv (w : World) : Prop :=
  timerOk (searchQuery (ui (sys w))) (sys w) ∧ Forall boxAfter (pending w).

(** The next character, if any, is outside the class. *)
Definition stops (p : ascii -> bool) (rest : str) : Prop :=
  match rest with
  | [] => True
  | d :: _ => p d = false
  end.

(** ** Links as [renderInline] reads them *)

(** Whatever stands between two opening and two closing brackets. *)
Definition bracketSource (body : str) : str := js "[[" ++ body ++ js "]]".

(** The body is not empty and holds no closing bracket; it may hold a bar. *)
Definition wfBody (body : str) : Prop := body ≠ [] ∧ ("]"%char ∉ body).

Definition rawSource (segs : list (str * str)) : str :=
  flat_map (fun pb => pb.1 ++ bracketSource pb.2) segs.

Definition wfRaw (pb : str * str) : Prop :=
  openFree false pb.1 = true ∧ wfBody pb.2.

(** The node [renderInline] emits for the text between two links. *)
Definition htmlNode (p : str) : list Inline :=
  match p with
  | [] => []
  | _ :: _ => [Html (formatText p)]
  end.

Definition rawNodes (segs : list (str * str)) : list Inline :=
  flat_map (fun pb => htmlNode pb.1 ++ [Button pb.2 pb.2]) segs.

(** ** One emphasised span in plain text *)

(** Text with neither an asterisk nor a backtick. *)
Definition plain (s : str) : Prop := ("*"%char ∉ s) ∧ ("`"%char ∉ s).

(** ** Lines and fences *)

(** [line.startsWith("```")]: the line opens or closes a code block. *)
Definition isFence (line : str) : bool := startsWith line (js "```").

(** What a line outside a code block adds to [elements]. *)
Definition lineBlock (inl : str -> list Inline) (line : str) : list Block :=
  elements (lineStep inl (mkLineState false [] []) line).

(** The [forEach] over given lines, from the initial state. *)
Definition renderLines (inl : str -> list Inline) (lines : list str)
  : list Block :=
  elements (foldl (lineStep inl) (mkLineState false [] []) lines).

(** [codeContent] after the lines of a code block: each followed by a
    line feed. *)
Definition codeOf (body : list str) : str :=
  flat_map (fun l => l ++ ["010"%char]) body.

(** ** The first single-note page: [MarkdownContent] *)

(** What the replacer of the wiki-link pattern returns: the link, brackets
    included, inside a coloured span. *)
Definition wikiSpan : list tpiece :=
  [ TLit (js "<span class=" ++ [dq] ++ js "text-[var(--color-accent-500)]"
          ++ [dq] ++ js ">[[");
    TGroup 1;
    TLit (js "]]</span>") ].

(** [processInlineStyles]: the [__html] of the span it returns.  Links are
    replaced first, then bold, italic and inline code over the whole
    result. *)
Definition processInlineStyles (text : str) : str :=
  replaceAll Pat.code 1 Tmpl.code
    (replaceAll Pat.italic 1 Tmpl.em
       (replaceAll Pat.bold 1 Tmpl.strong
          (replaceAll Pat.wikiLinkPatternNoAlias 1 wikiSpan text))).

(** ** The single-note page: resolving a wiki-link *)

(** [results.find(r => r.title.toLowerCase() === linkText.toLowerCase())
    || results[0]] of the single-note page. *)
Definition noteToLoad (linkText : str) (results : list NoteMetadata.t)
  : option NoteMetadata.t :=
  match find (sameTitle linkText) results with
  | Some r => Some r
  | None => head results
  end.

(** [handleWikiLinkClick] of the single-note page: the path given to
    [router.push], if any. *)
Definition handleWikiLinkClickSlug (api : Api) (linkText : str) : option str :=
  match searchNotes api linkText with
  | Some results =>
      if bool_decide (0 < length results) then
        match noteToLoad linkText results with
        | Some r => Some (js "/notes/" ++ NoteMetadata.id r)
        | None => None
        end
      else None
  | None => None       (* console.error("Failed to navigate:", err) *)
  end.

(** ** The page as a browser-history entry describes it *)

(** The [NavigationState] that describes a page state: its view level,
    selection, the id of the current note and the ids of the history
    stack. *)
Definition snapshot (p : PageState) : NavigationState.t :=
  NavigationState.mk (viewLevel p) (selectedCategory p) (selectedBook p)
    (option_map Note.id (currentNote p)) (map Note.id (noteHistory p)).

(** ** Flags in runs without overlap *)

(** The statements that assign one of the flags [loading], [isSearching] or
    [isRestoringState]. *)
Definition setsFlag (st : Stmt) : bool :=
  match st with
  | SetLoading _ | SetIsSearching _ | SetIsRestoringState _ => true
  | _ => false
  end.

(** The task assigns no flag. *)
Fixpoint flagFree (t : Task) : Prop :=
  match t with
  | Ret => True
  | Do st k => setsFlag st = false ∧ flagFree k
  | AwaitNote _ k => ∀ r, flagFree (k r)
  | AwaitAll _ k => ∀ r, flagFree (k r)
  | AwaitSearch _ _ k => ∀ r, flagFree (k r)
  | AwaitStructure k => ∀ r, flagFree (k r)
  end.

(** No page-level spinner, no search spinner, no restore in progress. *)
Definition flagsOff (p : PageState) : Prop :=
  loading p = false ∧ isSearching p = false ∧ isRestoringState p = false.

(** ** Returning to an entry of the session *)

(** The task never calls [history.replaceState]. *)
Fixpoint replaceFree (t : Task) : Prop :=
  match t with
  | Ret => True
  | Do st k =>
      match st with HistoryReplaceState _ => False | _ => True end
      ∧ replaceFree k
  | AwaitNote _ k => ∀ r, replaceFree (k r)
  | AwaitAll _ k => ∀ r, replaceFree (k r)
  | AwaitSearch _ _ k => ∀ r, replaceFree (k r)
  | AwaitStructure k => ∀ r, replaceFree (k r)
  end.

(** The current entry exists, and entries up to [n] are those of [b]. *)
Definition keeps (n : nat) (b b' : Browser) : Prop :=
  cursor b' < length (entries b') ∧ n ≤ cursor b'
  ∧ ∀ i, i ≤ n → entries b' !! i = entries b !! i.

(** ** The header (components/Header) *)

(** [navItems]: [href] and [label]. *)
Definition navItems : list (str * str) :=
  [ (js "/", js "Home"); (js "/about", js "About");
    (js "/projects", js "Projects"); (js "/education", js "Education");
    (js "/notes", js "Notes"); (js "/quotes", js "Quotes");
    (js "/contact", js "Contact") ].

(** The condition under which a link gets the class [active]:
    [pathname === item.href ||
     (item.href !== "/" && pathname.startsWith(item.href))]. *)
Definition isActive (pathname href : str) : bool :=
  str_eqb pathname href
  || (negb (str_eqb href (js "/")) && startsWith pathname href).

(** The links marked active on [pathname]. *)
Definition activeItems (pathname : str) : list (str * str) :=
  List.filter (fun item => isActive pathname item.1) navItems.

(** [handleNavClick(href, e)]: the mobile menu after the click, and whether
    the default navigation is prevented and [window.location.href] is
    assigned ["/notes"]. *)
Definition handleNavClick (pathname href : str) : bool * bool :=
  (false, str_eqb href (js "/notes") && startsWith pathname (js "/notes")).

(** ** The projects page (lib/projects, app/projects/page) *)

(** [Project["category"]]: ["ai" | "web" | "podcast" | "other"]. *)
Inductive ProjectCategory : Type := PAi | PWeb | PPodcast | POther.

(** The string a category is at run time. *)
Definition categoryName (c : ProjectCategory) : str :=
  match c with
  | PAi => js "ai"
  | PWeb => js "web"
  | PPodcast => js "podcast"
  | POther => js "other"
  end.

Record Project : Type := mkProject {
  projectId : str;
  projectTitle : str;
  projectDescription : str;
  longDescription : option str;
  projectCategory : ProjectCategory;
  image : option str;
  technologies : list str;
  liveUrl : option str;
  githubUrl : option str;
  featured : bool;
}.

(** [categories]: the filter buttons, [id] and [label]. *)
Definition categories : list (str * str) :=
  [ (js "all", js "All Projects"); (js "ai", js "AI & ML");
    (js "web", js "Web Development"); (js "podcast", js "Podcasts");
    (js "other", js "Other") ].

(** [filteredProjects] of [ProjectsPage]. *)
Definition filteredProjects (projects : list Project) (activeCategory : str)
  : list Project :=
  if str_eqb activeCategory (js "all") then projects
  else List.filter
         (fun p => str_eqb (categoryName (projectCategory p)) activeCategory)
         projects.

(** [featuredProjects] of [ProjectsPage]. *)
Definition featuredProjects (projects : list Project) : list Project :=
  List.filter featured projects.

(** The technology tags of a [ProjectCard]:
    [project.technologies.slice(0, 4)]. *)
Definition shownTechnologies (p : Project) : list str :=
  take 4 (technologies p).

(** The number in the ["+N more"] tag, when the tag is rendered. *)
Definition moreTechnologies (p : Project) : option nat :=
  if bool_decide (4 < length (technologies p))
  then Some (length (technologies p) - 4)
  else None.

(** ** The contact page (app/contact/page) *)

Module ContactPage.
Record FormData : Type := mkFormData {
  name : str;
  email : str;
  subject : str;
  message : str;
}.

Inductive StatusType : Type := Success | Error.

(** The [useState] variables of [ContactPage]. *)
Record State : Type := mkState {
  formData : FormData;
  isSubmitting : bool;
  submitStatus : option (StatusType * str);
}.

(** The [name] attribute of the four inputs. *)
Inductive Field : Type := FName | FEmail | FSubject | FMessage.

Definition emptyForm : FormData := mkFormData [] [] [] [].

Definition initialState : State := mkState emptyForm false None.

(** [{ ...prev, [name]: value }]. *)
Definition setField (f : Field) (value : str) (d : FormData) : FormData :=
  match f with
  | FName => mkFormData value (email d) (subject d) (message d)
  | FEmail => mkFormData (name d) value (subject d) (message d)
  | FSubject => mkFormData (name d) (email d) value (message d)
  | FMessage => mkFormData (name d) (email d) (subject d) value
  end.

(** [handleChange]. *)
Definition handleChange (f : Field) (value : str) (st : State) : State :=
  mkState (setField f value (formData st)) (isSubmitting st) None.

(** [handleSubmit] up to its [await]: the state while the request is under
    way; the data sent are [formData st]. *)
Definition handleSubmitStart (st : State) : State :=
  mkState (formData st) true None.

(** [handleSubmit] after its [await]; [ok] tells whether
    [submitContactForm] resolved. *)
Definition handleSubmitEnd (ok : bool) (st : State) : State :=
  if ok then
    mkState emptyForm false
      (Some (Success,
             js "Thank you for your message! I will get back to you soon."))
  else
    mkState (formData st) false
      (Some (Error,
             js "Failed to send message. Please try again or email me directly.")).

(** [handleSubmit] with nothing happening during the request. *)
Definition handleSubmit (submitContactForm : FormData -> bool) (st : State)
  : State :=
  handleSubmitEnd (submitContactForm (formData st)) (handleSubmitStart st).
End ContactPage.

(** ** The quotes page (app/quotes/page) *)

Module QuotesPage.
Record Quote : Type := mkQuote {
  text : str;
  source : str;
  book : option str;
  category : str;
}.

(** The [useState] variables of [QuotesPage]. *)
Record State : Type := mkState {
  quote : option Quote;
  categories : list str;
  selectedCategory : str;
  isLoading : bool;
  error : option str;
  copied : bool;
}.

Definition initialState : State := mkState None [] [] false None false.

(** The effect on mount: the categories of the backend, or the four
    placeholder categories when the request fails. *)
Definition categoriesEffect (fetchQuoteCategories : option (list str))
    (st : State) : State :=
  mkState (quote st)
    (match fetchQuoteCategories with
     | Some cs => cs
     | None => [js "Spiritual"; js "Self-Help"; js "Science"; js "Philosophy"]
     end)
    (selectedCategory st) (isLoading st) (error st) (copied st).

(** [selectedCategory || undefined]. *)
Definition requestCategory (st : State) : option str :=
  match selectedCategory st with
  | [] => None
  | _ :: _ => Some (selectedCategory st)
  end.

Definition placeholderQuote (st : State) : Quote :=
  mkQuote (js "The only way to do great work is to love what you do.")
    (js "Placeholder") (Some (js "Demo Quote"))
    (match selectedCategory st with
     | [] => js "Inspiration"
     | _ :: _ => selectedCategory st
     end).

(** [generateQuote] with nothing happening during the request. *)
Definition generateQuote (fetchRandomQuote : option str -> option Quote)
    (st : State) : State :=
  match fetchRandomQuote (requestCategory st) with
  | Some newQuote =>
      mkState (Some newQuote) (categories st) (selectedCategory st) false
        None false
  | None =>
      mkState (Some (placeholderQuote st)) (categories st)
        (selectedCategory st) false
        (Some (js "Could not fetch quote. Make sure the backend is running."))
        false
  end.
End QuotesPage.

(** ** The list view of the notes (app/notes/page, list version) *)

Module NotesList.
(** The [useState] variables of the page that the load effect assigns; [N]
    is the type of a tree node. *)
Record State (N : Type) : Type := mkState {
  tree : gmap str (list N);
  notes : list NoteMetadata.t;
  loading : bool;
  error : option str;
}.
Arguments mkState {N}.
Arguments tree {N}.
Arguments notes {N}.
Arguments loading {N}.
Arguments error {N}.

Definition initialState {N} : State N := mkState ∅ [] true None.

(** The effect on mount:
    [Promise.all([fetchNoteTree(), fetchNotes()])]. *)
Definition loadEffect {N} (fetchNoteTree : option (gmap str (list N)))
    (fetchNotes : option (list NoteMetadata.t)) (st : State N) : State N :=
  match fetchNoteTree, fetchNotes with
  | Some treeData, Some notesData => mkState treeData notesData false (error st)
  | _, _ =>
      mkState (tree st) (notes st) false
        (Some (js "Could not load notes. Ensure the backend is running."))
  end.

(** [!loading && !error && notes.length > 0]: the line with the counts is
    rendered. *)
Definition statsShown {N} (st : State N) : bool :=
  negb (loading st) && negb (truthy (error st))
  && bool_decide (0 < length (notes st)).
End NotesList.

(** ** The first single-note page: [processContent] *)

(** The elements [processContent] builds; headings, quotes, list items and
    paragraphs hold the [__html] of the span [processInlineStyles]
    returns. *)
Inductive MdBlock : Type :=
  | MdPre (codeContent : str)
  | MdH3 (html : str)
  | MdH2 (html : str)
  | MdH1 (html : str)
  | MdBlockquote (html : str)
  | MdLi (html : str)
  | MdLiDecimal (html : str)
  | MdBr                         (* <br /> *)
  | MdP (html : str).

(** The variables the [forEach] callback of [processContent] closes over. *)
Record MdState : Type := mkMdState {
  mdInCodeBlock : bool;
  mdCodeContent : str;
  mdCodeLanguage : str;
  mdElements : list MdBlock;
}.

Definition mdPush (st : MdState) (b : MdBlock) : MdState :=
  mkMdState (mdInCodeBlock st) (mdCodeContent st) (mdCodeLanguage st)
    (mdElements st ++ [b]).

(** The body of [lines.forEach((line, index) => ...)] in
    [processContent]. *)
Definition processLine (st : MdState) (line : str) : MdState :=
  if startsWith line (js "```") then
    if negb (mdInCodeBlock st)
    then mkMdState true [] (trim (sliceFrom line 3)) (mdElements st)
    else mkMdState false (mdCodeContent st) (mdCodeLanguage st)
           (mdElements st ++ [MdPre (mdCodeContent st)])
  else if mdInCodeBlock st then
    mkMdState true (mdCodeContent st ++ line ++ ["010"%char])
      (mdCodeLanguage st) (mdElements st)
  else if startsWith line (js "### ") then
    mdPush st (MdH3 (processInlineStyles (sliceFrom line 4)))
  else if startsWith line (js "## ") then
    mdPush st (MdH2 (processInlineStyles (sliceFrom line 3)))
  else if startsWith line (js "# ") then
    mdPush st (MdH1 (processInlineStyles (sliceFrom line 2)))
  else if startsWith line (js "> ") then
    mdPush st (MdBlockquote (processInlineStyles (sliceFrom line 2)))
  else if matchesAtStart Pat.bullet 0 line then
    mdPush st (MdLi (processInlineStyles (sliceFrom line 2)))
  else if matchesAtStart Pat.numbered 0 line then
    mdPush st (MdLiDecimal
                 (processInlineStyles (removeAtStart Pat.numbered 0 line)))
  else if str_eqb (trim line) [] then mdPush st MdBr
  else mdPush st (MdP (processInlineStyles line)).

(** [processContent]. *)
Definition processContent (text : str) : list MdBlock :=
  mdElements (foldl processLine (mkMdState false [] [] []) (splitLines text)).

(** The inline renderer of [MarkdownContent] seen as one of [NoteContent]:
    one node, never a button. *)
Definition mdInline (text : str) : list Inline :=
  [Html (processInlineStyles text)].

(** The [__html] of the text nodes of an inline content. *)
Definition htmlOf (c : list Inline) : str :=
  flat_map (fun i => match i with
                     | Html h | Span h => h
                     | Button _ _ => []
                     end) c.

(** The element of [processContent] that corresponds to a block of
    [NoteContent]. *)
Definition mdOf (b : Block) : MdBlock :=
  match b with
  | Pre c => MdPre c
  | H3 c => MdH3 (htmlOf c)
  | H2 c => MdH2 (htmlOf c)
  | H1 c => MdH1 (htmlOf c)
  | Blockquote c => MdBlockquote (htmlOf c)
  | Li c => MdLi (htmlOf c)
  | LiDecimal c => MdLiDecimal (htmlOf c)
  | Spacer => MdBr
  | P c => MdP (htmlOf c)
  end.

Arguments ascii_eqb : simpl never.
Arguments cls_ok : simpl never.
Arguments searchEffect : simpl never.
Arguments issue : simpl never.
Arguments logRequests : simpl never.
Arguments fetchAll : simpl never.
Arguments pushState : simpl never.
Arguments replaceState : simpl never.
Arguments js : simpl never.

(** * Properties *)

(** ** Strings and matching *)

Lemma ascii_eqb_true a b : ascii_eqb a b = true ↔ a = b.
Proof. apply Ascii.eqb_eq. Qed.

Lemma ascii_eqb_false a b : ascii_eqb a b = false ↔ a ≠ b.
Proof. apply Ascii.eqb_neq. Qed.

Lemma ascii_eqb_refl a : ascii_eqb a a = true.
Proof. by apply ascii_eqb_true. Qed.

Lemma trimStart_white s :
  Forall (fun c => isWhite c = true) s → trimStart s = [].
Proof.
  induction 1 as [|c s Hc _ IH]; simpl; [done|]. by rewrite Hc.
Qed.

Lemma trimStart_nil_white s :
  trimStart s = [] → Forall (fun c => isWhite c = true) s.
Proof.
  induction s as [|c s IH]; simpl; [constructor|].
  destruct (isWhite c) eqn:Hc; [|done]. intros H. constructor; auto.
Qed.

Lemma trim_white s : Forall (fun c => isWhite c = true) s → trim s = [].
Proof. intros H. unfold trim. by rewrite trimStart_white. Qed.

Lemma trimStart_suffix s : ∃ pre, s = pre ++ trimStart s
                                  ∧ Forall (fun c => isWhite c = true) pre.
Proof.
  induction s as [|c s [pre [E Hpre]]]; simpl.
  - by exists [].
  - destruct (isWhite c) eqn:Hc.
    + exists (c :: pre). split; [by rewrite E at 1|by constructor].
    + by exists [].
Qed.

Lemma trim_nil_white s : trim s = [] → Forall (fun c => isWhite c = true) s.
Proof.
  unfold trim, trimEnd. intros H.
  apply (f_equal reverse) in H. rewrite reverse_involutive in H.
  change (reverse []) with (@nil ascii) in H.
  apply trimStart_nil_white in H.
  destruct (trimStart_suffix s) as [pre [E Hpre]].
  rewrite E. apply Forall_app. split; [done|].
  apply Forall_reverse. done.
Qed.

(** A pattern that starts with a literal character does not match where the
    text starts with another character. *)
Lemma match_at_chr_head c r n s :
  head s ≠ Some c → match_at (chr c +++ r) n s = None.
Proof.
  unfold match_at, chr. destruct s as [|x s]; cbn [rmatch]; [done|].
  intros H. unfold cls_ok. destruct (ascii_eqb c x) eqn:E; [|done].
  apply ascii_eqb_true in E. by subst.
Qed.

Lemma search_chr_absent c r n s i :
  c ∉ s → search (chr c +++ r) n s i = None.
Proof.
  revert i. induction s as [|x s IH]; intros i Hc; cbn [search].
  - by rewrite match_at_chr_head.
  - rewrite match_at_chr_head.
    + apply IH. set_solver.
    + simpl. intros [= ->]. set_solver.
Qed.

Lemma exec_start r n text : exec r n text 0 = search r n text 0.
Proof. unfold exec. rewrite bool_decide_true by lia. done. Qed.

Lemma replaceAll_no_match r n tmpl text :
  search r n text 0 = None → replaceAll r n tmpl text = text.
Proof.
  intros H. unfold replaceAll. simpl. by rewrite exec_start, H.
Qed.

Lemma replaceAll_chr_absent c r n tmpl text :
  c ∉ text → replaceAll (chr c +++ r) n tmpl text = text.
Proof. intros H. apply replaceAll_no_match. by apply search_chr_absent. Qed.

(** ** C9: formatting plain text *)

(** C9. For every string that holds no asterisk and no backtick (hence no
    substring matching the bold, italic or inline-code pattern),
    [formatText] and [formatInlineText] return the string unchanged. *)
Theorem formatText_plain_identity (s : str) :
  "*"%char ∉ s → "`"%char ∉ s →
  formatText s = s ∧ formatInlineText s = s.
Proof.
  intros Hstar Htick.
  assert (E : replaceAll Pat.code 1 Tmpl.code
                (replaceAll Pat.italic 1 Tmpl.em
                   (replaceAll Pat.bold 1 Tmpl.strong s)) = s).
  { unfold Pat.bold, Pat.italic, Pat.code.
    rewrite (replaceAll_chr_absent "*" _ 1 Tmpl.strong s Hstar).
    rewrite (replaceAll_chr_absent "*" _ 1 Tmpl.em s Hstar).
    exact (replaceAll_chr_absent "`" _ 1 Tmpl.code s Htick). }
  split; [exact E|]. unfold formatInlineText. exact E.
Qed.

Lemma formatText_plain_identity_witness :
  ("*"%char ∉ js "Sapiens, chapter 1: [draft] #2")
  ∧ ("`"%char ∉ js "Sapiens, chapter 1: [draft] #2")
  ∧ formatText (js "Sapiens, chapter 1: [draft] #2")
    = js "Sapiens, chapter 1: [draft] #2"
  ∧ formatInlineText (js "Sapiens, chapter 1: [draft] #2")
    = js "Sapiens, chapter 1: [draft] #2".
Proof.
  assert (H1 : "*"%char ∉ js "Sapiens, chapter 1: [draft] #2").
  { apply (bool_decide_unpack _). vm_compute. exact I. }
  assert (H2 : "`"%char ∉ js "Sapiens, chapter 1: [draft] #2").
  { apply (bool_decide_unpack _). vm_compute. exact I. }
  split; [exact H1|]. split; [exact H2|].
  exact (formatText_plain_identity _ H1 H2).
Defined.

(** ** C10: notes without content *)

(** C10. For every content that is empty or consists of white space only,
    both copies of [NoteContent] return the fixed placeholder and run no
    part of the block pipeline: no block and no link unit is emitted. *)
Theorem NoteContent_blank_placeholder (content : str) :
  Forall (fun c => isWhite c = true) content →
  NoteContent content = Placeholder (js "This note has no content.")
  ∧ NoteContentSlug content = Placeholder (js "This note has no content.")
  ∧ blocksOf (NoteContent content) = []
  ∧ renderedLinks (NoteContent content) = []
  ∧ blocksOf (NoteContentSlug content) = []
  ∧ renderedLinks (NoteContentSlug content) = [].
Proof.
  intros H.
  assert (E : ∀ inl, NoteContentWith inl content = Placeholder noContentText).
  { intros inl. unfold NoteContentWith. rewrite (trim_white _ H).
    by rewrite orb_true_r. }
  unfold NoteContent, NoteContentSlug, renderedLinks. rewrite !E. done.
Qed.

Lemma NoteContent_blank_placeholder_witness :
  Forall (fun c => isWhite c = true) [" "%char; "010"%char; "009"%char]
  ∧ NoteContent [" "%char; "010"%char; "009"%char]
    = Placeholder (js "This note has no content.")
  ∧ NoteContentSlug [" "%char; "010"%char; "009"%char]
    = Placeholder (js "This note has no content.").
Proof.
  assert (H : Forall (fun c => isWhite c = true)
                [" "%char; "010"%char; "009"%char]).
  { repeat constructor. }
  split; [exact H|].
  split; [exact (proj1 (NoteContent_blank_placeholder _ H))
         |exact (proj1 (proj2 (NoteContent_blank_placeholder _ H)))].
Defined.

(** The early return is what keeps the pipeline out: run on the same white
    space it would emit one spacer per line. *)
Example renderBlocks_on_blank_lines :
  renderBlocks renderInlineContent [" "%char; "010"%char; "009"%char]
  = [Spacer; Spacer].
Proof. reflexivity. Qed.

(** Conversely, the placeholder is returned for blank content only. *)
Lemma NoteContent_placeholder_only_blank content t :
  NoteContent content = Placeholder t →
  Forall (fun c => isWhite c = true) content.
Proof.
  unfold NoteContent, NoteContentWith, str_eqb.
  destruct (bool_decide (content = [])) eqn:E1; simpl.
  - apply bool_decide_eq_true in E1. subst. constructor.
  - destruct (bool_decide (trim content = [])) eqn:E2; [|done].
    apply bool_decide_eq_true in E2. intros _. by apply trim_nil_white.
Qed.

(** ** Wiki-link extraction in [renderInlineContent] *)

Lemma plus_k_stop {A} p rest (k : str -> option A) :
  stops p rest → plus_k p rest k = None.
Proof. destruct rest as [|d rest]; simpl; [done|]. by intros ->. Qed.

(** A greedy run takes all of [t] when what follows is outside the class and
    the continuation accepts there. *)
Lemma plus_k_run {A} p t rest (k : str -> option A) x :
  t ≠ [] → Forall (fun c => p c = true) t → stops p rest →
  k rest = Some x → plus_k p (t ++ rest) k = Some x.
Proof.
  intros Hne Hall Hstop Hk. induction Hall as [|c t Hc Hall IH]; [done|].
  simpl. rewrite Hc. destruct t as [|c' t'].
  - simpl. by rewrite plus_k_stop.
  - by rewrite IH.
Qed.

Lemma take_consumed (a b : str) :
  take (length (a ++ b) - length b) (a ++ b) = a.
Proof.
  rewrite length_app.
  replace (length a + length b - length b) with (length a) by lia.
  by rewrite take_app_length.
Qed.

Lemma not_in_class (c : ascii) (cs : list ascii) (t : str) :
  Forall (fun d => d ∉ t) cs →
  Forall (fun x => cls_ok (CNot cs) x = true) t.
Proof.
  intros H. apply Forall_forall. intros x Hx. simpl.
  apply negb_true_iff. apply not_true_iff_false. intros E.
  apply existsb_exists in E as [d [Hd E]]. apply ascii_eqb_true in E.
  subst d. rewrite Forall_forall in H. apply (H x); [|done].
  by apply list_elem_of_In.
Qed.

Lemma cls_ok_chr c : cls_ok (CChar c) c = true.
Proof. apply ascii_eqb_refl. Qed.

Lemma cls_ok_chr_ne c d : c ≠ d → cls_ok (CChar c) d = false.
Proof. intros. by apply ascii_eqb_false. Qed.

Ltac list_norm := repeat (cbn [app] || rewrite <- app_assoc).

Lemma take_whole (w rest all : str) :
  all = w ++ rest → take (length all - length rest) all = w.
Proof. intros ->. apply take_consumed. Qed.

Lemma match_at_link l rest :
  wfLink l →
  match_at Pat.wikiLinkPattern 2 (linkSource l ++ rest)
  = Some (linkSource l, [None; Some (target l); alias l]).
Proof.
  intros (Hne & Hrb & Hbar & Hal).
  destruct l as [t al]. cbn [target alias] in *. 
  unfold match_at, linkSource, Pat.wikiLinkPattern, chr. cbn [target alias].
  change (js "[[") with ["["%char; "["%char].
  change (js "]]") with ["]"%char; "]"%char].
  cbn [rmatch app]. rewrite !cls_ok_chr.
  destruct al as [a|].
  - destruct Hal as [Hane Harb]. list_norm.
    apply plus_k_run; [done| | |].
    + apply (not_in_class "]"). repeat constructor; done.
    + done.
    + cbn beta. rewrite cls_ok_chr.
      erewrite (plus_k_run _ a); [reflexivity|done| | |].
      * apply (not_in_class "]"). repeat constructor; done.
      * done.
      * cbn beta iota. rewrite !cls_ok_chr, !take_consumed.
        f_equal. f_equal. apply take_whole. by list_norm.
  - list_norm. apply plus_k_run; [done| | |].
    + apply (not_in_class "]"). repeat constructor; done.
    + done.
    + cbn beta iota. rewrite (cls_ok_chr_ne "|" "]") by done.
      rewrite !cls_ok_chr, !take_consumed. f_equal. f_equal.
      apply take_whole. by list_norm.
Qed.

(** Both wiki-link patterns start with two opening brackets. *)
Lemma match_at_two_open r n s :
  (match s with
   | c :: d :: _ => c ≠ "["%char ∨ d ≠ "["%char
   | _ => True
   end) →
  match_at (chr "[" +++ chr "[" +++ r) n s = None.
Proof.
  unfold match_at, chr. cbn [rmatch].
  destruct s as [|c [|d s]]; [done| |].
  - intros _. by destruct (cls_ok (CChar "[") c).
  - intros [H|H].
    + by rewrite (cls_ok_chr_ne "[" c).
    + destruct (cls_ok (CChar "[") c); [|done].
      by rewrite (cls_ok_chr_ne "[" d).
Qed.

Lemma search_open_free r n p X i w cs :
  openFree false p = true →
  head X = Some "["%char →
  match_at (chr "[" +++ chr "[" +++ r) n X = Some (w, cs) →
  search (chr "[" +++ chr "[" +++ r) n (p ++ X) i
  = Some (mkMatch (i + length p) w cs).
Proof.
  intros Hp HX Hm. revert i.
  induction p as [|c p IH]; intros i.
  - cbn [app length]. rewrite Nat.add_0_r. destruct X; cbn [search]; by rewrite Hm.
  - cbn [openFree] in Hp. apply andb_true_iff in Hp as [Hc Hp].
    cbn [app search]. rewrite match_at_two_open.
    + rewrite IH by done. f_equal. f_equal. cbn [length]. lia.
    + destruct p as [|d p]; cbn [app].
      * destruct X as [|x X]; [done|]. 
        rewrite orb_false_r in Hc. left. apply negb_true_iff in Hc.
        by apply ascii_eqb_false in Hc.
      * apply orb_true_iff in Hc as [Hc|Hc]; apply negb_true_iff in Hc;
          apply ascii_eqb_false in Hc; auto.
Qed.

Lemma search_open_free_none r n p i :
  openFree true p = true →
  search (chr "[" +++ chr "[" +++ r) n p i = None.
Proof.
  revert i. induction p as [|c p IH]; intros i Hp.
  - cbn [search]. by rewrite match_at_two_open.
  - cbn [openFree] in Hp. apply andb_true_iff in Hp as [Hc Hp].
    cbn [search]. rewrite match_at_two_open; [by apply IH|].
    destruct p as [|d p]; [done|].
    apply orb_true_iff in Hc as [Hc|Hc]; apply negb_true_iff in Hc;
      apply ascii_eqb_false in Hc; auto.
Qed.

Lemma linkSource_head l : ∃ s, linkSource l = "["%char :: s.
Proof. unfold linkSource. eexists. reflexivity. Qed.

Lemma textNode_slice pre p rest parts :
  (if bool_decide (length pre < length pre + length p)
   then parts ++ [Span (formatInlineText
                          (slice (pre ++ p ++ rest) (length pre) (length pre + length p)))]
   else parts) = parts ++ textNode p.
Proof.
  destruct p as [|c p].
  - rewrite bool_decide_false by (simpl; lia). by rewrite app_nil_r.
  - rewrite bool_decide_true by (simpl; lia). unfold slice.
    rewrite drop_app_length.
    replace (length pre + length (c :: p) - length pre) with (length (c :: p)) by lia.
    by rewrite take_app_length.
Qed.

Lemma renderInlineContent_loop_doc segs :
  ∀ tail pre parts fuel,
    length segs < fuel →
    Forall wfSeg segs →
    openFree true tail = true →
    renderInlineContent_loop fuel (pre ++ segSource segs ++ tail) (length pre) parts
    = (parts ++ segNodes segs, length pre + length (segSource segs)).
Proof.
  induction segs as [|[p l] segs IH]; intros tail pre parts fuel Hfuel Hwf Htail.
  - destruct fuel as [|fuel]; [simpl in Hfuel; lia|].
    cbn [segSource segNodes flat_map app length renderInlineContent_loop].
    unfold exec. rewrite bool_decide_true by (rewrite length_app; lia).
    rewrite drop_app_length.
    unfold Pat.wikiLinkPattern. rewrite search_open_free_none by done.
    by rewrite app_nil_r, Nat.add_0_r.
  - destruct fuel as [|fuel]; [simpl in Hfuel; lia|].
    apply Forall_cons in Hwf as [[Hp Hl] Hwf]. cbn [fst snd] in Hp, Hl.
    cbn [renderInlineContent_loop].
    unfold exec. rewrite bool_decide_true by (rewrite length_app; lia).
    rewrite drop_app_length.
    change (segSource ((p, l) :: segs)) with ((p ++ linkSource l) ++ segSource segs).
    rewrite <- !app_assoc.
    unfold Pat.wikiLinkPattern.
    rewrite (search_open_free _ 2 p _ (length pre) (linkSource l)
               [None; Some (target l); alias l]); [|done| |].
    + cbn [index whole]. rewrite textNode_slice.
      unfold group. cbn [groups lookup list_lookup mjoin option_join].
      replace (pre ++ p ++ linkSource l ++ segSource segs ++ tail)
        with ((pre ++ p ++ linkSource l) ++ segSource segs ++ tail)
        by (by rewrite <- !app_assoc).
      replace (length pre + length p + length (linkSource l))
        with (length (pre ++ p ++ linkSource l))
        by (rewrite !length_app; lia).
      rewrite IH; [|simpl in Hfuel; lia|done|done].
      f_equal.
      * cbn [segNodes flat_map fst snd]. rewrite <- !app_assoc. do 3 f_equal.
        unfold displayOf. destruct Hl as (_ & _ & _ & Hal).
        destruct (alias l) as [[|c a]|]; cbn; [by destruct Hal|done|done].
      * rewrite !length_app. lia.
    + destruct (linkSource_head l) as [s ->]. done.
    + by apply match_at_link.
Qed.

Lemma segSource_length segs : length segs ≤ length (segSource segs).
Proof.
  induction segs as [|[p l] segs IH]; [done|].
  change (segSource ((p, l) :: segs)) with ((p ++ linkSource l) ++ segSource segs).
  destruct (linkSource_head l) as [s ->].
  rewrite !length_app. cbn [length]. lia.
Qed.

(** Every line made of well-formed links separated by link-free text is
    rendered as one button per link, in order, with the text between the
    links formatted on its own. *)
Lemma renderInlineContent_doc segs tail :
  Forall wfSeg segs → openFree true tail = true →
  (segs ≠ [] ∨ tail ≠ []) →
  renderInlineContent (segSource segs ++ tail) = segNodes segs ++ textNode tail.
Proof.
  intros Hwf Htail Hne. unfold renderInlineContent.
  assert (Hlen : length segs < S (length (segSource segs ++ tail))).
  { rewrite length_app. pose proof (segSource_length segs). lia. }
  pose proof (renderInlineContent_loop_doc segs tail [] [] _ Hlen Hwf Htail) as E.
  cbn [app length] in E. rewrite E. cbn [app Nat.add].
  assert (Et : (if bool_decide (length (segSource segs) < length (segSource segs ++ tail))
                then segNodes segs ++ [Span (formatInlineText
                       (sliceFrom (segSource segs ++ tail) (length (segSource segs))))]
                else segNodes segs) = segNodes segs ++ textNode tail).
  { unfold sliceFrom. rewrite drop_app_length, length_app.
    destruct tail as [|c tail].
    - rewrite bool_decide_false by (simpl; lia). by rewrite app_nil_r.
    - by rewrite bool_decide_true by (simpl; lia). }
  rewrite Et. rewrite bool_decide_true; [done|].
  rewrite length_app. destruct Hne as [Hne|Hne].
  - destruct segs as [|[p l] segs]; [done|].
    cbn [segNodes flat_map]. rewrite !length_app. simpl. lia.
  - destruct tail; [done|]. simpl. lia.
Qed.

Lemma linkUnits_app a b : linkUnits (a ++ b) = linkUnits a ++ linkUnits b.
Proof. unfold linkUnits. apply omap_app. Qed.

Lemma linkUnits_textNode p : linkUnits (textNode p) = [].
Proof. by destruct p. Qed.

Lemma linkUnits_segNodes segs :
  linkUnits (segNodes segs) = map (fun pl => (displayOf pl.2, target pl.2)) segs.
Proof.
  induction segs as [|[p l] segs IH]; [done|].
  cbn [segNodes flat_map map fst snd]. rewrite !linkUnits_app, linkUnits_textNode.
  cbn [app]. fold (segNodes segs). rewrite IH. done.
Qed.

(** A line with N well-formed links is rendered with exactly N link units by
    [renderInlineContent]; each shows the alias when there is one and the
    target otherwise, and calls [onLinkClick] with the target. *)
Lemma renderInlineContent_links segs tail :
  Forall wfSeg segs → openFree true tail = true →
  linkUnits (renderInlineContent (segSource segs ++ tail))
  = map (fun pl => (displayOf pl.2, target pl.2)) segs
  ∧ length (linkUnits (renderInlineContent (segSource segs ++ tail))) = length segs.
Proof.
  intros Hwf Htail.
  assert (E : linkUnits (renderInlineContent (segSource segs ++ tail))
              = map (fun pl => (displayOf pl.2, target pl.2)) segs).
  { destruct (decide (segs = [] ∧ tail = [])) as [[-> ->]|Hne].
    - reflexivity.
    - rewrite renderInlineContent_doc; [|done|done|].
      + by rewrite linkUnits_app, linkUnits_textNode, app_nil_r, linkUnits_segNodes.
      + destruct segs; [|by left]. destruct tail; [|by right]. by destruct Hne. }
  split; [done|]. by rewrite E, length_map.
Qed.

(** ** Frame lemmas for the system state *)

Lemma logRequests_fold rs s :
  ui (logRequests rs s) = ui s ∧ browser (logRequests rs s) = browser s
  ∧ timer (logRequests rs s) = timer s
  ∧ log (logRequests rs s) = log s ++ map LRequest rs.
Proof.
  unfold logRequests. revert s.
  induction rs as [|r rs IH]; intros s; cbn [foldl map].
  - by rewrite app_nil_r.
  - destruct (IH (logged (LRequest r) s)) as (-> & -> & -> & ->).
    cbn. by rewrite <- app_assoc.
Qed.

Lemma ui_logRequests rs s : ui (logRequests rs s) = ui s.
Proof. apply logRequests_fold. Qed.

Lemma browser_logRequests rs s : browser (logRequests rs s) = browser s.
Proof. apply logRequests_fold. Qed.

Lemma timer_logRequests rs s : timer (logRequests rs s) = timer s.
Proof. apply logRequests_fold. Qed.

Lemma log_logRequests rs s :
  log (logRequests rs s) = log s ++ map LRequest rs.
Proof. apply logRequests_fold. Qed.

Ltac search_effect_cases :=
  intros; unfold searchEffect; repeat case_bool_decide; reflexivity.

Lemma browser_searchEffect q s : browser (searchEffect q s) = browser s.
Proof. search_effect_cases. Qed.

Lemma structure_searchEffect q s :
  structure (ui (searchEffect q s)) = structure (ui s).
Proof. search_effect_cases. Qed.

Lemma loading_searchEffect q s :
  loading (ui (searchEffect q s)) = loading (ui s).
Proof. search_effect_cases. Qed.

Lemma error_searchEffect q s :
  error (ui (searchEffect q s)) = error (ui s).
Proof. search_effect_cases. Qed.

Lemma noteHistory_searchEffect q s :
  noteHistory (ui (searchEffect q s)) = noteHistory (ui s).
Proof. search_effect_cases. Qed.

Lemma viewLevel_searchEffect q s :
  viewLevel (ui (searchEffect q s)) = viewLevel (ui s).
Proof. search_effect_cases. Qed.

Lemma selectedCategory_searchEffect q s :
  selectedCategory (ui (searchEffect q s)) = selectedCategory (ui s).
Proof. search_effect_cases. Qed.

Lemma selectedBook_searchEffect q s :
  selectedBook (ui (searchEffect q s)) = selectedBook (ui s).
Proof. search_effect_cases. Qed.

Lemma currentNote_searchEffect q s :
  currentNote (ui (searchEffect q s)) = currentNote (ui s).
Proof. search_effect_cases. Qed.

Lemma noteLoading_searchEffect q s :
  noteLoading (ui (searchEffect q s)) = noteLoading (ui s).
Proof. search_effect_cases. Qed.

Lemma searchQuery_searchEffect q s :
  searchQuery (ui (searchEffect q s)) = searchQuery (ui s).
Proof. search_effect_cases. Qed.

Lemma isRestoringState_searchEffect q s :
  isRestoringState (ui (searchEffect q s)) = isRestoringState (ui s).
Proof. search_effect_cases. Qed.

(** A statement changes the one state variable it sets. *)

Lemma structure_execStmt st s :
  structure (ui (execStmt st s))
  = match st with SetStructure v => v | _ => structure (ui s) end.
Proof. by destruct st. Qed.

Lemma loading_execStmt st s :
  loading (ui (execStmt st s))
  = match st with SetLoading v => v | _ => loading (ui s) end.
Proof. by destruct st. Qed.

Lemma error_execStmt st s :
  error (ui (execStmt st s))
  = match st with SetError v => v | _ => error (ui s) end.
Proof. by destruct st. Qed.

Lemma noteHistory_execStmt st s :
  noteHistory (ui (execStmt st s))
  = match st with SetNoteHistory v => v | _ => noteHistory (ui s) end.
Proof. by destruct st. Qed.

Lemma viewLevel_execStmt st s :
  viewLevel (ui (execStmt st s))
  = match st with SetViewLevel v => v | _ => viewLevel (ui s) end.
Proof. by destruct st. Qed.

Lemma selectedCategory_execStmt st s :
  selectedCategory (ui (execStmt st s))
  = match st with SetSelectedCategory v => v | _ => selectedCategory (ui s) end.
Proof. by destruct st. Qed.

Lemma selectedBook_execStmt st s :
  selectedBook (ui (execStmt st s))
  = match st with SetSelectedBook v => v | _ => selectedBook (ui s) end.
Proof. by destruct st. Qed.

Lemma currentNote_execStmt st s :
  currentNote (ui (execStmt st s))
  = match st with SetCurrentNote v => v | _ => currentNote (ui s) end.
Proof. by destruct st. Qed.

Lemma noteLoading_execStmt st s :
  noteLoading (ui (execStmt st s))
  = match st with SetNoteLoading v => v | _ => noteLoading (ui s) end.
Proof. by destruct st. Qed.

Lemma searchQuery_execStmt st s :
  searchQuery (ui (execStmt st s))
  = match st with SetSearchQuery v => v | _ => searchQuery (ui s) end.
Proof. by destruct st. Qed.

Lemma searchResults_execStmt st s :
  searchResults (ui (execStmt st s))
  = match st with SetSearchResults v => v | _ => searchResults (ui s) end.
Proof. by destruct st. Qed.

Lemma isSearching_execStmt st s :
  isSearching (ui (execStmt st s))
  = match st with SetIsSearching v => v | _ => isSearching (ui s) end.
Proof. by destruct st. Qed.

Lemma isRestoringState_execStmt st s :
  isRestoringState (ui (execStmt st s))
  = match st with SetIsRestoringState v => v | _ => isRestoringState (ui s) end.
Proof. by destruct st. Qed.

Lemma browser_execStmt st s :
  browser (execStmt st s)
  = match st with
    | HistoryPushState x => pushState x (browser s)
    | HistoryReplaceState x => replaceState x (browser s)
    | _ => browser s
    end.
Proof. by destruct st. Qed.

Lemma timer_execStmt st s : timer (execStmt st s) = timer s.
Proof. by destruct st. Qed.

Lemma log_execStmt st s : log (execStmt st s) = log s ++ [LDo st].
Proof. by destruct st. Qed.

Lemma requestsIn_app l1 l2 :
  requestsIn (l1 ++ l2) = requestsIn l1 ++ requestsIn l2.
Proof. apply omap_app. Qed.

Lemma requestsIn_requests rs : requestsIn (map LRequest rs) = rs.
Proof.
  unfold requestsIn. induction rs as [|r rs IH]; [done|]. cbn. by f_equal.
Qed.

Lemma requestsIn_searchEffect q s :
  requestsIn (log (searchEffect q s)) = requestsIn (log s).
Proof.
  unfold searchEffect. repeat case_bool_decide; try reflexivity.
  cbn. rewrite <- app_assoc, requestsIn_app. cbn. by rewrite app_nil_r.
Qed.

Lemma requestsIn_logRequests rs s :
  requestsIn (log (logRequests rs s)) = requestsIn (log s) ++ rs.
Proof. by rewrite log_logRequests, requestsIn_app, requestsIn_requests. Qed.

Lemma requestsIn_execStmt st s :
  requestsIn (log (execStmt st s)) = requestsIn (log s).
Proof.
  rewrite log_execStmt, requestsIn_app. cbn. by rewrite app_nil_r.
Qed.

(** The search effect does nothing when the query is the one of the
    previous render. *)
Lemma searchEffect_same q s : searchQuery (ui s) = q → searchEffect q s = s.
Proof. intros H. unfold searchEffect. by rewrite bool_decide_true. Qed.

(** Unfolding equations of the runs, with the state kept as it is. *)

Lemma runIso_Ret api q s : runIso api Ret q s = searchEffect q s.
Proof. reflexivity. Qed.

Lemma runIso_Do api st k q s :
  runIso api (st ;> k) q s = runIso api k q (execStmt st s).
Proof. reflexivity. Qed.

Lemma runIso_AwaitNote api id k q s :
  runIso api (AwaitNote id k) q s
  = runIso api (k (fetchNote api id)) (searchQuery (ui s))
      (searchEffect q (logRequests [ReqNote id] s)).
Proof.
  cbn [runIso]. unfold issue. cbn [requestsOf].
  by rewrite searchQuery_searchEffect, ui_logRequests.
Qed.

Lemma runIso_AwaitAll api ids k q s :
  runIso api (AwaitAll ids k) q s
  = runIso api (k (fetchAll api ids)) (searchQuery (ui s))
      (searchEffect q (logRequests (map ReqNote ids) s)).
Proof.
  cbn [runIso]. unfold issue. cbn [requestsOf].
  by rewrite searchQuery_searchEffect, ui_logRequests.
Qed.

Lemma runIso_AwaitSearch api o query k q s :
  runIso api (AwaitSearch o query k) q s
  = runIso api (k (searchNotes api query)) (searchQuery (ui s))
      (searchEffect q (logRequests [ReqSearch o query] s)).
Proof.
  cbn [runIso]. unfold issue. cbn [requestsOf].
  by rewrite searchQuery_searchEffect, ui_logRequests.
Qed.

Lemma runIso_AwaitStructure api k q s :
  runIso api (AwaitStructure k) q s
  = runIso api (k (fetchVaultStructure api)) (searchQuery (ui s))
      (searchEffect q (logRequests [ReqStructure] s)).
Proof.
  cbn [runIso]. unfold issue. cbn [requestsOf].
  by rewrite searchQuery_searchEffect, ui_logRequests.
Qed.

Lemma suspensions_Ret api q s : suspensions api Ret q s = [].
Proof. reflexivity. Qed.

Lemma suspensions_Do api st k q s :
  suspensions api (st ;> k) q s = suspensions api k q (execStmt st s).
Proof. reflexivity. Qed.

Lemma suspensions_AwaitNote api id k q s :
  suspensions api (AwaitNote id k) q s
  = searchEffect q (logRequests [ReqNote id] s)
    :: suspensions api (k (fetchNote api id)) (searchQuery (ui s))
         (searchEffect q (logRequests [ReqNote id] s)).
Proof.
  cbn [suspensions]. unfold issue. cbn [requestsOf].
  by rewrite searchQuery_searchEffect, ui_logRequests.
Qed.

Lemma suspensions_AwaitAll api ids k q s :
  suspensions api (AwaitAll ids k) q s
  = searchEffect q (logRequests (map ReqNote ids) s)
    :: suspensions api (k (fetchAll api ids)) (searchQuery (ui s))
         (searchEffect q (logRequests (map ReqNote ids) s)).
Proof.
  cbn [suspensions]. unfold issue. cbn [requestsOf].
  by rewrite searchQuery_searchEffect, ui_logRequests.
Qed.

Lemma suspensions_AwaitSearch api o query k q s :
  suspensions api (AwaitSearch o query k) q s
  = searchEffect q (logRequests [ReqSearch o query] s)
    :: suspensions api (k (searchNotes api query)) (searchQuery (ui s))
         (searchEffect q (logRequests [ReqSearch o query] s)).
Proof.
  cbn [suspensions]. unfold issue. cbn [requestsOf].
  by rewrite searchQuery_searchEffect, ui_logRequests.
Qed.

Create Rewrite HintDb sys.
#[global] Hint Rewrite ui_logRequests browser_logRequests timer_logRequests
  browser_searchEffect
  structure_searchEffect loading_searchEffect error_searchEffect noteHistory_searchEffect viewLevel_searchEffect selectedCategory_searchEffect selectedBook_searchEffect currentNote_searchEffect noteLoading_searchEffect searchQuery_searchEffect isRestoringState_searchEffect
  structure_execStmt loading_execStmt error_execStmt noteHistory_execStmt viewLevel_execStmt selectedCategory_execStmt selectedBook_execStmt currentNote_execStmt noteLoading_execStmt searchQuery_execStmt searchResults_execStmt isSearching_execStmt isRestoringState_execStmt
  browser_execStmt timer_execStmt
  requestsIn_searchEffect requestsIn_logRequests requestsIn_execStmt
  runIso_Ret runIso_Do runIso_AwaitNote runIso_AwaitAll runIso_AwaitSearch
  runIso_AwaitStructure
  suspensions_Ret suspensions_Do suspensions_AwaitNote suspensions_AwaitAll
  suspensions_AwaitSearch : sys.

Ltac sys_rw := autorewrite with sys.

(** Rewriting with the frame equations, then reducing the matches on the
    statements they leave. *)
Ltac sys_simpl := repeat first [progress sys_rw | progress cbv beta iota].

(** ** C2: restoring a state that carries a note id *)

(** C2, amended. A restore whose stored state carries a note id, with no
    other handler running between its start and its end (every fetch of the
    restore is answered before the next event is handled): the guard flag is
    set at every await, so the re-fetch of the current note and of every
    stored history id is over before the flag is released, and the release
    is the last statement.  When every fetch succeeds the current note and
    the whole history are restored; when the note or any history note fails
    both are cleared together.  Such a restore never ends with the note
    loaded and the history not restored. *)
Theorem handlePopState_all_or_nothing (api : Api) (s : Sys)
    (st : NavigationState.t) (nid : str) :
  NavigationState.noteId st = Some nid → nid ≠ [] →
  let ids := NavigationState.noteHistoryIds st in
  let t := handlePopState (Some st) in
  let s' := runTask api t s in
  Forall (fun x => isRestoringState (ui x) = true)
    (suspensions api t (searchQuery (ui s)) s)
  ∧ isRestoringState (ui s') = false
  ∧ last (log s') = Some (LDo (SetIsRestoringState false))
  ∧ match fetchNote api nid with
    | Some fetched =>
        requestsIn (log s') = requestsIn (log s) ++ ReqNote nid :: map ReqNote ids
        ∧ match fetchAll api ids with
          | Some historyNotes =>
              currentNote (ui s') = Some fetched
              ∧ noteHistory (ui s') = historyNotes
          | None => currentNote (ui s') = None ∧ noteHistory (ui s') = []
          end
    | None =>
        requestsIn (log s') = requestsIn (log s) ++ [ReqNote nid]
        ∧ currentNote (ui s') = None ∧ noteHistory (ui s') = []
    end.
Proof.
  intros Hid Hne. cbv zeta. unfold runTask, handlePopState.
  destruct st as [vl cat book nid' ids]. cbn in Hid. subst nid'.
  destruct nid as [|c nid]; [done|].
  cbn [NavigationState.noteId NavigationState.noteHistoryIds
       NavigationState.viewLevel NavigationState.selectedCategory
       NavigationState.selectedBook truthy from_option id].
  assert (Hlast : ∀ q x, searchQuery (ui x) = q →
            last (log (searchEffect q (execStmt (SetIsRestoringState false) x)))
            = Some (LDo (SetIsRestoringState false))).
  { intros q x Hx. rewrite searchEffect_same.
    - rewrite log_execStmt. apply last_snoc.
    - by rewrite searchQuery_execStmt. }
  assert (Hnil : fetchAll api [] = Some []) by done.
  destruct ids as [|i0 ids].
  - rewrite Hnil. rewrite bool_decide_false by (cbn; lia).
    destruct (fetchNote api (c :: nid)) as [fetched|] eqn:Hf.
    all: sys_simpl; rewrite Hf; sys_simpl.
    all: split; [repeat constructor; sys_simpl; done|].
    all: repeat split;
        first [ solve [apply Hlast; sys_simpl; done]
              | solve [sys_simpl; first [done | by rewrite <- app_assoc]] ].
  - rewrite bool_decide_true by (cbn; lia).
    generalize (i0 :: ids). clear i0 ids. intros ids.
    destruct (fetchAll api ids) as [hs|] eqn:Ha;
      (destruct (fetchNote api (c :: nid)) as [fetched|] eqn:Hf).
    all: sys_simpl; rewrite Hf; sys_simpl; rewrite ?Ha; sys_simpl.
    all: split; [repeat constructor; sys_simpl; done|].
    all: repeat split;
        first [ solve [apply Hlast; sys_simpl; done]
              | solve [sys_simpl; first [done | by rewrite <- app_assoc]] ].
Qed.

Lemma handlePopState_all_or_nothing_witness :
  NavigationState.noteId Example.stateC1 = Some (js "c1")
  ∧ js "c1" ≠ []
  ∧ let s' := runTask Example.api (handlePopState (Some Example.stateC1))
                (mkSys initialPageState Example.session None []) in
    isRestoringState (ui s') = false
    ∧ currentNote (ui s') = Some Example.c1
    ∧ noteHistory (ui s') = [Example.root].
Proof.
  split; [reflexivity|]. split; [discriminate|].
  pose proof (handlePopState_all_or_nothing Example.api
                (mkSys initialPageState Example.session None [])
                Example.stateC1 (js "c1") eq_refl ltac:(discriminate)) as H.
  vm_compute in H. vm_compute.
  destruct H as (_ & Hflag & _ & _ & Hcur & Hhist). auto.
Defined.

(** C2 as stated fails when restores overlap.  With [c1] shown, Back,
    Forward and Back of the browser are pressed before any answer arrives.
    When the first restore ends it releases the guard flag although the
    other two restores still wait, one for its history notes and one for its
    note.  When all three have ended, every fetch having succeeded, the
    browser is on the entry of [root] with an empty stored history and the
    page holds [root] with [root] on its history stack: the current note is
    loaded, the history stack is not the stored one.  This is so whether
    the URL carries no note or book parameter (the URL effect then resets
    the page when the flag is released) or carries one. *)
Lemma restores_overlap :
  let overlap (b : bool) :=
    ∃ w0 w1 w2,
      run (mount Example.session) Overlap.toC1 = Some w0
      ∧ currentNote (ui (sys w0)) = Some Example.c1
      ∧ noteHistory (ui (sys w0)) = [Example.root]
      ∧ pending w0 = []
      ∧ entries (browser (sys w0))
        = [ Some initialState;
            Some (NavigationState.mk VBooks (Some (js "Science")) None None []);
            Some Overlap.stateRoot; Some Example.stateC1 ]
      ∧ cursor (browser (sys w0)) = 3
      ∧ run w0 (Overlap.backForwardBack b) = Some w1
      ∧ isRestoringState (ui (sys w1)) = false
      ∧ map requestsOf (pending w1)
        = [[ReqNote (js "root")]; [ReqNote (js "root")]]
      ∧ run w1 (Overlap.lateAnswers b) = Some w2
      ∧ pending w2 = []
      ∧ isRestoringState (ui (sys w2)) = false
      ∧ entries (browser (sys w2)) !! cursor (browser (sys w2))
        = Some (Some Overlap.stateRoot)
      ∧ currentNote (ui (sys w2)) = Some Example.root
      ∧ noteHistory (ui (sys w2)) = [Example.root] in
  overlap true ∧ overlap false.
Proof.
  cbv zeta.
  assert (H : ∀ b, b = true ∨ b = false →
    let w0 := default (mount Example.session)
                (run (mount Example.session) Overlap.toC1) in
    let w1 := default w0 (run w0 (Overlap.backForwardBack b)) in
    let w2 := default w1 (run w1 (Overlap.lateAnswers b)) in
    run (mount Example.session) Overlap.toC1 = Some w0
    ∧ currentNote (ui (sys w0)) = Some Example.c1
    ∧ noteHistory (ui (sys w0)) = [Example.root]
    ∧ pending w0 = []
    ∧ entries (browser (sys w0))
      = [ Some initialState;
          Some (NavigationState.mk VBooks (Some (js "Science")) None None []);
          Some Overlap.stateRoot; Some Example.stateC1 ]
    ∧ cursor (browser (sys w0)) = 3
    ∧ run w0 (Overlap.backForwardBack b) = Some w1
    ∧ isRestoringState (ui (sys w1)) = false
    ∧ map requestsOf (pending w1)
      = [[ReqNote (js "root")]; [ReqNote (js "root")]]
    ∧ run w1 (Overlap.lateAnswers b) = Some w2
    ∧ pending w2 = []
    ∧ isRestoringState (ui (sys w2)) = false
    ∧ entries (browser (sys w2)) !! cursor (browser (sys w2))
      = Some (Some Overlap.stateRoot)
    ∧ currentNote (ui (sys w2)) = Some Example.root
    ∧ noteHistory (ui (sys w2)) = [Example.root]).
  { intros b [-> | ->]; cbv zeta;
      (do 14 (split; [vm_compute; reflexivity|])); vm_compute; reflexivity. }
  split; eexists _, _, _; apply H; auto.
Qed.

(** ** C3: resolving a wiki-link *)

Lemma find_FirstWith {A} (P : A → bool) (l : list A) r :
  find P l = Some r → FirstWith P l r.
Proof.
  induction l as [|x l IH]; [done|]. cbn [find].
  destruct (P x) eqn:Hx.
  - intros [= <-]. by exists [], l.
  - intros H. destruct (IH H) as (pre & post & -> & Hr & Hpre).
    exists (x :: pre), post. repeat split; [done|by constructor].
Qed.

Lemma find_none_Forall {A} (P : A → bool) (l : list A) :
  find P l = None → Forall (fun x => P x = false) l.
Proof.
  induction l as [|x l IH]; [constructor|]. cbn [find].
  destruct (P x) eqn:Hx; [done|]. intros H. constructor; auto.
Qed.

(** [toLowerCase] moves exactly the capital letters, by 32. *)
Lemma isCapital_test n :
  ((65 <=? n) && (n <=? 90)
   || (192 <=? n) && (n <=? 222) && negb (n =? 215))%nat = true
  ↔ isCapital n.
Proof.
  unfold isCapital.
  rewrite orb_true_iff, !andb_true_iff, negb_true_iff, !Nat.leb_le, Nat.eqb_neq.
  lia.
Qed.

Lemma lowerChar_nat c :
  (isCapital (nat_of_ascii c)
   ∧ nat_of_ascii (lowerChar c) = nat_of_ascii c + 32)
  ∨ (¬ isCapital (nat_of_ascii c) ∧ lowerChar c = c).
Proof.
  unfold lowerChar. cbv zeta.
  destruct ((65 <=? nat_of_ascii c) && (nat_of_ascii c <=? 90)
            || (192 <=? nat_of_ascii c) && (nat_of_ascii c <=? 222)
               && negb (nat_of_ascii c =? 215))%nat eqn:E.
  - apply isCapital_test in E. left. split; [done|].
    apply nat_ascii_embedding. unfold isCapital in E. lia.
  - right. split; [|done]. rewrite <- isCapital_test. by rewrite E.
Qed.

Lemma nat_of_ascii_inj c d : nat_of_ascii c = nat_of_ascii d → c = d.
Proof.
  intros H. rewrite <- (ascii_nat_embedding c), <- (ascii_nat_embedding d).
  by rewrite H.
Qed.

(** Two code units have the same [toLowerCase] exactly when they are the
    same letter. *)
Lemma lowerChar_sameLetter c d : lowerChar c = lowerChar d ↔ sameLetter c d.
Proof.
  unfold sameLetter.
  destruct (lowerChar_nat c) as [[Hc Ec]|[Hc Ec]],
           (lowerChar_nat d) as [[Hd Ed]|[Hd Ed]].
  - split.
    + intros H. left. apply nat_of_ascii_inj.
      apply (f_equal nat_of_ascii) in H. lia.
    + intros [->|[[_ H]|[_ H]]]; [done| |];
        unfold isCapital in *; lia.
  - rewrite Ed. split.
    + intros H. right. left. split; [done|]. by rewrite <- H.
    + intros [->|[[_ H]|[H _]]]; [done| |done].
      apply nat_of_ascii_inj. by rewrite Ec.
  - rewrite Ec. split.
    + intros H. right. right. split; [done|]. by rewrite H.
    + intros [->|[[H _]|[_ H]]]; [done|done|].
      apply nat_of_ascii_inj. by rewrite Ed.
  - rewrite Ec, Ed. split; [by left|]. by intros [?|[[? _]|[? _]]].
Qed.

Lemma toLowerCase_equal a b :
  toLowerCase a = toLowerCase b ↔ equalIgnoringCase a b.
Proof.
  unfold toLowerCase, equalIgnoringCase. revert b.
  induction a as [|c a IH]; intros [|d b]; cbn [map].
  - split; [constructor|done].
  - split; [done|]. intros H. inversion H.
  - split; [done|]. intros H. inversion H.
  - split.
    + intros [= Hc Ha]. constructor; [by apply lowerChar_sameLetter|by apply IH].
    + intros H. inversion H as [|? ? ? ? Hc Ha]; subst.
      f_equal; [by apply lowerChar_sameLetter|by apply IH].
Qed.

(** The two tests of [handleWikiLinkClick] decide the two conditions of the
    tie-break. *)
Lemma sameTitle_titleEquals linkText r :
  sameTitle linkText r = true ↔ titleEquals linkText r.
Proof.
  unfold sameTitle, titleEquals, str_eqb. rewrite bool_decide_eq_true.
  apply toLowerCase_equal.
Qed.

Lemma sameBook_inBookOf snap cur r :
  currentNote snap = Some cur → sameBook snap r = true ↔ inBookOf cur r.
Proof.
  intros H. unfold sameBook, inBookOf, currentBook. rewrite H.
  apply bool_decide_eq_true.
Qed.

Lemma find_FirstSuch {A} (P : A → bool) (Q : A → Prop) (l : list A) r :
  (∀ x, P x = true ↔ Q x) → find P l = Some r → FirstSuch Q l r.
Proof.
  intros HPQ H. destruct (find_FirstWith P l r H) as (pre & post & -> & Hr & Hpre).
  exists pre, post. split; [done|]. split; [by apply HPQ|].
  eapply Forall_impl; [exact Hpre|]. intros x Hx HQ. apply HPQ in HQ. congruence.
Qed.

Lemma find_none_such {A} (P : A → bool) (Q : A → Prop) (l : list A) :
  (∀ x, P x = true ↔ Q x) → find P l = None → Forall (fun x => ¬ Q x) l.
Proof.
  intros HPQ H. eapply Forall_impl; [exact (find_none_Forall P l H)|].
  intros x Hx HQ. apply HPQ in HQ. congruence.
Qed.

(** The choice the code makes follows the tie-break. *)
Lemma exactMatch_tieBreakRule snap cur linkText results r :
  currentNote snap = Some cur →
  exactMatch snap linkText results = Some r →
  tieBreakRule cur linkText results r.
Proof.
  intros Hcur. unfold exactMatch, tieBreakRule.
  assert (H12 : ∀ x, sameTitle linkText x && sameBook snap x = true
                     ↔ titleEquals linkText x ∧ inBookOf cur x).
  { intros x. rewrite andb_true_iff, sameTitle_titleEquals.
    by rewrite (sameBook_inBookOf snap cur). }
  destruct (find (λ x, sameTitle linkText x && sameBook snap x) results)
    as [r1|] eqn:H1.
  - intros [= <-]. left. by apply (find_FirstSuch _ _ _ _ H12).
  - apply (find_none_such _ _ _ H12) in H1.
    destruct (find (λ x, sameTitle linkText x) results) as [r2|] eqn:H2.
    + intros [= <-]. right. left. split; [done|].
      apply (find_FirstSuch _ _ _ _ (sameTitle_titleEquals linkText)). done.
    + apply (find_none_such _ _ _ (sameTitle_titleEquals linkText)) in H2.
      intros H. right. right. done.
Qed.

Lemma exactMatch_nonempty snap linkText results :
  results ≠ [] → is_Some (exactMatch snap linkText results).
Proof.
  intros H. unfold exactMatch.
  destruct (find _ results); [by eexists|].
  destruct (find _ results); [by eexists|].
  destruct results; [done|by eexists].
Qed.

(** Whatever the tie-break selects is one of the results. *)
Lemma tieBreakRule_elem cur linkText results r :
  tieBreakRule cur linkText results r → r ∈ results.
Proof.
  intros [(pre & post & -> & _)|[[_ (pre & post & -> & _)]|[_ H]]].
  - apply elem_of_app. right. left.
  - apply elem_of_app. right. left.
  - destruct results; [done|]. injection H as ->. left.
Qed.

(** A result that is the only one with the title of the target in the book
    of the current note is the one the tie-break selects. *)
Lemma tieBreakRule_unique cur linkText results r r0 :
  tieBreakRule cur linkText results r →
  r0 ∈ results →
  titleEquals linkText r0 → inBookOf cur r0 →
  (∀ y, y ∈ results → titleEquals linkText y → inBookOf cur y → y = r0) →
  r = r0.
Proof.
  intros [(pre & post & -> & [Ht' Hb'] & _)|[[H1 _]|[H1 _]]] Hin Ht Hb Huniq.
  - apply Huniq; [|done|done]. apply elem_of_app. right. left.
  - rewrite Forall_forall in H1. by destruct (H1 r0 Hin).
  - rewrite Forall_forall in H1. by destruct (H1 r0 Hin).
Qed.

(** C3, amended. A click on a wiki-link with target [linkText] in the note
    shown, [cur], issues one search for [linkText].  With no result nothing
    happens: no navigation, the page state (its error included) and the
    browser history are unchanged; a failed search is only written to the
    console.  With results, the note navigated to is one of the results,
    chosen by the tie-break: the first result whose title equals the target
    ignoring case and whose book is the book of [cur]; else the first whose
    title equals the target ignoring case; else the first result.  In
    particular, when exactly one of the results has the title of the target
    within the book of [cur], that result is the one navigated to.  The
    choice is the same whenever the answer of the search arrives: what the
    handler continues with is [navigateToNote] of the chosen id. *)
Theorem handleWikiLinkClick_tie_break (api : Api) (s : Sys) (linkText : str)
    (cur : Note.t) :
  currentNote (ui s) = Some cur →
  let snap := ui s in
  let task := handleWikiLinkClick snap linkText in
  let s' := runTask api task s in
  requestsOf task = [ReqSearch FromWikiLink linkText]
  ∧ match searchNotes api linkText with
    | Some (x :: l) =>
        ∃ r, tieBreakRule cur linkText (x :: l) r
             ∧ r ∈ x :: l
             ∧ (∀ r0, r0 ∈ x :: l →
                      titleEquals linkText r0 → inBookOf cur r0 →
                      (∀ y, y ∈ x :: l → titleEquals linkText y →
                            inBookOf cur y → y = r0) →
                      r = r0)
             ∧ respond api task
               = Some (navigateToNote snap (NoteMetadata.id r))
             ∧ s' = runTask api (navigateToNote snap (NoteMetadata.id r))
                      (logRequests [ReqSearch FromWikiLink linkText] s)
             ∧ requestsIn (log s')
               = requestsIn (log s)
                 ++ [ReqSearch FromWikiLink linkText;
                     ReqNote (NoteMetadata.id r)]
    | Some [] =>
        respond api task = Some Ret
        ∧ s' = logRequests [ReqSearch FromWikiLink linkText] s
        ∧ ui s' = ui s ∧ browser s' = browser s
    | None =>
        respond api task
        = Some (ConsoleError (js "Failed to navigate:") ;> Ret)
        ∧ s' = execStmt (ConsoleError (js "Failed to navigate:"))
                 (logRequests [ReqSearch FromWikiLink linkText] s)
        ∧ ui s' = ui s ∧ browser s' = browser s
    end.
Proof.
  intros Hcur. cbv zeta. split; [reflexivity|].
  unfold runTask, handleWikiLinkClick. cbn [respond].
  rewrite runIso_AwaitSearch.
  rewrite (searchEffect_same (searchQuery (ui s))) by (by rewrite ui_logRequests).
  destruct (searchNotes api linkText) as [[|x l]|] eqn:Hs.
  - cbn [length]. rewrite bool_decide_false by lia. rewrite runIso_Ret.
    rewrite searchEffect_same by (by rewrite ui_logRequests).
    split; [done|]. split; [done|]. split; sys_simpl; done.
  - cbn [length]. rewrite bool_decide_true by lia.
    destruct (exactMatch_nonempty (ui s) linkText (x :: l)) as [r Hr]; [done|].
    rewrite Hr. exists r.
    pose proof (exactMatch_tieBreakRule _ _ _ _ _ Hcur Hr) as Htb.
    split; [done|].
    split; [by apply (tieBreakRule_elem cur linkText)|].
    split; [intros r0 Hin Ht Hb Hu;
            exact (tieBreakRule_unique _ _ _ _ _ Htb Hin Ht Hb Hu)|].
    split; [done|].
    split; [by rewrite ui_logRequests|].
    unfold navigateToNote.
    destruct (fetchNote api (NoteMetadata.id r)) as [n|] eqn:Hf;
      destruct (bool_decide (is_Some (currentNote (ui s))));
      unfold pushNavigationState; destruct (isRestoringState (ui s));
      sys_simpl; rewrite Hf; sys_simpl; by rewrite <- app_assoc.
  - rewrite runIso_Do, runIso_Ret.
    rewrite searchEffect_same
      by (by rewrite searchQuery_execStmt, ui_logRequests).
    split; [done|]. split; [done|]. split; sys_simpl; done.
Qed.

Lemma handleWikiLinkClick_tie_break_witness :
  currentNote (ui Example.shown) = Some Example.root
  ∧ searchNotes Example.api (js "chapter 1")
    = Some [Example.meta Example.other; Example.meta Example.c1]
  ∧ requestsIn
      (log (runTask Example.api
              (handleWikiLinkClick (ui Example.shown) (js "chapter 1"))
              Example.shown))
    = [ReqSearch FromWikiLink (js "chapter 1"); ReqNote (js "c1")].
Proof.
  assert (Hs : searchNotes Example.api (js "chapter 1")
               = Some [Example.meta Example.other; Example.meta Example.c1])
    by (vm_compute; reflexivity).
  split; [reflexivity|]. split; [exact Hs|].
  pose proof (handleWikiLinkClick_tie_break Example.api Example.shown
                (js "chapter 1") Example.root eq_refl) as [_ H].
  cbv zeta in H. rewrite Hs in H.
  destruct H as (r & _ & _ & Hu & _ & _ & Hreq).
  rewrite Hreq.
  rewrite (Hu (Example.meta Example.c1)).
  - reflexivity.
  - apply elem_of_cons. right. apply elem_of_cons. by left.
  - apply sameTitle_titleEquals. vm_compute. reflexivity.
  - reflexivity.
  - intros y Hy _ Hb.
    apply elem_of_cons in Hy as [->|Hy]; [discriminate Hb|].
    by apply list_elem_of_singleton in Hy.
Defined.

(** C3 as stated fails when the search does not return the note.  The
    vault holds twenty-one notes titled "Chapter 1": [c1], the only one in
    the book Sapiens, and twenty in other books.  The search, asked for 20
    results, returns the twenty others.  With the root note of Sapiens
    shown, a click on its link to "chapter 1" navigates to the first of
    them, a note with that title in another book, although exactly one note
    of the current book has that title. *)
Lemma wiki_link_leaves_current_book :
  ∃ w n,
    seqRun (settle Crowded.api 2 (mount Example.session))
      [ (ClickCategory (js "Science"), Crowded.api);
        (ClickBook (js "Sapiens"), Crowded.api);
        (ClickWikiLink (js "chapter 1"), Crowded.api) ] = Some w
    ∧ map (fun n => (Note.id n, Note.title n))
        (filter (fun n => Note.book n = Some (js "Sapiens")) Crowded.notes)
      = [ (js "root", js "Sapiens"); (js "c1", js "Chapter 1");
          (js "c2", js "Chapter 2") ]
    ∧ fetchNote Crowded.api (js "c1") = Some Example.c1
    ∧ searchNotes Crowded.api (js "chapter 1")
      = Some (map Example.meta Crowded.crowd)
    ∧ length Crowded.crowd = 20
    ∧ currentNote (ui (sys w)) = Some n
    ∧ Note.id n = js "oa"
    ∧ Note.title n = js "Chapter 1"
    ∧ Note.book n = Some (js "Book a")
    ∧ noteHistory (ui (sys w)) = [Example.root].
Proof.
  exists (default (mount Example.session)
            (seqRun (settle Crowded.api 2 (mount Example.session))
               [ (ClickCategory (js "Science"), Crowded.api);
                 (ClickBook (js "Sapiens"), Crowded.api);
                 (ClickWikiLink (js "chapter 1"), Crowded.api) ])),
         (default Example.root (fetchNote Crowded.api (js "oa"))).
  do 9 (split; [vm_compute; reflexivity|]). vm_compute; reflexivity.
Qed.

(** Two notes titled "Chapter 1" in different books: the link resolves to
    the one in the book of the note shown, although the other comes first. *)
Example wiki_link_prefers_current_book :
  searchNotes Example.api (js "chapter 1")
  = Some [Example.meta Example.other; Example.meta Example.c1]
  ∧ exactMatch (ui Example.shown) (js "chapter 1")
      [Example.meta Example.other; Example.meta Example.c1]
    = Some (Example.meta Example.c1).
Proof. split; vm_compute; reflexivity. Qed.

(** ** C4: a note-to-note navigation that fails *)

(** What [navigateToNote] leaves behind when the fetch fails: the current
    note and the browser history are untouched, but the current note stays
    appended to the history stack. *)
Lemma navigateToNote_failure_run (api : Api) (s : Sys) (noteId : str) :
  fetchNote api noteId = None →
  let s' := runTask api (navigateToNote (ui s) noteId) s in
  noteHistory (ui s') = newHistory (ui s)
  ∧ currentNote (ui s') = currentNote (ui s)
  ∧ browser s' = browser s
  ∧ noteLoading (ui s') = false.
Proof.
  intros Hf. cbv zeta. unfold runTask, navigateToNote, newHistory.
  destruct (currentNote (ui s)) as [cur|] eqn:Hcur.
  - rewrite bool_decide_true by done.
    sys_simpl. rewrite Hf. sys_simpl. by rewrite Hcur.
  - rewrite bool_decide_false by (by intros [? ?]).
    sys_simpl. rewrite Hf. sys_simpl. by rewrite Hcur.
Qed.

(** C4. The claim fails on the code: with the root note shown and an empty
    history stack, a click on the first child whose fetch fails leaves the
    current note and the browser history as they were, but the history stack
    now holds the root note. *)
Theorem failed_navigation_keeps_appended_note :
  ∃ w w',
    Example.atRoot = Some w
    ∧ seqStep w (ClickChild 0, Example.apiNoNotes) = Some w'
    ∧ fetchNote Example.apiNoNotes (js "c1") = None
    ∧ noteHistory (ui (sys w)) = []
    ∧ currentNote (ui (sys w)) = Some Example.root
    ∧ noteHistory (ui (sys w')) = [Example.root]
    ∧ currentNote (ui (sys w')) = Some Example.root
    ∧ browser (sys w') = browser (sys w)
    ∧ requestsIn (log (sys w')) = requestsIn (log (sys w)) ++ [ReqNote (js "c1")].
Proof.
  eexists _, _. split; [vm_compute; reflexivity|].
  split; [vm_compute; reflexivity|].
  vm_compute. repeat split; reflexivity.
Qed.

Lemma pushState_last st b : last (entries (pushState st b)) = Some (Some st).
Proof. unfold pushState. cbn [entries]. apply last_snoc. Qed.

(** In a session whose cursor is on an entry, the pushed state becomes the
    current entry and the entries before it are kept. *)
Lemma pushState_current st b :
  cursor b < length (entries b) →
  entries (pushState st b) !! cursor (pushState st b) = Some (Some st)
  ∧ cursor (pushState st b) = S (cursor b)
  ∧ take (S (cursor b)) (entries (pushState st b)) = take (S (cursor b)) (entries b).
Proof.
  intros H. unfold pushState. cbn [entries cursor].
  assert (Hl : length (take (S (cursor b)) (entries b)) = S (cursor b))
    by (rewrite length_take; lia).
  repeat split.
  - rewrite lookup_app_r by lia. rewrite Hl, Nat.sub_diag. done.
  - rewrite take_app_le by lia. by rewrite take_take, Nat.min_id.
Qed.

(** ** C6: selecting a book *)

(** [firstTreeId] is the id of the first tree of the book, when the book is
    known, has a tree, and that id is not empty. *)
Lemma firstTreeId_Some bookData rootId :
  firstTreeId bookData = Some rootId ↔
  ∃ bd tree rest,
    bookData = Some bd ∧ BookData.trees bd = tree :: rest
    ∧ NoteTree.id tree = rootId ∧ rootId ≠ [].
Proof.
  unfold firstTreeId. split.
  - destruct bookData as [bd|]; [|done].
    destruct (BookData.trees bd) as [|tree rest] eqn:Ht; [done|].
    cbn [truthy]. destruct (NoteTree.id tree) as [|c i] eqn:Hi; [done|].
    intros [= <-]. exists bd, tree, rest. by rewrite Hi.
  - intros (bd & tree & rest & -> & -> & <- & Hne).
    cbn [truthy]. by destruct (NoteTree.id tree).
Qed.



(** ** Runs without overlap are runs of one task at a time *)

Lemma logRequests_nil s : logRequests [] s = s.
Proof. reflexivity. Qed.

Lemma advance_stops t s :
  isRet (advance t s).2 = true ∨ ∀ api, is_Some (respond api (advance t s).2).
Proof.
  revert s. induction t as [|st k IH|id k _|ids k _|o q k _|k _]; intros s;
    cbn [advance snd]; first [by left | by right; intros api; eexists | apply IH].
Qed.

Lemma runIso_advance api t q s :
  runIso api t q s
  = match respond api (advance t s).2 with
    | Some t2 =>
        runIso api t2 (searchQuery (ui (advance t s).1))
          (searchEffect q (advance t s).1)
    | None => searchEffect q (advance t s).1
    end.
Proof.
  revert s. induction t as [|st k IH|id k _|ids k _|o qq k _|k _]; intros s.
  - reflexivity.
  - cbn [advance]. rewrite runIso_Do. apply IH.
  - cbn [advance fst snd respond]. rewrite runIso_AwaitNote. unfold issue.
    cbn [requestsOf]. by rewrite ui_logRequests.
  - cbn [advance fst snd respond]. rewrite runIso_AwaitAll. unfold issue.
    cbn [requestsOf]. by rewrite ui_logRequests.
  - cbn [advance fst snd respond]. rewrite runIso_AwaitSearch. unfold issue.
    cbn [requestsOf]. by rewrite ui_logRequests.
  - cbn [advance fst snd respond]. rewrite runIso_AwaitStructure. unfold issue.
    cbn [requestsOf]. by rewrite ui_logRequests.
Qed.

Lemma segment_eq t s :
  segment t s = (searchEffect (searchQuery (ui s)) (advance t s).1, (advance t s).2).
Proof. unfold segment. by destruct (advance t s). Qed.

Lemma runTask_segment api t s :
  runTask api t s
  = match respond api (segment t s).2 with
    | Some t2 => runIso api t2 (searchQuery (ui (segment t s).1)) (segment t s).1
    | None => (segment t s).1
    end.
Proof.
  unfold runTask. rewrite runIso_advance, segment_eq. cbn [fst snd].
  by rewrite searchQuery_searchEffect.
Qed.

Lemma settle_quiet_world api n w : pending w = [] → settle api n w = w.
Proof. intros H. destruct n; cbn [settle]; [done|]. by rewrite H. Qed.

(** A single suspended task, resumed until nothing is suspended, ends in the
    state of its run on its own. *)
Lemma settle_single api n :
  ∀ s t, is_Some (respond api t) →
         quiet (settle api n (mkWorld s [t])) = true →
         settle api n (mkWorld s [t]) = mkWorld (resumeIso api t s) [].
Proof.
  induction n as [|n IH]; intros s t [t2 Ht2] Hq; [done|].
  cbn [settle pending] in *. unfold resume in *. cbn [pending sys] in *.
  cbn [lookup list_lookup] in *. rewrite Ht2 in *.
  unfold resumeIso. rewrite Ht2.
  fold (runTask api t2 s). rewrite runTask_segment.
  rewrite segment_eq in *. cbn [fst snd] in *.
  destruct (advance_stops t2 s) as [Hr|Hr].
  - destruct ((advance t2 s).2); try done.
    cbn [respond]. apply settle_quiet_world. done.
  - destruct (Hr api) as [t3 Ht3].
    assert (E : match (advance t2 s).2 with
                | Ret => delete 0 [t]
                | _ => <[0:=(advance t2 s).2]> [t]
                end = [(advance t2 s).2]).
    { destruct ((advance t2 s).2); try done. }
    rewrite E in *. rewrite IH; [|by eexists|done].
    unfold resumeIso. by rewrite Ht3.
Qed.

Lemma settle_spawn api n t w :
  pending w = [] →
  quiet (settle api n (spawn t w)) = true →
  settle api n (spawn t w) = mkWorld (runTask api t (sys w)) [].
Proof.
  intros Hp. unfold spawn. rewrite runTask_segment, segment_eq, Hp.
  cbn [fst snd app].
  destruct (advance_stops t (sys w)) as [Hr|Hr].
  - destruct ((advance t (sys w)).2); try done.
    intros _. cbn [respond]. by apply settle_quiet_world.
  - destruct (Hr api) as [t3 Ht3].
    assert (E : match (advance t (sys w)).2 with
                | Ret => []
                | _ => [(advance t (sys w)).2]
                end = [(advance t (sys w)).2]).
    { destruct ((advance t (sys w)).2); try done. }
    rewrite E. intros Hq. rewrite settle_single; [|by eexists|done].
    unfold resumeIso. by rewrite Ht3.
Qed.

(** ** Tasks of the click handlers *)

Ltac task_pred :=
  repeat first
    [ done
    | split
    | intros [?|]
    | progress cbn [boxFree resultsFree]
    | progress unfold pushNavigationState
    | case_match
    | case_bool_decide ].

Lemma navigateToNote_plain p id :
  boxFree (navigateToNote p id) ∧ resultsFree (navigateToNote p id).
Proof. unfold navigateToNote, pushNavigationState. task_pred. Qed.

Lemma handlePopState_plain e :
  boxFree (handlePopState e) ∧ resultsFree (handlePopState e).
Proof. unfold handlePopState. task_pred. Qed.

Lemma urlEffect_plain b p :
  boxFree (urlEffect b p) ∧ resultsFree (urlEffect b p).
Proof. unfold urlEffect, resetToCategories. task_pred. Qed.

Lemma handlerOf_plain p e t :
  handlerOf p e = Some t → boxFree t ∧ resultsFree t.
Proof.
  destruct e; cbn [handlerOf]; intros H; repeat case_match; try done;
    injection H as <-;
    unfold resetToCategories, handleCrumbCategoryClick, handleBookClick,
      handleSearchResultClick, handleCategoryClick,
      handleBackToCategoriesClick, handleWikiLinkClick;
    repeat first
      [ apply (proj1 (navigateToNote_plain _ _))
      | apply (proj2 (navigateToNote_plain _ _))
      | done
      | split
      | intros [?|]
      | progress cbn [boxFree resultsFree]
      | progress unfold pushNavigationState
      | case_match
      | case_bool_decide ].
Qed.

(** ** The history stack in runs without overlap *)

Lemma ownEntry_pushState st b :
  ownEntry (Some st) → Forall ownEntry (entries b) →
  Forall ownEntry (entries (pushState st b)).
Proof.
  intros Hst Hb. unfold pushState. cbn [entries].
  apply Forall_app. split; [by apply Forall_take|]. by apply Forall_singleton.
Qed.

Lemma ownEntry_replaceState st b :
  ownEntry (Some st) → Forall ownEntry (entries b) →
  Forall ownEntry (entries (replaceState st b)).
Proof.
  intros Hst Hb. unfold replaceState. cbn [entries]. by apply Forall_insert.
Qed.

Lemma isView_true v p : isView v p = true → viewLevel p = v.
Proof. unfold isView. by destruct v, (viewLevel p). Qed.

Lemma noteShown_view p : noteShown p = true → viewLevel p = VNote.
Proof.
  unfold noteShown. intros H.
  apply andb_true_iff in H as [H _]. apply andb_true_iff in H as [H _].
  apply andb_true_iff in H as [_ H]. by apply isView_true.
Qed.

Ltac history_goal :=
  split;
  [ sys_simpl; try done; try (intros _; done)
  | sys_simpl;
    repeat first [ done | apply ownEntry_pushState | by left | by right ] ].

Lemma navigateToNote_historyOk api p id q s :
  viewLevel (ui s) = VNote → historyOk s →
  historyOk (runIso api (navigateToNote p id) q s).
Proof.
  intros Hv [Hh He]. unfold navigateToNote, pushNavigationState.
  destruct (fetchNote api id) as [n|] eqn:Hf;
    destruct (bool_decide (is_Some (currentNote p)));
    destruct (isRestoringState p);
    sys_simpl; rewrite Hf; history_goal.
Qed.

Lemma handlePopState_historyOk api e q s :
  ownEntry e → historyOk s →
  historyOk (runIso api (handlePopState e) q s).
Proof.
  intros Hown [Hh He]. unfold handlePopState.
  destruct e as [st|]; [|by history_goal].
  destruct (truthy (NavigationState.noteId st)) eqn:Ht.
  - assert (Hv : NavigationState.viewLevel st = VNote).
    { destruct Hown as [?|Hn]; [done|]. by rewrite Hn in Ht. }
    destruct (fetchNote api (default [] (NavigationState.noteId st))) eqn:Hf;
      [case_bool_decide;
       [destruct (fetchAll api (NavigationState.noteHistoryIds st)) eqn:Ha|]|];
      sys_simpl; rewrite Hf; sys_simpl; rewrite ?Ha; history_goal.
  - history_goal.
Qed.

Lemma handlerOf_historyOk api e t s :
  handlerOf (ui s) e = Some t → historyOk s →
  historyOk (runTask api t s).
Proof.
  intros H [Hh He]. unfold runTask.
  destruct e; cbn [handlerOf] in H; repeat case_match; try done;
    injection H as <-.
  all: repeat match goal with
       | H : _ && _ = true |- _ => apply andb_true_iff in H as [? ?]
       | H : isView _ _ = true |- _ => apply isView_true in H
       | H : noteShown _ = true |- _ => apply noteShown_view in H
       end.
  all: unfold resetToCategories, handleCrumbCategoryClick, handleBookClick,
      handleSearchResultClick, handleCategoryClick,
      handleBackToCategoriesClick, handleWikiLinkClick, pushNavigationState.
  all: try (apply navigateToNote_historyOk; done).
  all: repeat first [ progress sys_simpl | case_match ].
  all: try (apply navigateToNote_historyOk;
            [sys_simpl; done | split; sys_simpl; done]).
  all: try history_goal.
  all: intros Hne; specialize (Hh Hne); congruence.
Qed.

Lemma urlEffect_historyOk api b p q s :
  historyOk s → historyOk (runIso api (urlEffect b p) q s).
Proof.
  intros [Hh He]. unfold urlEffect, resetToCategories.
  repeat case_match; history_goal.
Qed.

Lemma searchCallback_historyOk api query q s :
  historyOk s → historyOk (runIso api (searchCallback query) q s).
Proof.
  intros [Hh He]. unfold searchCallback.
  destruct (searchNotes api query) eqn:Hs; sys_simpl; rewrite Hs; history_goal.
Qed.

(** ** The debounce timer and the results list *)

Lemma timerOk_execStmt q0 st s : timerOk q0 s → timerOk q0 (execStmt st s).
Proof. unfold timerOk. by rewrite timer_execStmt. Qed.

Lemma timerOk_logRequests q0 rs s :
  timerOk q0 s → timerOk q0 (logRequests rs s).
Proof. unfold timerOk. by rewrite timer_logRequests. Qed.

Lemma timerOk_searchEffect q0 s :
  timerOk q0 s → timerOk (searchQuery (ui s)) (searchEffect q0 s).
Proof.
  unfold timerOk, searchEffect. intros H q.
  case_bool_decide as Hq; [subst q0; apply H|].
  cbn [ui setTimer]. case_bool_decide as Hl.
  - by rewrite !timer_execStmt.
  - cbn [timer]. intros [= <-]. split; [done|lia].
Qed.

Lemma resultsOk_execStmt q0 st s :
  match st with SetSearchResults _ => False | _ => True end →
  resultsOk q0 s → resultsOk q0 (execStmt st s).
Proof. unfold resultsOk. rewrite searchResults_execStmt. by destruct st. Qed.

Lemma resultsOk_logRequests q0 rs s :
  resultsOk q0 s → resultsOk q0 (logRequests rs s).
Proof. unfold resultsOk. by rewrite ui_logRequests. Qed.

Lemma resultsOk_searchEffect q0 s :
  resultsOk q0 s → resultsOk (searchQuery (ui s)) (searchEffect q0 s).
Proof.
  unfold resultsOk, searchEffect. intros H Hshort.
  case_bool_decide as Hq; [subst q0; by apply H|].
  cbn [ui setTimer]. rewrite bool_decide_true by done.
  by rewrite searchResults_execStmt, searchResults_execStmt.
Qed.

(** Whatever the task, its run keeps the timer in step with the query. *)
Lemma runIso_timerOk api t :
  ∀ q0 s, timerOk q0 s →
          timerOk (searchQuery (ui (runIso api t q0 s))) (runIso api t q0 s).
Proof.
  induction t as [|st k IH|id k IH|ids k IH|o qq k IH|k IH]; intros q0 s H.
  - rewrite runIso_Ret, searchQuery_searchEffect. by apply timerOk_searchEffect.
  - rewrite runIso_Do. apply IH. by apply timerOk_execStmt.
  - rewrite runIso_AwaitNote. apply IH.
    rewrite <- (ui_logRequests [ReqNote id] s).
    apply timerOk_searchEffect. by apply timerOk_logRequests.
  - rewrite runIso_AwaitAll. apply IH.
    rewrite <- (ui_logRequests (map ReqNote ids) s).
    apply timerOk_searchEffect. by apply timerOk_logRequests.
  - rewrite runIso_AwaitSearch. apply IH.
    rewrite <- (ui_logRequests [ReqSearch o qq] s).
    apply timerOk_searchEffect. by apply timerOk_logRequests.
  - rewrite runIso_AwaitStructure. apply IH.
    rewrite <- (ui_logRequests [ReqStructure] s).
    apply timerOk_searchEffect. by apply timerOk_logRequests.
Qed.

(** A task that never assigns the results keeps them empty while the query
    is short. *)
Lemma runIso_resultsOk api t :
  resultsFree t →
  ∀ q0 s, resultsOk q0 s →
          resultsOk (searchQuery (ui (runIso api t q0 s))) (runIso api t q0 s).
Proof.
  induction t as [|st k IH|id k IH|ids k IH|o qq k IH|k IH];
    cbn [resultsFree]; intros Hfree q0 s H.
  - rewrite runIso_Ret, searchQuery_searchEffect.
    by apply resultsOk_searchEffect.
  - destruct Hfree as [Hst Hk]. rewrite runIso_Do. apply IH; [done|].
    by apply resultsOk_execStmt.
  - rewrite runIso_AwaitNote. apply IH; [done|].
    rewrite <- (ui_logRequests [ReqNote id] s).
    apply resultsOk_searchEffect. by apply resultsOk_logRequests.
  - rewrite runIso_AwaitAll. apply IH; [done|].
    rewrite <- (ui_logRequests (map ReqNote ids) s).
    apply resultsOk_searchEffect. by apply resultsOk_logRequests.
  - rewrite runIso_AwaitSearch. apply IH; [done|].
    rewrite <- (ui_logRequests [ReqSearch o qq] s).
    apply resultsOk_searchEffect. by apply resultsOk_logRequests.
  - rewrite runIso_AwaitStructure. apply IH; [done|].
    rewrite <- (ui_logRequests [ReqStructure] s).
    apply resultsOk_searchEffect. by apply resultsOk_logRequests.
Qed.

(** The callback of the timeout runs while the query is long and does not
    change it. *)
Lemma searchCallback_resultsOk api query s :
  2 ≤ length (searchQuery (ui s)) →
  resultsOk (searchQuery (ui (runTask api (searchCallback query) s)))
    (runTask api (searchCallback query) s).
Proof.
  intros Hlong. unfold resultsOk, runTask, searchCallback.
  destruct (searchNotes api query) eqn:Hs; sys_simpl; rewrite Hs; sys_simpl; lia.
Qed.

(** ** The invariant of runs without overlap *)

Lemma step_starts w e w1 :
  (∀ i api, e ≠ Resolve i api) →
  step w e = Some w1 →
  ∃ t s0, Starts w e t s0 ∧ w1 = spawn t (mkWorld s0 (pending w)).
Proof.
  intros Hne H. unfold step in H.
  assert (Htr : ∀ target, traverse target w = Some w1 →
            (e = PopState target ∨ e = ClickBack) →
            ∃ t s0, Starts w e t s0 ∧ w1 = spawn t (mkWorld s0 (pending w))).
  { intros target Ht He. unfold traverse in Ht.
    case_bool_decide as Hlt; [|done]. injection Ht as <-.
    eexists _, _. split; [|reflexivity]. apply StartsPopState; [done|].
    by destruct Hlt. }
  assert (Hh : match handlerOf (ui (sys w)) e with
               | Some t => Some (spawn t w)
               | None => None
               end = Some w1 →
               ∃ t s0, Starts w e t s0 ∧ w1 = spawn t (mkWorld s0 (pending w))).
  { destruct (handlerOf (ui (sys w)) e) as [t|] eqn:Hho; [|done].
    intros [= <-]. exists t, (sys w). split; [by constructor|by destruct w]. }
  destruct e; try (by apply Hh).
  - clear Hh.
    destruct (mainVisible (ui (sys w)) && isView VNote (ui (sys w))
              && bool_decide (0 < cursor (browser (sys w)))); [|done].
    eapply Htr; [done|by right].
  - eapply Htr; [done|by left].
  - destruct (timer (sys w)) as [q|] eqn:Hq; [|done]. injection H as <-.
    eexists _, _. split; [by apply StartsTimer|done].
  - injection H as <-. eexists _, _. split; [apply StartsUrlEffect|].
    by destruct w.
  - by destruct (Hne i api).
Qed.

Lemma starts_inv api w e t s0 :
  seqInv w → Starts w e t s0 → seqInv (mkWorld (runTask api t s0) []).
Proof.
  intros (Hp & Hh & Ht & Hr) Hst. split; [done|]. cbn [sys].
  destruct Hst as [e t Hho|e target He Hlt|q Hq|b].
  - split; [by apply (handlerOf_historyOk api e)|].
    split; [by apply runIso_timerOk|].
    apply runIso_resultsOk; [|done]. by apply (handlerOf_plain (ui (sys w)) e).
  - split.
    + apply handlePopState_historyOk.
      * destruct Hh as [_ He']. rewrite Forall_forall in He'.
        destruct (entries (browser (sys w)) !! target) as [[st|]|] eqn:El;
          try done.
        apply (He' (Some st)). by eapply list_elem_of_lookup_2.
      * destruct Hh as [Hh1 Hh2]. by split.
    + split; [by apply runIso_timerOk|].
      apply runIso_resultsOk; [|done]. apply handlePopState_plain.
  - split; [apply searchCallback_historyOk; destruct Hh; by split|].
    split.
    + apply runIso_timerOk. intros q'. cbn [timer setTimer]. done.
    + apply searchCallback_resultsOk. cbn [ui setTimer].
      by destruct (Ht q Hq) as [<- ?].
  - split; [by apply urlEffect_historyOk|].
    split; [by apply runIso_timerOk|].
    apply runIso_resultsOk; [|done]. apply urlEffect_plain.
Qed.

(** A step of a run without overlap is the run of one task on its own. *)
Lemma seqStep_starts w ea w' :
  pending w = [] → seqStep w ea = Some w' →
  ∃ t s0, Starts w ea.1 t s0 ∧ w' = mkWorld (runTask ea.2 t s0) [].
Proof.
  intros Hp H. unfold seqStep in H.
  unfold quiet in H at 1. rewrite Hp in H.
  destruct (step w ea.1) as [w1|] eqn:Hs; [|done].
  destruct (quiet (settle ea.2 2 w1)) eqn:Hq; [|done].
  assert (Hw : settle ea.2 2 w1 = w') by congruence. clear H. subst w'.
  destruct (step_starts w ea.1 w1) as (t & s0 & Hst & ->); [|done|].
  { intros i api Heq. rewrite Heq in Hs. cbn [step] in Hs.
    unfold resume in Hs. by rewrite Hp in Hs. }
  rewrite Hp in *. exists t, s0. split; [done|].
  by rewrite settle_spawn.
Qed.

Lemma seqStep_inv w ea w' :
  seqInv w → seqStep w ea = Some w' → seqInv w'.
Proof.
  intros Hinv H.
  destruct (seqStep_starts w ea w') as (t & s0 & Hst & ->);
    [by destruct Hinv|done|].
  by apply (starts_inv _ w ea.1).
Qed.

Lemma mount_settled api b :
  settle api 2 (mount b)
  = mkWorld
      (runTask api (HistoryReplaceState initialState ;> structureEffect)
         (mkSys initialPageState b None []))
      [].
Proof.
  unfold mount. apply settle_spawn; [done|].
  unfold spawn, segment, structureEffect. cbn [advance sys pending app].
  cbn [settle pending]. unfold resume. cbn [pending lookup list_lookup respond].
  unfold segment. destruct (fetchVaultStructure api); reflexivity.
Qed.

Lemma mount_inv api b : sessionOk b → seqInv (settle api 2 (mount b)).
Proof.
  intros [Hc He]. rewrite mount_settled. split; [done|]. cbn [sys].
  split; [|split].
  - unfold runTask, structureEffect.
    destruct (fetchVaultStructure api) eqn:Hs; sys_simpl; rewrite Hs;
      (split; sys_simpl; [done|]); by apply ownEntry_replaceState; [right|].
  - apply runIso_timerOk. by intros q.
  - apply runIso_resultsOk; [|by intros _].
    unfold structureEffect. cbn [resultsFree]. split; [done|].
    intros [?|]; cbn [resultsFree]; done.
Qed.

Lemma seqRun_inv eas : ∀ w w', seqInv w → seqRun w eas = Some w' → seqInv w'.
Proof.
  induction eas as [|ea eas IH]; intros w w' Hinv H; cbn [seqRun] in H.
  - by injection H as <-.
  - destruct (seqStep w ea) as [w1|] eqn:Hs; [|done].
    apply (IH w1); [|done]. by apply (seqStep_inv w ea).
Qed.

Lemma seqReachable_inv w : seqReachable w → seqInv w.
Proof.
  intros (b & api & eas & Hb & Hrun).
  apply (seqRun_inv eas _ _ (mount_inv api b Hb) Hrun).
Qed.

Lemma seqReachable_step w ea w' :
  seqReachable w → seqStep w ea = Some w' → seqReachable w'.
Proof.
  intros (b & api & eas & Hb & Hrun) Hs. exists b, api, (eas ++ [ea]).
  split; [done|]. revert Hrun. generalize (settle api 2 (mount b)).
  induction eas as [|ea0 eas IH]; intros w0; cbn [seqRun app].
  - intros [= ->]. by rewrite Hs.
  - destruct (seqStep w0 ea0); [apply IH|done].
Qed.

(** ** C7: the history stack outside the note view *)

Lemma entersBook_clears api w e t s0 :
  Starts w e t s0 → entersBook e = true →
  noteHistory (ui (runTask api t s0)) = [].
Proof.
  intros Hst He. destruct Hst as [e t Hho|e target [->| ->] _|q _|b]; try done.
  unfold runTask.
  destruct e; try done; cbn [handlerOf] in Hho; repeat case_match; try done;
    injection Hho as <-;
    unfold handleBookClick, handleSearchResultClick, pushNavigationState;
    repeat first [ progress sys_simpl | case_match ]; done.
Qed.

(** C7, amended. In every state reached by a run in which each request is
    answered before the next event is handled, a non-empty history stack
    exists only while the note view is active; and after every event of such
    a run that leaves the page on the categories panel or on the books panel,
    and after every selection of a book or of a search result, the history
    stack is empty. *)
Theorem history_stack_without_overlap (w : World) :
  seqReachable w →
  (noteHistory (ui (sys w)) ≠ [] → viewLevel (ui (sys w)) = VNote)
  ∧ ∀ e api w',
      seqStep w (e, api) = Some w' →
      viewLevel (ui (sys w')) = VCategories
      ∨ viewLevel (ui (sys w')) = VBooks
      ∨ entersBook e = true →
      noteHistory (ui (sys w')) = [].
Proof.
  intros Hr. pose proof (seqReachable_inv w Hr) as (Hp & [Hh _] & _).
  split; [done|]. intros e api w' Hs Hcase.
  pose proof (seqReachable_inv w' (seqReachable_step w _ w' Hr Hs))
    as (_ & [Hh' _] & _).
  destruct (noteHistory (ui (sys w'))) as [|n l] eqn:Hn; [done|].
  destruct Hcase as [Hv|[Hv|He]].
  - rewrite Hh' in Hv; done.
  - rewrite Hh' in Hv; done.
  - destruct (seqStep_starts w (e, api) w') as (t & s0 & Hst & ->);
      [done|done|].
    cbn [sys fst snd] in *. by rewrite (entersBook_clears api w e t s0) in Hn.
Qed.

Lemma sessionOk_example : sessionOk Example.session.
Proof. split; [cbn; lia|]. repeat constructor. Qed.

Lemma seqReachable_atC1 : seqReachable Example.atC1.
Proof.
  exists Example.session, Example.api,
    [ (ClickCategory (js "Science"), Example.api);
      (ClickBook (js "Sapiens"), Example.api);
      (ClickChild 0, Example.api) ].
  split; [apply sessionOk_example|]. vm_compute. reflexivity.
Qed.

Lemma history_stack_without_overlap_witness :
  seqReachable Example.atC1
  ∧ noteHistory (ui (sys Example.atC1)) = [Example.root]
  ∧ viewLevel (ui (sys Example.atC1)) = VNote.
Proof.
  split; [apply seqReachable_atC1|]. split; [vm_compute; reflexivity|].
  apply (proj1 (history_stack_without_overlap Example.atC1 seqReachable_atC1)).
  vm_compute. discriminate.
Defined.

(** C7 as stated fails when handlers overlap: the wiki-link of the root note
    is clicked and, before the search answers, the breadcrumb resets the page
    to the categories; the continuation of the click then appends the root
    note to the history stack while the categories panel is shown. *)
Lemma history_stack_outside_note_view :
  ∃ w, reachable w
       ∧ viewLevel (ui (sys w)) = VCategories
       ∧ noteHistory (ui (sys w)) = [Example.root].
Proof.
  eexists. split.
  - exists Example.session, Example.linkThenReset.
    split; [apply sessionOk_example|]. vm_compute. reflexivity.
  - vm_compute. split; reflexivity.
Qed.

(** ** C8: the search box *)

Lemma boxFree_boxAfter t : boxFree t → boxAfter t.
Proof.
  intros H api t2. destruct t; cbn [respond boxFree] in *; try done;
    intros [= <-]; try done. by destruct H.
Qed.

Lemma advance_boxFree t s : boxFree t → boxFree (advance t s).2.
Proof.
  revert s. induction t as [|st k IH|id k _|ids k _|o q k _|k _]; intros s H;
    cbn [advance snd]; try done. by apply IH.
Qed.

Lemma boxFree_requests t q :
  boxFree t → ReqSearch FromSearchBox q ∉ requestsOf t.
Proof.
  destruct t; cbn [requestsOf boxFree]; intros H Hin.
  - by apply elem_of_nil in Hin.
  - by apply elem_of_nil in Hin.
  - apply list_elem_of_singleton in Hin. done.
  - apply list_elem_of_fmap in Hin as (? & ? & ?). done.
  - destruct H as [-> _]. apply list_elem_of_singleton in Hin. done.
  - apply list_elem_of_singleton in Hin. done.
Qed.

Lemma advance_timerOk q0 t s : timerOk q0 s → timerOk q0 (advance t s).1.
Proof.
  revert s. induction t as [|st k IH|id k _|ids k _|o q k _|k _]; intros s H;
    cbn [advance fst]; try (by apply timerOk_logRequests).
  apply IH. by apply timerOk_execStmt.
Qed.

Lemma advance_requests t s :
  requestsIn (log (advance t s).1)
  = requestsIn (log s) ++ requestsOf (advance t s).2.
Proof.
  revert s. induction t as [|st k IH|id k _|ids k _|o q k _|k _]; intros s;
    cbn [advance fst snd]; unfold issue;
    try (by rewrite requestsIn_logRequests).
  by rewrite IH, requestsIn_execStmt.
Qed.

Lemma segment_sys t s :
  (segment t s).1 = searchEffect (searchQuery (ui s)) (advance t s).1
  ∧ (segment t s).2 = (advance t s).2.
Proof. rewrite segment_eq. split; reflexivity. Qed.

Lemma segment_timerOk t s :
  timerOk (searchQuery (ui s)) s →
  timerOk (searchQuery (ui (segment t s).1)) (segment t s).1.
Proof.
  intros H. rewrite (proj1 (segment_sys t s)), searchQuery_searchEffect.
  apply timerOk_searchEffect. by apply advance_timerOk.
Qed.

Lemma segment_requests t s :
  requestsIn (log (segment t s).1)
  = requestsIn (log s) ++ requestsOf (segment t s).2.
Proof.
  rewrite (proj1 (segment_sys t s)), (proj2 (segment_sys t s)).
  by rewrite requestsIn_searchEffect, advance_requests.
Qed.

Lemma spawn_eq t w :
  spawn t w
  = mkWorld (segment t (sys w)).1
      (pending w ++ match (segment t (sys w)).2 with
                    | Ret => []
                    | t1 => [t1]
                    end).
Proof. unfold spawn. destruct (segment t (sys w)) as [s1 t1]. by destruct t1. Qed.

Lemma resume_eq i api w w' :
  resume i api w = Some w' →
  ∃ t t2, pending w !! i = Some t ∧ respond api t = Some t2
          ∧ w' = mkWorld (segment t2 (sys w)).1
                   match (segment t2 (sys w)).2 with
                   | Ret => delete i (pending w)
                   | t1 => <[i:=t1]> (pending w)
                   end.
Proof.
  unfold resume. destruct (pending w !! i) as [t|]; [|done].
  destruct (respond api t) as [t2|] eqn:Hr; [|done].
  destruct (segment t2 (sys w)) as [s1 t1] eqn:Hseg. intros [= <-].
  exists t, t2. split; [done|]. split; [done|].
  rewrite ?Hseg. destruct t1; reflexivity.
Qed.

(** The tasks the events start never search for the search box, except the
    callback of the timeout in its first statement. *)
Lemma starts_boxAfter w e t s0 s :
  Starts w e t s0 → boxAfter (advance t s).2.
Proof.
  intros [e' t' Hho|e' target _ _|q _|b].
  - apply boxFree_boxAfter, advance_boxFree.
    by apply (handlerOf_plain (ui (sys w)) e').
  - apply boxFree_boxAfter, advance_boxFree, handlePopState_plain.
  - intros api t2. cbn [searchCallback advance snd respond].
    intros [= <-]. by destruct (searchNotes api q).
  - apply boxFree_boxAfter, advance_boxFree, urlEffect_plain.
Qed.

Lemma starts_state w e t s0 :
  Starts w e t s0 →
  ui s0 = ui (sys w) ∧ log s0 = log (sys w)
  ∧ (∀ q, timer s0 = Some q → timer (sys w) = Some q).
Proof. intros [e' t' Hho|e' target _ _|q _|b]; done. Qed.

Lemma step_boxInv w e w' : boxInv w → step w e = Some w' → boxInv w'.
Proof.
  intros [Ht Hp] Hs.
  assert (Hcase : (∃ i api, e = Resolve i api) ∨ (∀ i api, e ≠ Resolve i api))
    by (destruct e; try (by right); left; eauto).
  destruct Hcase as [(i & api & ->)|Hne].
  - cbn [step] in Hs. apply resume_eq in Hs as (t & t2 & Hl & Hr & ->).
    split; cbn [sys pending].
    + by apply segment_timerOk.
    + assert (Hb : boxAfter (segment t2 (sys w)).2).
      { rewrite (proj2 (segment_sys _ _)). apply boxFree_boxAfter, advance_boxFree.
        rewrite Forall_forall in Hp. apply (Hp t) with api; [|done].
        by eapply list_elem_of_lookup_2. }
      destruct ((segment t2 (sys w)).2);
        first [by apply Forall_delete | by apply Forall_insert].
  - destruct (step_starts w e w') as (t & s0 & Hst & ->); [|done|].
    { done. }
    destruct (starts_state _ _ _ _ Hst) as (Hui & _ & Htm).
    rewrite spawn_eq. split; cbn [sys pending].
    + apply segment_timerOk. rewrite Hui. intros q Hq. apply Ht. by apply Htm.
    + apply Forall_app. split; [done|].
      pose proof (starts_boxAfter w e t s0 s0 Hst) as Hb.
      rewrite <- (proj2 (segment_sys t s0)) in Hb.
      destruct ((segment t s0).2); by repeat constructor.
Qed.

Lemma mount_boxInv b : boxInv (mount b).
Proof.
  unfold mount. rewrite spawn_eq. split; cbn [sys pending].
  - apply segment_timerOk. by intros q.
  - rewrite (proj2 (segment_sys _ _)). cbn [advance snd app structureEffect].
    repeat constructor. intros api t2 [= <-].
    by destruct (fetchVaultStructure api).
Qed.

Lemma reachable_boxInv w : reachable w → boxInv w.
Proof.
  intros (b & es & _ & Hrun). revert Hrun. generalize (mount_boxInv b).
  generalize (mount b). induction es as [|e es IH]; intros w0 Hinv;
    cbn [run].
  - by intros [= <-].
  - destruct (step w0 e) as [w1|] eqn:Hs; [|done].
    apply IH. by apply (step_boxInv w0 e).
Qed.

Lemma searchEffect_clears q0 s :
  searchQuery (ui s) ≠ q0 → length (searchQuery (ui s)) < 2 →
  searchResults (ui (searchEffect q0 s)) = [].
Proof.
  intros Hne Hshort. unfold searchEffect.
  rewrite bool_decide_false by done. cbn [ui setTimer].
  rewrite bool_decide_true by done.
  by rewrite searchResults_execStmt, searchResults_execStmt.
Qed.

(** What a step does to the state: one stretch of some task, started on a
    state with the page state and the log of the current one. *)
Lemma step_segment w e w' :
  step w e = Some w' →
  ∃ t s0, ui s0 = ui (sys w) ∧ log s0 = log (sys w)
          ∧ sys w' = (segment t s0).1
          ∧ ((∃ i api t1, e = Resolve i api ∧ pending w !! i = Some t1
                          ∧ respond api t1 = Some t)
             ∨ Starts w e t s0).
Proof.
  intros Hs.
  assert (Hcase : (∃ i api, e = Resolve i api) ∨ (∀ i api, e ≠ Resolve i api))
    by (destruct e; try (by right); left; eauto).
  destruct Hcase as [(i & api & ->)|Hne].
  - cbn [step] in Hs. apply resume_eq in Hs as (t & t2 & Hl & Hr & ->).
    exists t2, (sys w). repeat split; try done. left. by exists i, api, t.
  - destruct (step_starts w e w') as (t & s0 & Hst & ->); [done|done|].
    destruct (starts_state _ _ _ _ Hst) as (Hui & Hlog & _).
    exists t, s0. rewrite spawn_eq. repeat split; try done. by right.
Qed.

(** C8, amended. In every reachable state, overlap included: a step issues
    a search request for the search box only for the current query and only
    when that query has two characters or more; and every step that changes
    the query to one shorter than two characters, clearing it in particular,
    leaves the results list empty.  In runs in which each request is answered
    before the next event, the results list is empty whenever the query is
    shorter than two characters. *)
Theorem search_box_discipline (w : World) :
  reachable w →
  (∀ e w' q,
     step w e = Some w' →
     ReqSearch FromSearchBox q
       ∈ drop (length (requestsIn (log (sys w)))) (requestsIn (log (sys w'))) →
     q = searchQuery (ui (sys w)) ∧ 2 ≤ length q)
  ∧ (∀ e w',
       step w e = Some w' →
       searchQuery (ui (sys w')) ≠ searchQuery (ui (sys w)) →
       length (searchQuery (ui (sys w'))) < 2 →
       searchResults (ui (sys w')) = [])
  ∧ (seqReachable w →
     length (searchQuery (ui (sys w))) < 2 →
     searchResults (ui (sys w)) = []).
Proof.
  intros Hr. pose proof (reachable_boxInv w Hr) as [Ht Hp].
  split; [|split].
  - intros e w' q Hs Hin.
    destruct (step_segment w e w' Hs) as (t & s0 & Hui & Hlog & Hsys & Hc).
    rewrite Hsys, segment_requests, Hlog, drop_app_length in Hin.
    rewrite (proj2 (segment_sys t s0)) in Hin.
    destruct Hc as [(i & api & t1 & -> & Hl & Hre)|Hst].
    + exfalso. apply (boxFree_requests _ q) in Hin; [done|].
      apply advance_boxFree. rewrite Forall_forall in Hp.
      apply (Hp t1) with api; [|done]. by eapply list_elem_of_lookup_2.
    + destruct Hst as [e' t' Hho|e' target _ _|q0 Hq|b].
      * exfalso. apply (boxFree_requests _ q) in Hin; [done|].
        apply advance_boxFree. by apply (handlerOf_plain (ui (sys w)) e').
      * exfalso. apply (boxFree_requests _ q) in Hin; [done|].
        apply advance_boxFree, handlePopState_plain.
      * cbn [searchCallback advance snd requestsOf] in Hin.
        apply list_elem_of_singleton in Hin. injection Hin as ->.
        destruct (Ht q0 Hq) as [-> Hlen]. done.
      * exfalso. apply (boxFree_requests _ q) in Hin; [done|].
        apply advance_boxFree, urlEffect_plain.
  - intros e w' Hs Hne Hshort.
    destruct (step_segment w e w' Hs) as (t & s0 & Hui & _ & Hsys & _).
    rewrite Hsys, (proj1 (segment_sys t s0)) in *.
    rewrite searchQuery_searchEffect in Hne, Hshort.
    apply searchEffect_clears; [|done]. by rewrite Hui.
  - intros Hseq. by pose proof (seqReachable_inv w Hseq) as (_ & _ & _ & Hres).
Qed.

Lemma reachable_afterSearch : reachable Example.afterSearch.
Proof.
  exists Example.session,
    [ Resolve 0 Example.api; TypeQuery (js "ch"); TimerFires;
      Resolve 0 Example.api ].
  split; [split; [cbn; lia|repeat constructor]|]. vm_compute. reflexivity.
Qed.

Lemma search_box_discipline_witness :
  reachable Example.afterSearch
  ∧ searchResults (ui (sys Example.afterSearch))
    = [Example.meta Example.c1; Example.meta Example.c2]
  ∧ ∀ w', step Example.afterSearch (TypeQuery []) = Some w' →
          searchResults (ui (sys w')) = [].
Proof.
  split; [apply reachable_afterSearch|]. split; [vm_compute; reflexivity|].
  intros w' Hs.
  apply (proj1 (proj2 (search_box_discipline _ reachable_afterSearch))
           (TypeQuery []) w' Hs);
    vm_compute in Hs; injection Hs as <-.
  - vm_compute. discriminate.
  - vm_compute. lia.
Defined.

(** C8 as stated fails when the answer of a search arrives after the query
    was cleared: the query is empty and the results list is not. *)
Lemma results_with_cleared_query :
  ∃ w, reachable w
       ∧ searchQuery (ui (sys w)) = []
       ∧ searchResults (ui (sys w))
         = [Example.meta Example.c1; Example.meta Example.c2].
Proof.
  eexists. split.
  - exists Example.session, Example.typeThenClear.
    split; [apply sessionOk_example|]. vm_compute. reflexivity.
  - vm_compute. split; reflexivity.
Qed.

(** ** C1: link units of the two inline renderers *)

(** C1. The claim fails on [renderInline], the inline renderer of the
    single-note page: its pattern has no alias group, so the link
    [[[Atomic Habits|this book]]] is shown with the whole bracket content
    and clicked with it, where [renderInlineContent] of the notes page shows
    the alias and clicks with the target. *)
Theorem renderInline_shows_alias_source :
  renderInline (js "[[Atomic Habits|this book]]")
  = [Button (js "Atomic Habits|this book") (js "Atomic Habits|this book")]
  ∧ renderInlineContent (js "[[Atomic Habits|this book]]")
    = [Button (js "this book") (js "Atomic Habits")]
  ∧ renderedLinks (NoteContentSlug (js "See [[Atomic Habits|this book]]."))
    = [(js "Atomic Habits|this book", js "Atomic Habits|this book")]
  ∧ renderedLinks (NoteContent (js "See [[Atomic Habits|this book]]."))
    = [(js "this book", js "Atomic Habits")].
Proof. repeat split; vm_compute; reflexivity. Qed.

(** Formatting is applied to the text around the links only: the asterisks
    inside the link stay as they are, those outside become emphasis. *)
Example renderInlineContent_formats_outside_links :
  renderInlineContent (js "*a* [[b*c*|d]]")
  = [Span (js "<em>a</em> "); Button (js "d") (js "b*c*")].
Proof. vm_compute. reflexivity. Qed.

(** ** Wiki-link extraction in [renderInline] *)

Lemma match_at_bracket body rest :
  wfBody body →
  match_at Pat.wikiLinkPatternNoAlias 1 (bracketSource body ++ rest)
  = Some (bracketSource body, [None; Some body]).
Proof.
  intros [Hne Hrb].
  unfold match_at, bracketSource, Pat.wikiLinkPatternNoAlias, chr.
  change (js "[[") with ["["%char; "["%char].
  change (js "]]") with ["]"%char; "]"%char].
  cbn [rmatch app]. rewrite !cls_ok_chr. list_norm.
  apply plus_k_run; [done| |done|].
  - apply (not_in_class "]"). repeat constructor; done.
  - cbn beta iota. rewrite !cls_ok_chr, !take_consumed. f_equal. f_equal.
    apply take_whole. by list_norm.
Qed.

Lemma htmlNode_slice pre p rest parts :
  (if bool_decide (length pre < length pre + length p)
   then parts ++ [Html (formatText
                          (slice (pre ++ p ++ rest) (length pre) (length pre + length p)))]
   else parts) = parts ++ htmlNode p.
Proof.
  destruct p as [|c p].
  - rewrite bool_decide_false by (simpl; lia). by rewrite app_nil_r.
  - rewrite bool_decide_true by (simpl; lia). unfold slice.
    rewrite drop_app_length.
    replace (length pre + length (c :: p) - length pre) with (length (c :: p)) by lia.
    by rewrite take_app_length.
Qed.

Lemma renderInline_loop_doc segs :
  ∀ tail pre parts fuel,
    length segs < fuel →
    Forall wfRaw segs →
    openFree true tail = true →
    renderInline_loop fuel (pre ++ rawSource segs ++ tail) (length pre) parts
    = (parts ++ rawNodes segs, length pre + length (rawSource segs)).
Proof.
  induction segs as [|[p b] segs IH]; intros tail pre parts fuel Hfuel Hwf Htail.
  - destruct fuel as [|fuel]; [simpl in Hfuel; lia|].
    cbn [rawSource rawNodes flat_map app length renderInline_loop].
    unfold exec. rewrite bool_decide_true by (rewrite length_app; lia).
    rewrite drop_app_length.
    unfold Pat.wikiLinkPatternNoAlias. rewrite search_open_free_none by done.
    by rewrite app_nil_r, Nat.add_0_r.
  - destruct fuel as [|fuel]; [simpl in Hfuel; lia|].
    apply Forall_cons in Hwf as [[Hp Hb] Hwf]. cbn [fst snd] in Hp, Hb.
    cbn [renderInline_loop].
    unfold exec. rewrite bool_decide_true by (rewrite length_app; lia).
    rewrite drop_app_length.
    change (rawSource ((p, b) :: segs)) with ((p ++ bracketSource b) ++ rawSource segs).
    rewrite <- !app_assoc.
    unfold Pat.wikiLinkPatternNoAlias.
    rewrite (search_open_free _ 1 p _ (length pre) (bracketSource b)
               [None; Some b]); [|done|done|].
    + cbn [index whole]. rewrite htmlNode_slice.
      unfold group. cbn [groups lookup list_lookup mjoin option_join].
      replace (pre ++ p ++ bracketSource b ++ rawSource segs ++ tail)
        with ((pre ++ p ++ bracketSource b) ++ rawSource segs ++ tail)
        by (by rewrite <- !app_assoc).
      replace (length pre + length p + length (bracketSource b))
        with (length (pre ++ p ++ bracketSource b))
        by (rewrite !length_app; lia).
      rewrite IH; [|simpl in Hfuel; lia|done|done].
      f_equal.
      * cbn [rawNodes flat_map fst snd]. by rewrite <- !app_assoc.
      * rewrite !length_app. lia.
    + by apply match_at_bracket.
Qed.

Lemma rawSource_length segs : length segs ≤ length (rawSource segs).
Proof.
  induction segs as [|[p b] segs IH]; [done|].
  change (rawSource ((p, b) :: segs)) with ((p ++ bracketSource b) ++ rawSource segs).
  unfold bracketSource. change (js "[[") with ["["%char; "["%char].
  rewrite !length_app. cbn [length]. lia.
Qed.

Lemma linkUnits_htmlNode p : linkUnits (htmlNode p) = [].
Proof. by destruct p. Qed.

Lemma linkUnits_rawNodes segs :
  linkUnits (rawNodes segs) = map (fun pb => (pb.2, pb.2)) segs.
Proof.
  induction segs as [|[p b] segs IH]; [done|].
  cbn [rawNodes flat_map map fst snd]. rewrite !linkUnits_app, linkUnits_htmlNode.
  cbn [app]. fold (rawNodes segs). rewrite IH. done.
Qed.

(** What [renderInline] returns on a line of bracketed links. *)
Lemma renderInline_doc segs tail :
  Forall wfRaw segs → openFree true tail = true →
  renderInline (rawSource segs ++ tail)
  = match segs, tail with
    | [], [] => [Html (formatText [])]
    | _, _ => rawNodes segs ++ htmlNode tail
    end.
Proof.
  intros Hwf Htail. unfold renderInline.
  assert (Hlen : length segs < S (length (rawSource segs ++ tail))).
  { rewrite length_app. pose proof (rawSource_length segs). lia. }
  pose proof (renderInline_loop_doc segs tail [] [] _ Hlen Hwf Htail) as E.
  cbn [app length] in E. rewrite E. cbn [app Nat.add].
  assert (Et : (if bool_decide (length (rawSource segs) < length (rawSource segs ++ tail))
                then rawNodes segs ++ [Html (formatText
                       (sliceFrom (rawSource segs ++ tail) (length (rawSource segs))))]
                else rawNodes segs) = rawNodes segs ++ htmlNode tail).
  { unfold sliceFrom. rewrite drop_app_length, length_app.
    destruct tail as [|c tail].
    - rewrite bool_decide_false by (simpl; lia). by rewrite app_nil_r.
    - by rewrite bool_decide_true by (simpl; lia). }
  rewrite Et. destruct segs as [|[p b] segs].
  - destruct tail as [|c tail]; [done|]. by rewrite bool_decide_true by (simpl; lia).
  - rewrite bool_decide_true; [done|].
    cbn [rawNodes flat_map]. rewrite !length_app. simpl. lia.
Qed.

Lemma renderInline_doc_links segs tail :
  Forall wfRaw segs → openFree true tail = true →
  linkUnits (renderInline (rawSource segs ++ tail))
  = map (fun pb => (pb.2, pb.2)) segs.
Proof.
  intros Hwf Htail. rewrite renderInline_doc by done.
  destruct segs as [|[p b] segs].
  - destruct tail; [done|]. by rewrite linkUnits_app, linkUnits_htmlNode.
  - by rewrite linkUnits_app, linkUnits_htmlNode, app_nil_r, linkUnits_rawNodes.
Qed.

(** X1. On every line made of bracketed links separated by link-free
    text, [renderInline] emits the text between the links formatted on its
    own and one button per link; the button shows, and passes to
    [onLinkClick], everything between the brackets, a bar and what follows
    it included. *)
Theorem renderInline_links (segs : list (str * str)) (tail : str) :
  Forall wfRaw segs → openFree true tail = true →
  renderInline (rawSource segs ++ tail)
  = match segs, tail with
    | [], [] => [Html (formatText [])]
    | _, _ => rawNodes segs ++ htmlNode tail
    end
  ∧ linkUnits (renderInline (rawSource segs ++ tail))
    = map (fun pb => (pb.2, pb.2)) segs
  ∧ length (linkUnits (renderInline (rawSource segs ++ tail))) = length segs.
Proof.
  intros Hwf Htail. split; [by apply renderInline_doc|].
  rewrite renderInline_doc_links by done. split; [done|apply length_map].
Qed.

Lemma renderInline_links_witness :
  Forall wfRaw [(js "See ", js "Atomic Habits|this book"); (js " and ", js "c1")]
  ∧ openFree true (js ".") = true
  ∧ linkUnits (renderInline (js "See [[Atomic Habits|this book]] and [[c1]]."))
    = [ (js "Atomic Habits|this book", js "Atomic Habits|this book");
        (js "c1", js "c1") ].
Proof.
  assert (Hwf : Forall wfRaw
            [(js "See ", js "Atomic Habits|this book"); (js " and ", js "c1")]).
  { repeat constructor; try done;
      apply (bool_decide_unpack _); vm_compute; exact I. }
  assert (Ht : openFree true (js ".") = true) by reflexivity.
  split; [exact Hwf|]. split; [exact Ht|].
  exact (proj1 (proj2 (renderInline_links _ _ Hwf Ht))).
Defined.

(** ** The two inline renderers on links without alias *)

Lemma segSource_raw segs :
  Forall (fun pl => alias pl.2 = None) segs →
  segSource segs = rawSource (map (fun pl => (pl.1, target pl.2)) segs).
Proof.
  induction 1 as [|[p l] segs Hl _ IH]; [done|].
  cbn [segSource rawSource flat_map map fst snd] in *.
  fold (segSource segs). rewrite IH. unfold linkSource, bracketSource.
  by rewrite Hl, app_nil_l.
Qed.

(** X2. On a line whose links are all of the form [[[target]]], the two
    inline renderers emit the same link units: one per link, showing the
    target and passing it to [onLinkClick]. *)
Theorem renderers_agree_without_alias (segs : list (str * WikiLink))
    (tail : str) :
  Forall wfSeg segs → Forall (fun pl => alias pl.2 = None) segs →
  openFree true tail = true →
  linkUnits (renderInline (segSource segs ++ tail))
  = linkUnits (renderInlineContent (segSource segs ++ tail))
  ∧ linkUnits (renderInline (segSource segs ++ tail))
    = map (fun pl => (target pl.2, target pl.2)) segs.
Proof.
  intros Hwf Hal Htail.
  assert (E : linkUnits (renderInline (segSource segs ++ tail))
              = map (fun pl => (target pl.2, target pl.2)) segs).
  { rewrite segSource_raw by done. rewrite renderInline_doc_links; [|  |done].
    - by rewrite map_map.
    - apply Forall_map. eapply Forall_impl; [exact Hwf|].
      intros [p l] [Hp (Hne & Hrb & _)]. split; [done|]. by split. }
  split; [|done]. rewrite E.
  rewrite (proj1 (renderInlineContent_links segs tail Hwf Htail)).
  apply map_ext_Forall. eapply Forall_impl; [exact Hal|].
  intros [p l] H. cbn [snd] in *. unfold displayOf. by rewrite H.
Qed.


Lemma renderers_agree_without_alias_witness :
  Forall wfSeg [(js "Read ", mkLink (js "chapter 1") None)]
  ∧ linkUnits (renderInline (js "Read [[chapter 1]]."))
    = linkUnits (renderInlineContent (js "Read [[chapter 1]]."))
  ∧ linkUnits (renderInline (js "Read [[chapter 1]]."))
    = [(js "chapter 1", js "chapter 1")].
Proof.
  assert (Hwf : Forall wfSeg [(js "Read ", mkLink (js "chapter 1") None)]).
  { repeat constructor; try done;
      apply (bool_decide_unpack _); vm_compute; exact I. }
  assert (Hal : Forall (fun pl : str * WikiLink => alias pl.2 = None)
                  [(js "Read ", mkLink (js "chapter 1") None)])
    by (repeat constructor).
  split; [exact Hwf|].
  exact (renderers_agree_without_alias _ (js ".") Hwf Hal eq_refl).
Defined.

(** ** Lines without a closing bracket *)

Lemma plus_k_fail {A} p s (k : str -> option A) :
  (∀ s', s' `suffix_of` s → k s' = None) → plus_k p s k = None.
Proof.
  induction s as [|c s IH]; intros H; cbn [plus_k]; [done|].
  destruct (p c); [|done].
  rewrite IH.
  - apply H. by apply suffix_cons_r.
  - intros s' Hs. apply H. by apply suffix_cons_r.
Qed.

(** A pattern fails where its continuation fails on every suffix. *)
Lemma rmatch_fail {A} r : ∀ s cs (k : str -> caps -> option A),
  (∀ s' cs', s' `suffix_of` s → k s' cs' = None) → rmatch r s cs k = None.
Proof.
  induction r as [c|c|r1 IH1 r2 IH2|r1 IH1|i r1 IH1]; intros s cs k H;
    cbn [rmatch].
  - destruct s as [|x s]; [done|]. destruct (cls_ok c x); [|done].
    apply H. by apply suffix_cons_r.
  - apply plus_k_fail. intros s' Hs. by apply H.
  - apply IH1. intros s1 cs1 Hs1. apply IH2. intros s2 cs2 Hs2.
    apply H. by etrans.
  - rewrite IH1 by done. by apply H.
  - apply IH1. intros s' cs' Hs. by apply H.
Qed.

Lemma cat_fail {A} r1 r2 s cs (k : str -> caps -> option A) :
  (∀ s1 cs1, s1 `suffix_of` s → rmatch r2 s1 cs1 k = None) →
  rmatch (r1 +++ r2) s cs k = None.
Proof. intros H. cbn [rmatch]. by apply rmatch_fail. Qed.

(** A closing bracket is not matched in text that has none. *)
Lemma close_fail {A} r s s1 cs1 (k : str -> caps -> option A) :
  ("]"%char ∉ s) → s1 `suffix_of` s →
  rmatch (chr "]" +++ r) s1 cs1 k = None.
Proof.
  intros Hs Hsuf. unfold chr. cbn [rmatch]. destruct s1 as [|x s1]; [done|].
  rewrite cls_ok_chr_ne; [done|]. intros <-. apply Hs.
  destruct Hsuf as [pre ->]. set_solver.
Qed.

Lemma match_at_link_unclosed s s0 :
  ("]"%char ∉ s) → s0 `suffix_of` s →
  match_at Pat.wikiLinkPattern 2 s0 = None
  ∧ match_at Pat.wikiLinkPatternNoAlias 1 s0 = None.
Proof.
  intros Hs H0. unfold match_at, Pat.wikiLinkPattern, Pat.wikiLinkPatternNoAlias.
  split.
  - apply cat_fail. intros s1 cs1 H1.
    apply cat_fail. intros s2 cs2 H2.
    apply cat_fail. intros s3 cs3 H3.
    apply cat_fail. intros s4 cs4 H4.
    apply (close_fail _ s); [done|].
    etrans; [exact H4|]. etrans; [exact H3|]. etrans; [exact H2|]. by etrans.
  - apply cat_fail. intros s1 cs1 H1.
    apply cat_fail. intros s2 cs2 H2.
    apply cat_fail. intros s3 cs3 H3.
    apply (close_fail _ s); [done|].
    etrans; [exact H3|]. etrans; [exact H2|]. by etrans.
Qed.

Lemma search_link_unclosed s : ∀ s0 i,
  ("]"%char ∉ s) → s0 `suffix_of` s →
  search Pat.wikiLinkPattern 2 s0 i = None
  ∧ search Pat.wikiLinkPatternNoAlias 1 s0 i = None.
Proof.
  intros s0. induction s0 as [|c s0 IH]; intros i Hs H0; cbn [search];
    destruct (match_at_link_unclosed s _ Hs H0) as [-> ->]; [done|].
  apply IH; [done|]. etrans; [|exact H0]. by apply suffix_cons_r.
Qed.

(** X3. A line without a closing bracket has no link: both inline
    renderers emit the whole line as one formatted text node and no button,
    however many opening brackets it holds. *)
Theorem unclosed_links_stay_text (text : str) :
  ("]"%char ∉ text) →
  renderInlineContent text
  = match text with
    | [] => [Html (formatInlineText [])]
    | _ :: _ => [Span (formatInlineText text)]
    end
  ∧ renderInline text = [Html (formatText text)]
  ∧ linkUnits (renderInlineContent text) = []
  ∧ linkUnits (renderInline text) = [].
Proof.
  intros H.
  destruct (search_link_unclosed text text 0 H) as [E1 E2]; [done|].
  assert (R1 : renderInlineContent text
               = match text with
                 | [] => [Html (formatInlineText [])]
                 | _ :: _ => [Span (formatInlineText text)]
                 end).
  { unfold renderInlineContent. cbn [renderInlineContent_loop].
    rewrite exec_start, E1. destruct text as [|c t]; [done|].
    rewrite (bool_decide_true (0 < length (c :: t))) by (cbn [length]; lia).
    cbn [app]. unfold sliceFrom. rewrite drop_0.
    by rewrite bool_decide_true by (cbn [length]; lia). }
  assert (R2 : renderInline text = [Html (formatText text)]).
  { unfold renderInline. cbn [renderInline_loop].
    rewrite exec_start, E2. destruct text as [|c t]; [done|].
    rewrite (bool_decide_true (0 < length (c :: t))) by (cbn [length]; lia).
    cbn [app]. unfold sliceFrom. rewrite drop_0.
    by rewrite bool_decide_true by (cbn [length]; lia). }
  rewrite R1, R2. repeat split; try done. by destruct text.
Qed.

Lemma unclosed_links_stay_text_witness :
  ("]"%char ∉ js "see [[c1 and [[c2")
  ∧ renderInlineContent (js "see [[c1 and [[c2")
    = [Span (js "see [[c1 and [[c2")].
Proof.
  assert (H : "]"%char ∉ js "see [[c1 and [[c2")
    by (apply (bool_decide_unpack _); vm_compute; exact I).
  split; [exact H|].
  rewrite (proj1 (unclosed_links_stay_text _ H)). vm_compute. reflexivity.
Defined.


(** ** Formatting one span *)

Lemma search_skip c r n p X i :
  c ∉ p →
  search (chr c +++ r) n (p ++ X) i = search (chr c +++ r) n X (i + length p).
Proof.
  revert i. induction p as [|x p IH]; intros i Hc.
  - cbn [app length]. by rewrite Nat.add_0_r.
  - cbn [app search]. rewrite match_at_chr_head.
    + rewrite IH by set_solver. f_equal. cbn [length]. lia.
    + simpl. intros [= ->]. set_solver.
Qed.

(** A pattern that starts with the same literal twice does not match where
    the text does not start with it twice. *)
Lemma match_at_twice c r n s :
  (match s with
   | x :: y :: _ => x ≠ c ∨ y ≠ c
   | _ => True
   end) →
  match_at (chr c +++ chr c +++ r) n s = None.
Proof.
  unfold match_at, chr. cbn [rmatch].
  destruct s as [|x [|y s]]; [done| |].
  - intros _. by destruct (cls_ok (CChar c) x).
  - intros [H|H].
    + by rewrite (cls_ok_chr_ne c x).
    + destruct (cls_ok (CChar c) x); [|done].
      by rewrite (cls_ok_chr_ne c y).
Qed.

(** [c], a non-empty run without [c], [c]: the span of the italic and of the
    inline-code pattern. *)
Lemma match_at_span c x rest :
  x ≠ [] → c ∉ x →
  match_at (chr c +++ Grp 1 (Plus (CNot [c])) +++ chr c) 1 (c :: x ++ c :: rest)
  = Some (c :: x ++ [c], [None; Some x]).
Proof.
  intros Hne Hc. unfold match_at, chr. cbn [rmatch]. rewrite cls_ok_chr.
  apply plus_k_run; [done| | |].
  - apply (not_in_class c). repeat constructor; done.
  - cbn. unfold cls_ok. cbn. by rewrite ascii_eqb_refl.
  - cbn beta iota. rewrite cls_ok_chr. f_equal. f_equal.
    + apply take_whole. by list_norm.
    + cbn [replicate]. 
      replace (length (x ++ c :: rest) - length (c :: rest)) with (length x)
        by (rewrite length_app; lia).
      by rewrite take_app_length.
Qed.

Lemma match_at_bold x rest :
  x ≠ [] → "*"%char ∉ x →
  match_at Pat.bold 1 (js "**" ++ x ++ js "**" ++ rest)
  = Some (js "**" ++ x ++ js "**", [None; Some x]).
Proof.
  intros Hne Hc. unfold match_at, Pat.bold, chr.
  change (js "**") with ["*"%char; "*"%char].
  cbn [rmatch app]. rewrite !cls_ok_chr.
  apply plus_k_run; [done| | |].
  - apply (not_in_class "*"). repeat constructor; done.
  - cbn. unfold cls_ok. cbn. by rewrite ascii_eqb_refl.
  - cbn beta iota. rewrite !cls_ok_chr. f_equal. f_equal.
    + apply take_whole. by list_norm.
    + cbn [replicate].
      replace (length (x ++ "*"%char :: "*"%char :: rest)
               - length ("*"%char :: "*"%char :: rest)) with (length x)
        by (rewrite length_app; lia).
      by rewrite take_app_length.
Qed.

(** The replacement when the pattern matches once, at [w] between [a] and
    [b]. *)
Lemma replaceAll_single r n tmpl a w b cs :
  w ≠ [] →
  search r n (a ++ w ++ b) 0 = Some (mkMatch (length a) w cs) →
  search r n b (length a + length w) = None →
  replaceAll r n tmpl (a ++ w ++ b)
  = a ++ expand tmpl (mkMatch (length a) w cs) ++ b.
Proof.
  intros Hw H1 H2. unfold replaceAll.
  destruct w as [|c w]; [done|].
  assert (Hk : ∃ k, length (a ++ (c :: w) ++ b) = S k).
  { exists (length a + (length w + length b)). rewrite !length_app. cbn [length]. lia. }
  destruct Hk as [k Hk]. rewrite Hk.
  cbn [replaceLoop]. rewrite exec_start, H1. cbn [index whole length].
  unfold exec. rewrite bool_decide_true by (rewrite !length_app; cbn [length]; lia).
  replace (drop (length a + S (length w)) (a ++ (c :: w) ++ b)) with b.
  - cbn [length] in H2. rewrite H2. unfold slice, sliceFrom.
    rewrite drop_0, Nat.sub_0_r, take_app_length. cbn [app].
    replace (drop (length a + S (length w)) (a ++ c :: w ++ b)) with b; [by list_norm|].
    rewrite drop_app_add. change (c :: w ++ b) with ((c :: w) ++ b).
    change (S (length w)) with (length (c :: w)). by rewrite drop_app_length.
  - rewrite drop_app_add.
    change (S (length w)) with (length (c :: w)). by rewrite drop_app_length.
Qed.

Lemma plain_app a b : plain a → plain b → plain (a ++ b).
Proof. intros [? ?] [? ?]. split; rewrite elem_of_app; tauto. Qed.

Lemma plain_closed s :
  bool_decide (("*"%char ∉ s) ∧ ("`"%char ∉ s)) = true → plain s.
Proof. intros H. by apply bool_decide_eq_true in H. Qed.

Lemma search_bold_lone a x b i :
  "*"%char ∉ a → x ≠ [] → "*"%char ∉ x → "*"%char ∉ b →
  search Pat.bold 1 (a ++ "*"%char :: x ++ "*"%char :: b) i = None.
Proof.
  intros Ha Hne Hx Hb. unfold Pat.bold. rewrite search_skip by done.
  cbn [search]. rewrite match_at_twice.
  - rewrite search_skip by done. cbn [search]. rewrite match_at_twice.
    + by apply search_chr_absent.
    + destruct b as [|y b]; [done|]. right. intros ->. set_solver.
  - destruct x as [|y x]; [done|]. right. intros ->. set_solver.
Qed.

(** X4. One span in plain text: for text [a], [x], [b] without asterisk or
    backtick, [x] not empty, [formatText] and [formatInlineText] turn
    [a**x**b], [a*x*b] and [a`x`b] into [a], the element around [x], [b]. *)
Theorem formatText_single_span (a x b : str) :
  plain a → plain x → plain b → x ≠ [] →
  formatText (a ++ js "**" ++ x ++ js "**" ++ b)
  = a ++ js "<strong class=" ++ [dq] ++ js "text-[var(--color-text-primary)]"
      ++ [dq] ++ js ">" ++ x ++ js "</strong>" ++ b
  ∧ formatText (a ++ js "*" ++ x ++ js "*" ++ b)
    = a ++ js "<em>" ++ x ++ js "</em>" ++ b
  ∧ formatText (a ++ js "`" ++ x ++ js "`" ++ b)
    = a ++ js "<code class=" ++ [dq]
        ++ js "bg-[var(--color-space-700)] px-1 py-0.5 rounded text-sm font-mono text-[var(--color-accent-400)]"
        ++ [dq] ++ js ">" ++ x ++ js "</code>" ++ b
  ∧ ∀ t, formatInlineText t = formatText t.
Proof.
  intros [Ha1 Ha2] [Hx1 Hx2] [Hb1 Hb2] Hne.
  split; [|split; [|split; [|done]]]; unfold formatText.
  - (* bold *)
    assert (E1 : replaceAll Pat.bold 1 Tmpl.strong
                   (a ++ js "**" ++ x ++ js "**" ++ b)
                 = a ++ expand Tmpl.strong
                          (mkMatch (length a) (js "**" ++ x ++ js "**") [None; Some x])
                     ++ b).
    { replace (a ++ js "**" ++ x ++ js "**" ++ b)
        with (a ++ (js "**" ++ x ++ js "**") ++ b) by (by list_norm).
      apply replaceAll_single.
      - done.
      - unfold Pat.bold at 1. rewrite search_skip by done.
        change (js "**") with ["*"%char; "*"%char]. cbn [app search].
        pose proof (match_at_bold x b Hne Hx1) as Hm.
        change (js "**") with ["*"%char; "*"%char] in Hm. cbn [app] in Hm.
        list_norm. cbn [app]. fold Pat.bold. rewrite Hm. done.
      - unfold Pat.bold. by apply search_chr_absent. }
    rewrite E1. cbn [expand Tmpl.strong flat_map group groups lookup list_lookup
                     mjoin option_join default from_option id].
    rewrite app_nil_r.
    assert (Hs : plain (js "<strong class=" ++ [dq]
                        ++ js "text-[var(--color-text-primary)]" ++ [dq] ++ js ">"))
      by (by apply plain_closed).
    assert (Hs2 : plain (js "</strong>")) by (by apply plain_closed).
    assert (Hp : plain (a ++ ((js "<strong class=" ++ [dq]
                        ++ js "text-[var(--color-text-primary)]" ++ [dq] ++ js ">")
                              ++ x ++ js "</strong>") ++ b)).
    { apply plain_app; [done|]. apply plain_app; [|done].
      apply plain_app; [done|]. by apply plain_app. }
    destruct Hp as [Hp1 Hp2]. unfold Pat.italic, Pat.code.
    rewrite (replaceAll_chr_absent "*" _ 1 Tmpl.em _ Hp1).
    rewrite (replaceAll_chr_absent "`" _ 1 Tmpl.code _ Hp2).
    by list_norm.
  - (* italic *)
    change (js "*") with ["*"%char]. cbn [app].
    rewrite (replaceAll_no_match Pat.bold)
      by (by apply search_bold_lone).
    assert (E2 : replaceAll Pat.italic 1 Tmpl.em (a ++ "*"%char :: x ++ "*"%char :: b)
                 = a ++ expand Tmpl.em
                          (mkMatch (length a) ("*"%char :: x ++ ["*"%char]) [None; Some x])
                     ++ b).
    { replace (a ++ "*"%char :: x ++ "*"%char :: b)
        with (a ++ ("*"%char :: x ++ ["*"%char]) ++ b) by (by list_norm).
      apply replaceAll_single.
      - done.
      - unfold Pat.italic at 1. rewrite search_skip by done.
        cbn [app search]. list_norm. fold Pat.italic. unfold Pat.italic.
        rewrite (match_at_span "*" x b Hne Hx1). done.
      - unfold Pat.italic. by apply search_chr_absent. }
    rewrite E2. cbn [expand Tmpl.em flat_map group groups lookup list_lookup
                     mjoin option_join default from_option id].
    rewrite app_nil_r.
    assert (Hp : "`"%char ∉ a ++ (js "<em>" ++ x ++ js "</em>") ++ b).
    { assert (H1 : plain (js "<em>")) by (by apply plain_closed).
      assert (H2 : plain (js "</em>")) by (by apply plain_closed).
      apply (plain_app a _); [done|]. apply plain_app; [|done].
      apply plain_app; [done|]. by apply plain_app. }
    unfold Pat.code. rewrite (replaceAll_chr_absent "`" _ 1 Tmpl.code _ Hp).
    by list_norm.
  - (* inline code *)
    change (js "`") with ["`"%char]. cbn [app].
    assert (Hstar : "*"%char ∉ a ++ "`"%char :: x ++ "`"%char :: b).
    { rewrite elem_of_app, elem_of_cons, elem_of_app, elem_of_cons.
      intros [?|[?|[?|[?|?]]]]; done. }
    unfold Pat.bold, Pat.italic.
    rewrite (replaceAll_chr_absent "*" _ 1 Tmpl.strong _ Hstar).
    rewrite (replaceAll_chr_absent "*" _ 1 Tmpl.em _ Hstar).
    assert (E3 : replaceAll Pat.code 1 Tmpl.code (a ++ "`"%char :: x ++ "`"%char :: b)
                 = a ++ expand Tmpl.code
                          (mkMatch (length a) ("`"%char :: x ++ ["`"%char]) [None; Some x])
                     ++ b).
    { replace (a ++ "`"%char :: x ++ "`"%char :: b)
        with (a ++ ("`"%char :: x ++ ["`"%char]) ++ b) by (by list_norm).
      apply replaceAll_single.
      - done.
      - unfold Pat.code at 1. rewrite search_skip by done.
        cbn [app search]. list_norm. unfold Pat.code.
        rewrite (match_at_span "`" x b Hne Hx2). done.
      - unfold Pat.code. by apply search_chr_absent. }
    rewrite E3. cbn [expand Tmpl.code flat_map group groups lookup list_lookup
                     mjoin option_join default from_option id].
    rewrite app_nil_r. by list_norm.
Qed.


Lemma formatText_single_span_witness :
  plain (js "a ") ∧ plain (js "b") ∧ plain (js " c")
  ∧ formatText (js "a *b* c") = js "a <em>b</em> c"
  ∧ formatText (js "a `b` c")
    = js "a <code class=" ++ [dq]
      ++ js "bg-[var(--color-space-700)] px-1 py-0.5 rounded text-sm font-mono text-[var(--color-accent-400)]"
      ++ [dq] ++ js ">b</code> c".
Proof.
  assert (Ha : plain (js "a ")) by (by apply plain_closed).
  assert (Hx : plain (js "b")) by (by apply plain_closed).
  assert (Hb : plain (js " c")) by (by apply plain_closed).
  assert (Hne : js "b" ≠ []) by done.
  split; [exact Ha|]. split; [exact Hx|]. split; [exact Hb|].
  pose proof (formatText_single_span _ _ _ Ha Hx Hb Hne) as (_ & H2 & H3 & _).
  split; [exact H2|exact H3].
Defined.

(** ** The block pipeline, line by line *)

Section Blocks.
Variable inl : str -> list Inline.

Lemma lineStep_outside st line :
  inCodeBlock st = false → isFence line = false →
  lineStep inl st line
  = mkLineState false (codeContent st) (elements st ++ lineBlock inl line).
Proof.
  unfold isFence, lineBlock, lineStep, push. intros -> ->. cbn [inCodeBlock].
  repeat case_match; reflexivity.
Qed.

Lemma lineBlock_one line :
  isFence line = false → length (lineBlock inl line) = 1.
Proof.
  unfold isFence, lineBlock, lineStep, push. intros ->. cbn [inCodeBlock].
  repeat case_match; reflexivity.
Qed.

Lemma lineStep_inside st line :
  inCodeBlock st = true → isFence line = false →
  lineStep inl st line
  = mkLineState true (codeContent st ++ line ++ ["010"%char]) (elements st).
Proof. unfold isFence, lineStep. by intros -> ->. Qed.

Lemma lineStep_open st line :
  inCodeBlock st = false → isFence line = true →
  lineStep inl st line = mkLineState true [] (elements st).
Proof. unfold isFence, lineStep. by intros -> ->. Qed.

Lemma lineStep_close st line :
  inCodeBlock st = true → isFence line = true →
  lineStep inl st line
  = mkLineState false (codeContent st) (elements st ++ [Pre (codeContent st)]).
Proof. unfold isFence, lineStep. by intros -> ->. Qed.

Lemma foldl_outside lines : ∀ st,
  inCodeBlock st = false → Forall (fun l => isFence l = false) lines →
  foldl (lineStep inl) st lines
  = mkLineState false (codeContent st)
      (elements st ++ flat_map (lineBlock inl) lines).
Proof.
  induction lines as [|l lines IH]; intros st Hst Hl.
  - cbn. rewrite app_nil_r. by destruct st; cbn in *; subst.
  - apply Forall_cons in Hl as [Hl Hls]. cbn [foldl flat_map].
    rewrite lineStep_outside by done. rewrite IH by done.
    cbn. by rewrite <- app_assoc.
Qed.

Lemma foldl_inside body : ∀ st,
  inCodeBlock st = true → Forall (fun l => isFence l = false) body →
  foldl (lineStep inl) st body
  = mkLineState true (codeContent st ++ codeOf body) (elements st).
Proof.
  induction body as [|l body IH]; intros st Hst Hl.
  - cbn. rewrite app_nil_r. by destruct st; cbn in *; subst.
  - apply Forall_cons in Hl as [Hl Hls]. cbn [foldl codeOf flat_map].
    rewrite lineStep_inside by done. rewrite IH by done.
    cbn. by rewrite <- !app_assoc.
Qed.

(** From a state outside a code block the rest of the lines is rendered as
    from the initial state. *)
Lemma foldl_elements lines : ∀ st,
  inCodeBlock st = false →
  elements (foldl (lineStep inl) st lines)
  = elements st ++ renderLines inl lines.
Proof.
  unfold renderLines.
  assert (H : ∀ lines st st',
             inCodeBlock st = inCodeBlock st' →
             codeContent st = codeContent st' ∨ inCodeBlock st = false →
             ∃ els, elements (foldl (lineStep inl) st lines) = elements st ++ els
                    ∧ elements (foldl (lineStep inl) st' lines) = elements st' ++ els).
  { clear lines. induction lines as [|l lines IH]; intros st st' Hi Hc.
    - exists []. by rewrite !app_nil_r.
    - cbn [foldl]. destruct (isFence l) eqn:Hf; destruct (inCodeBlock st) eqn:Hi1.
      + rewrite (lineStep_close st), (lineStep_close st') by done.
        destruct Hc as [Hc|Hc]; [|done].
        edestruct (IH (mkLineState false (codeContent st)
                         (elements st ++ [Pre (codeContent st)]))
                      (mkLineState false (codeContent st')
                         (elements st' ++ [Pre (codeContent st')])))
          as (els & E1 & E2); [done|by right|].
        exists (Pre (codeContent st) :: els). rewrite E1, E2. cbn [elements].
        rewrite Hc. by rewrite <- !app_assoc.
      + rewrite (lineStep_open st), (lineStep_open st') by done.
        edestruct (IH (mkLineState true [] (elements st))
                      (mkLineState true [] (elements st')))
          as (els & E1 & E2); [done|by left|].
        exists els. by rewrite E1, E2.
      + rewrite (lineStep_inside st), (lineStep_inside st') by done.
        destruct Hc as [Hc|Hc]; [|done].
        edestruct (IH (mkLineState true (codeContent st ++ l ++ ["010"%char])
                         (elements st))
                      (mkLineState true (codeContent st' ++ l ++ ["010"%char])
                         (elements st')))
          as (els & E1 & E2); [done|left; cbn; by rewrite Hc|].
        exists els. by rewrite E1, E2.
      + rewrite (lineStep_outside st), (lineStep_outside st') by done.
        edestruct (IH (mkLineState false (codeContent st)
                         (elements st ++ lineBlock inl l))
                      (mkLineState false (codeContent st')
                         (elements st' ++ lineBlock inl l)))
          as (els & E1 & E2); [done|by right|].
        exists (lineBlock inl l ++ els). rewrite E1, E2. cbn [elements].
        by rewrite <- !app_assoc. }
  intros st Hst.
  destruct (H lines st (mkLineState false [] [])) as (els & E1 & E2);
    [done|by right|].
  rewrite E1, E2. done.
Qed.

Lemma renderLines_fence_free lines :
  Forall (fun l => isFence l = false) lines →
  renderLines inl lines = flat_map (lineBlock inl) lines.
Proof.
  intros H. unfold renderLines. by rewrite foldl_outside.
Qed.

Lemma renderLines_unclosed pre f rest :
  Forall (fun l => isFence l = false) pre → isFence f = true →
  Forall (fun l => isFence l = false) rest →
  renderLines inl (pre ++ f :: rest) = flat_map (lineBlock inl) pre.
Proof.
  intros Hpre Hf Hrest. unfold renderLines.
  rewrite foldl_app, (foldl_outside pre) by done. cbn [foldl].
  rewrite lineStep_open by done. rewrite (foldl_inside rest) by done. done.
Qed.

Lemma renderLines_fenced pre f1 body f2 post :
  Forall (fun l => isFence l = false) pre → isFence f1 = true →
  Forall (fun l => isFence l = false) body → isFence f2 = true →
  renderLines inl (pre ++ f1 :: body ++ f2 :: post)
  = flat_map (lineBlock inl) pre ++ [Pre (codeOf body)] ++ renderLines inl post.
Proof.
  intros Hpre Hf1 Hbody Hf2. unfold renderLines at 1.
  rewrite foldl_app, (foldl_outside pre) by done. cbn [foldl].
  rewrite lineStep_open by done. rewrite foldl_app, (foldl_inside body) by done.
  cbn [foldl]. rewrite lineStep_close by done.
  rewrite foldl_elements by done. cbn. by rewrite <- app_assoc.
Qed.

Lemma renderLines_length lines :
  length (renderLines inl lines) ≤ length lines.
Proof.
  unfold renderLines.
  assert (H : ∀ st, length (elements (foldl (lineStep inl) st lines))
                    ≤ length (elements st) + length lines).
  { induction lines as [|l lines IH]; intros st; cbn [foldl length]; [lia|].
    etrans; [apply IH|].
    destruct (isFence l) eqn:Hf; destruct (inCodeBlock st) eqn:Hi.
    - rewrite lineStep_close by done. cbn. rewrite length_app. cbn. lia.
    - rewrite lineStep_open by done. cbn. lia.
    - rewrite lineStep_inside by done. cbn. lia.
    - rewrite lineStep_outside by done. cbn.
      rewrite length_app, lineBlock_one by done. lia. }
  apply (H (mkLineState false [] [])).
Qed.

End Blocks.


(** ** [NoteContent] on whole notes *)

Lemma splitLines_white content :
  Forall (fun c => isWhite c = true) content →
  Forall (Forall (fun c => isWhite c = true)) (splitLines content).
Proof.
  induction 1 as [|c s Hc _ IH]; cbn [splitLines].
  - repeat constructor.
  - destruct (ascii_eqb c "010"); [by repeat constructor|].
    destruct (splitLines s) as [|l ls]; [by repeat constructor|].
    apply Forall_cons in IH as [? ?]. repeat constructor; done.
Qed.

Lemma fence_not_white f :
  isFence f = true → ¬ Forall (fun c => isWhite c = true) f.
Proof.
  unfold isFence. destruct f as [|c f]; [done|].
  change (js "```") with ["`"%char; "`"%char; "`"%char]. cbn [startsWith].
  intros H%andb_true_iff. destruct H as [H _]. apply ascii_eqb_true in H.
  subst c. intros Hw%Forall_cons. by destruct Hw.
Qed.

Lemma NoteContentWith_text inl content :
  ¬ Forall (fun c => isWhite c = true) content →
  NoteContentWith inl content = Div (renderLines inl (splitLines content)).
Proof.
  intros H. unfold NoteContentWith, str_eqb.
  rewrite bool_decide_false.
  - rewrite bool_decide_false; [done|]. intros E. by apply trim_nil_white in E.
  - intros ->. apply H. constructor.
Qed.

Lemma fenced_text content pre f rest :
  splitLines content = pre ++ f :: rest → isFence f = true →
  ¬ Forall (fun c => isWhite c = true) content.
Proof.
  intros E Hf Hw. apply splitLines_white in Hw. rewrite E in Hw.
  apply Forall_app in Hw as [_ Hw]. apply Forall_cons in Hw as [Hw _].
  by apply (fence_not_white f).
Qed.

Lemma lineBlocks_length inl lines :
  Forall (fun l => isFence l = false) lines →
  length (flat_map (lineBlock inl) lines) = length lines.
Proof.
  induction 1 as [|l ls Hl _ IH]; [done|].
  cbn [flat_map length]. rewrite length_app, lineBlock_one by done.
  by rewrite IH.
Qed.

(** X5. Outside code blocks the note is rendered line by line: when no
    line starts with a fence, every line gives exactly one block and that
    block depends on its line alone.  In every note there are at most as
    many blocks as lines. *)
Theorem NoteContent_line_by_line (inl : str -> list Inline) (content : str) :
  trim content ≠ [] →
  Forall (fun l => isFence l = false) (splitLines content) →
  NoteContentWith inl content
  = Div (flat_map (lineBlock inl) (splitLines content))
  ∧ length (blocksOf (NoteContentWith inl content))
    = length (splitLines content)
  ∧ ∀ other, length (blocksOf (NoteContentWith inl other))
             ≤ length (splitLines other).
Proof.
  intros Ht Hl.
  assert (E : NoteContentWith inl content
              = Div (flat_map (lineBlock inl) (splitLines content))).
  { rewrite NoteContentWith_text.
    - by rewrite renderLines_fence_free.
    - intros Hw. by apply trim_white in Hw. }
  split; [done|]. split.
  - rewrite E. cbn [blocksOf]. by apply lineBlocks_length.
  - intros other. unfold NoteContentWith.
    destruct (str_eqb other [] || str_eqb (trim other) []); cbn [blocksOf length].
    + lia.
    + apply renderLines_length.
Qed.

Lemma NoteContent_line_by_line_witness :
  trim (js "# Sapiens" ++ ["010"%char] ++ js "Read [[c1]].") ≠ []
  ∧ NoteContent (js "# Sapiens" ++ ["010"%char] ++ js "Read [[c1]].")
    = Div [ H1 (renderInlineContent (js "Sapiens"));
            P (renderInlineContent (js "Read [[c1]].")) ].
Proof.
  assert (Ht : trim (js "# Sapiens" ++ ["010"%char] ++ js "Read [[c1]].") ≠ [])
    by (vm_compute; discriminate).
  assert (Hl : Forall (fun l => isFence l = false)
                 (splitLines (js "# Sapiens" ++ ["010"%char] ++ js "Read [[c1]].")))
    by (apply (bool_decide_unpack _); vm_compute; exact I).
  split; [exact Ht|].
  exact (proj1 (NoteContent_line_by_line renderInlineContent _ Ht Hl)).
Defined.

(** X6. A fence that is never closed hides the rest of the note: the
    fence line and every line after it give no block at all. *)
Theorem NoteContent_unclosed_fence (inl : str -> list Inline)
    (content : str) (pre : list str) (f : str) (rest : list str) :
  splitLines content = pre ++ f :: rest →
  Forall (fun l => isFence l = false) pre →
  isFence f = true →
  Forall (fun l => isFence l = false) rest →
  NoteContentWith inl content = Div (flat_map (lineBlock inl) pre).
Proof.
  intros E Hpre Hf Hrest.
  rewrite NoteContentWith_text by (by eapply fenced_text).
  rewrite E. by rewrite renderLines_unclosed.
Qed.

Lemma NoteContent_unclosed_fence_witness :
  NoteContent (js "Intro" ++ ["010"%char] ++ js "```js" ++ ["010"%char]
               ++ js "see [[c1]]")
  = Div [P (renderInlineContent (js "Intro"))].
Proof.
  apply (NoteContent_unclosed_fence renderInlineContent _
           [js "Intro"] (js "```js") [js "see [[c1]]"]).
  - vm_compute. reflexivity.
  - repeat constructor.
  - reflexivity.
  - repeat constructor.
Defined.

(** X7. A closed code block is one [pre] element holding its lines as
    they are, each followed by a line feed; whatever follows the opening
    and the closing fence on their lines is dropped, no link inside the
    block becomes a button, and what comes after the block is rendered as
    a note of its own. *)
Theorem NoteContent_code_block (inl : str -> list Inline)
    (content : str) (pre : list str) (f1 : str) (body : list str) (f2 : str)
    (post : list str) :
  splitLines content = pre ++ f1 :: body ++ f2 :: post →
  Forall (fun l => isFence l = false) pre →
  isFence f1 = true →
  Forall (fun l => isFence l = false) body →
  isFence f2 = true →
  NoteContentWith inl content
  = Div (flat_map (lineBlock inl) pre ++ [Pre (codeOf body)]
         ++ renderLines inl post)
  ∧ renderedLinks (NoteContentWith inl content)
    = flat_map (fun b => linkUnits (inlinesOf b)) (flat_map (lineBlock inl) pre)
      ++ flat_map (fun b => linkUnits (inlinesOf b)) (renderLines inl post).
Proof.
  intros E Hpre Hf1 Hbody Hf2.
  assert (E2 : NoteContentWith inl content
          = Div (flat_map (lineBlock inl) pre ++ [Pre (codeOf body)]
                 ++ renderLines inl post)).
  { rewrite NoteContentWith_text by (by eapply fenced_text).
    rewrite E. by rewrite renderLines_fenced. }
  split; [done|]. rewrite E2. unfold renderedLinks. cbn [blocksOf].
  rewrite !flat_map_app. done.
Qed.


Lemma NoteContent_code_block_witness :
  NoteContent (js "Intro" ++ ["010"%char] ++ js "```js" ++ ["010"%char]
               ++ js "let a = [[1]];" ++ ["010"%char] ++ js "```"
               ++ ["010"%char] ++ js "See [[c1]].")
  = Div [ P (renderInlineContent (js "Intro"));
          Pre (js "let a = [[1]];" ++ ["010"%char]);
          P (renderInlineContent (js "See [[c1]].")) ]
  ∧ renderedLinks
      (NoteContent (js "Intro" ++ ["010"%char] ++ js "```js" ++ ["010"%char]
                    ++ js "let a = [[1]];" ++ ["010"%char] ++ js "```"
                    ++ ["010"%char] ++ js "See [[c1]]."))
    = [(js "c1", js "c1")].
Proof.
  assert (H1 : splitLines (js "Intro" ++ ["010"%char] ++ js "```js" ++ ["010"%char]
                 ++ js "let a = [[1]];" ++ ["010"%char] ++ js "```"
                 ++ ["010"%char] ++ js "See [[c1]].")
               = [js "Intro"] ++ js "```js" :: [js "let a = [[1]];"]
                 ++ js "```" :: [js "See [[c1]]."])
    by (vm_compute; reflexivity).
  assert (H2 : Forall (fun l => isFence l = false) [js "Intro"])
    by (repeat constructor).
  assert (H3 : Forall (fun l => isFence l = false) [js "let a = [[1]];"])
    by (repeat constructor).
  pose proof (NoteContent_code_block renderInlineContent _ _ _ _ _ _
                H1 H2 eq_refl H3 eq_refl) as [E1 E2].
  split; [exact E1|]. unfold NoteContent. rewrite E2. vm_compute. reflexivity.
Defined.

(** ** Line markers *)

Lemma match_at_numbered ds w rest :
  ds ≠ [] → Forall (fun c => isDigit c = true) ds → isWhite w = true →
  match_at Pat.numbered 0 (ds ++ "."%char :: w :: rest)
  = Some (ds ++ ["."%char; w], [None]).
Proof.
  intros Hne Hds Hw. unfold match_at, Pat.numbered, chr. cbn [rmatch].
  apply plus_k_run; [done|done|done|].
  cbn beta iota. rewrite cls_ok_chr. unfold cls_ok at 1. rewrite Hw.
  f_equal. f_equal. apply take_whole. by list_norm.
Qed.

Lemma digit_first ds (rest : str) :
  ds ≠ [] → Forall (fun c => isDigit c = true) ds →
  ∃ d tl, ds ++ rest = d :: tl ∧ isDigit d = true.
Proof.
  intros Hne Hds. destruct ds as [|d ds]; [done|].
  apply Forall_cons in Hds as [Hd _]. by exists d, (ds ++ rest).
Qed.

(** A digit is none of the characters a marker starts with. *)
Lemma digit_no_marker d :
  isDigit d = true →
  d ≠ "`"%char ∧ d ≠ "#"%char ∧ d ≠ ">"%char ∧ d ≠ "-"%char ∧ d ≠ "*"%char.
Proof.
  intros H. repeat split; intros ->; vm_compute in H; discriminate.
Qed.

Lemma startsWith_nil s : startsWith s [] = true.
Proof. by destruct s. Qed.

Lemma startsWith_app p t : startsWith (p ++ t) p = true.
Proof.
  induction p as [|c p IH]; [apply startsWith_nil|].
  cbn [app startsWith]. by rewrite ascii_eqb_refl.
Qed.

Lemma startsWith_other c d s p : c ≠ d → startsWith (d :: s) (c :: p) = false.
Proof.
  intros H. cbn [startsWith]. apply andb_false_iff. left.
  by apply ascii_eqb_false.
Qed.

(** X8. Markers are taken off: a heading, a quote and a list item hold the
    inline rendering of the line without its marker.  A numbered item loses
    all its digits, the dot and the one white-space character after it; a
    bullet item loses its dash or asterisk and the white-space character
    after it. *)
Theorem lineBlock_markers (inl : str -> list Inline) (t : str) :
  lineBlock inl (js "### " ++ t) = [H3 (inl t)]
  ∧ lineBlock inl (js "## " ++ t) = [H2 (inl t)]
  ∧ lineBlock inl (js "# " ++ t) = [H1 (inl t)]
  ∧ lineBlock inl (js "> " ++ t) = [Blockquote (inl t)]
  ∧ (∀ m w, m = "-"%char ∨ m = "*"%char → isWhite w = true →
            lineBlock inl (m :: w :: t) = [Li (inl t)])
  ∧ (∀ ds w, ds ≠ [] → Forall (fun c => isDigit c = true) ds →
             isWhite w = true →
             lineBlock inl (ds ++ "."%char :: w :: t) = [LiDecimal (inl t)]).
Proof.
  split; [|split; [|split; [|split; [|split]]]].
  - unfold lineBlock, lineStep, push. rewrite (startsWith_app (js "### ") t).
    change (startsWith (js "### " ++ t) (js "```")) with false. reflexivity.
  - unfold lineBlock, lineStep, push. rewrite (startsWith_app (js "## ") t).
    change (startsWith (js "## " ++ t) (js "```")) with false.
    change (startsWith (js "## " ++ t) (js "### ")) with false. reflexivity.
  - unfold lineBlock, lineStep, push. rewrite (startsWith_app (js "# ") t).
    change (startsWith (js "# " ++ t) (js "```")) with false.
    change (startsWith (js "# " ++ t) (js "### ")) with false.
    change (startsWith (js "# " ++ t) (js "## ")) with false. reflexivity.
  - unfold lineBlock, lineStep, push. rewrite (startsWith_app (js "> ") t).
    change (startsWith (js "> " ++ t) (js "```")) with false.
    change (startsWith (js "> " ++ t) (js "### ")) with false.
    change (startsWith (js "> " ++ t) (js "## ")) with false.
    change (startsWith (js "> " ++ t) (js "# ")) with false. reflexivity.
  - intros m w Hm Hw. unfold lineBlock, lineStep, push.
    assert (Hb : matchesAtStart Pat.bullet 0 (m :: w :: t) = true).
    { unfold matchesAtStart, match_at, Pat.bullet. cbn [rmatch].
      unfold cls_ok. rewrite Hw.
      destruct Hm as [-> | ->]; by apply bool_decide_eq_true. }
    destruct Hm as [-> | ->].
    + change (startsWith ("-"%char :: w :: t) (js "```")) with false.
      change (startsWith ("-"%char :: w :: t) (js "### ")) with false.
      change (startsWith ("-"%char :: w :: t) (js "## ")) with false.
      change (startsWith ("-"%char :: w :: t) (js "# ")) with false.
      change (startsWith ("-"%char :: w :: t) (js "> ")) with false.
      cbn [inCodeBlock negb elements app]. by rewrite Hb.
    + change (startsWith ("*"%char :: w :: t) (js "```")) with false.
      change (startsWith ("*"%char :: w :: t) (js "### ")) with false.
      change (startsWith ("*"%char :: w :: t) (js "## ")) with false.
      change (startsWith ("*"%char :: w :: t) (js "# ")) with false.
      change (startsWith ("*"%char :: w :: t) (js "> ")) with false.
      cbn [inCodeBlock negb elements app]. by rewrite Hb.
  - intros ds w Hne Hds Hw. unfold lineBlock, lineStep, push.
    destruct (digit_first ds ("."%char :: w :: t) Hne Hds) as (d & tl & E & Hd).
    destruct (digit_no_marker d Hd) as (H1 & H2 & H3 & H4 & H5).
    assert (Hs : ∀ c p, d ≠ c → startsWith (d :: tl) (c :: p) = false).
    { intros c p Hc. apply startsWith_other. congruence. }
    assert (Hnb : matchesAtStart Pat.bullet 0 (d :: tl) = false).
    { assert (Hm : match_at Pat.bullet 0 (d :: tl) = None).
      { unfold match_at, Pat.bullet. cbn [rmatch]. unfold cls_ok at 1.
        cbn [existsb]. rewrite (proj2 (ascii_eqb_false d "-")) by done.
        by rewrite (proj2 (ascii_eqb_false d "*")) by done. }
      unfold matchesAtStart. rewrite Hm. by apply bool_decide_eq_false. }
    assert (Hn : matchesAtStart Pat.numbered 0 (ds ++ "."%char :: w :: t) = true).
    { unfold matchesAtStart. rewrite match_at_numbered by done.
      by apply bool_decide_eq_true. }
    assert (Hr : removeAtStart Pat.numbered 0 (ds ++ "."%char :: w :: t) = t).
    { unfold removeAtStart. rewrite match_at_numbered by done.
      replace (ds ++ "."%char :: w :: t) with ((ds ++ ["."%char; w]) ++ t)
        by (by list_norm).
      by rewrite drop_app_length. }
    rewrite Hn, Hr. rewrite E.
    change (js "```") with ("`"%char :: js "``").
    change (js "### ") with ("#"%char :: js "## ").
    change (js "## ") with ("#"%char :: js "# ").
    change (js "# ") with ("#"%char :: js " ").
    change (js "> ") with (">"%char :: js " ").
    rewrite !Hs by done. rewrite Hnb. reflexivity.
Qed.


(** Four hashes make no heading, and a numbered item needs the white space
    after its dot. *)
Example lineBlock_not_markers :
  lineBlock renderInline (js "#### Deep") = [P (renderInline (js "#### Deep"))]
  ∧ lineBlock renderInline (js "1.5 litres")
    = [P (renderInline (js "1.5 litres"))]
  ∧ lineBlock renderInline (js "12. twelfth")
    = [LiDecimal (renderInline (js "twelfth"))].
Proof. repeat split; vm_compute; reflexivity. Qed.


(** ** [processInlineStyles] *)

(** X9. [processInlineStyles] of the first single-note page leaves text
    without opening bracket, asterisk and backtick as it is, and wraps a
    link between such text in a span that keeps the brackets: the link is
    coloured, not clickable. *)
Theorem processInlineStyles_link (a x b : str) :
  plain a → plain x → plain b →
  ("["%char ∉ a) → ("["%char ∉ b) → x ≠ [] → ("]"%char ∉ x) →
  processInlineStyles a = a
  ∧ processInlineStyles (a ++ js "[[" ++ x ++ js "]]" ++ b)
    = a ++ js "<span class=" ++ [dq] ++ js "text-[var(--color-accent-500)]"
        ++ [dq] ++ js ">[[" ++ x ++ js "]]</span>" ++ b.
Proof.
  intros [Ha1 Ha2] [Hx1 Hx2] [Hb1 Hb2] Hao Hbo Hne Hx.
  unfold processInlineStyles. split.
  - rewrite (replaceAll_no_match Pat.wikiLinkPatternNoAlias)
      by (by apply search_chr_absent).
    unfold Pat.bold, Pat.italic, Pat.code.
    rewrite (replaceAll_chr_absent "*" _ 1 Tmpl.strong a Ha1).
    rewrite (replaceAll_chr_absent "*" _ 1 Tmpl.em a Ha1).
    exact (replaceAll_chr_absent "`" _ 1 Tmpl.code a Ha2).
  - assert (E : replaceAll Pat.wikiLinkPatternNoAlias 1 wikiSpan
                  (a ++ js "[[" ++ x ++ js "]]" ++ b)
                = a ++ expand wikiSpan
                         (mkMatch (length a) (bracketSource x) [None; Some x])
                    ++ b).
    { replace (a ++ js "[[" ++ x ++ js "]]" ++ b)
        with (a ++ bracketSource x ++ b)
        by (unfold bracketSource; by list_norm).
      apply replaceAll_single.
      - done.
      - unfold Pat.wikiLinkPatternNoAlias at 1. rewrite search_skip by done.
        pose proof (match_at_bracket x b (conj Hne Hx)) as Hm.
        unfold bracketSource in *.
        change (js "[[") with ["["%char; "["%char] in *.
        cbn [app search] in *. list_norm. cbn [app].
        fold Pat.wikiLinkPatternNoAlias. 
        replace ("["%char :: "["%char :: x ++ js "]]" ++ b)
          with ("["%char :: "["%char :: (x ++ js "]]") ++ b) by (by list_norm).
        rewrite Hm. done.
      - unfold Pat.wikiLinkPatternNoAlias. by apply search_chr_absent. }
    rewrite E. cbn [expand wikiSpan flat_map group groups lookup list_lookup
                    mjoin option_join default from_option id].
    rewrite app_nil_r.
    assert (Hs1 : plain (js "<span class=" ++ [dq]
                         ++ js "text-[var(--color-accent-500)]" ++ [dq] ++ js ">[["))
      by (by apply plain_closed).
    assert (Hs2 : plain (js "]]</span>")) by (by apply plain_closed).
    assert (Hp : plain (a ++ ((js "<span class=" ++ [dq]
                         ++ js "text-[var(--color-accent-500)]" ++ [dq] ++ js ">[[")
                              ++ x ++ js "]]</span>") ++ b)).
    { apply plain_app; [done|]. apply plain_app; [|done].
      apply plain_app; [done|]. by apply plain_app. }
    destruct Hp as [Hp1 Hp2]. unfold Pat.bold, Pat.italic, Pat.code.
    rewrite (replaceAll_chr_absent "*" _ 1 Tmpl.strong _ Hp1).
    rewrite (replaceAll_chr_absent "*" _ 1 Tmpl.em _ Hp1).
    rewrite (replaceAll_chr_absent "`" _ 1 Tmpl.code _ Hp2).
    by list_norm.
Qed.

Lemma processInlineStyles_link_witness :
  plain (js "See ") ∧ plain (js "c1") ∧ plain (js ".")
  ∧ processInlineStyles (js "See [[c1]].")
    = js "See <span class=" ++ [dq] ++ js "text-[var(--color-accent-500)]"
      ++ [dq] ++ js ">[[c1]]</span>.".
Proof.
  assert (Ha : plain (js "See ")) by (by apply plain_closed).
  assert (Hx : plain (js "c1")) by (by apply plain_closed).
  assert (Hb : plain (js ".")) by (by apply plain_closed).
  assert (H1 : "["%char ∉ js "See ")
    by (apply (bool_decide_unpack _); vm_compute; exact I).
  assert (H2 : "["%char ∉ js ".")
    by (apply (bool_decide_unpack _); vm_compute; exact I).
  assert (H3 : "]"%char ∉ js "c1")
    by (apply (bool_decide_unpack _); vm_compute; exact I).
  assert (Hne : js "c1" ≠ []) by done.
  split; [exact Ha|]. split; [exact Hx|]. split; [exact Hb|].
  exact (proj2 (processInlineStyles_link _ _ _ Ha Hx Hb H1 H2 Hne H3)).
Defined.

(** Unlike in [renderInline], bold, italic and code inside the brackets
    are formatted too. *)
Example processInlineStyles_formats_inside_links :
  processInlineStyles (js "[[a *b* c]]")
  = js "<span class=" ++ [dq] ++ js "text-[var(--color-accent-500)]" ++ [dq]
    ++ js ">[[a <em>b</em> c]]</span>"
  ∧ renderInline (js "[[a *b* c]]") = [Button (js "a *b* c") (js "a *b* c")].
Proof. split; vm_compute; reflexivity. Qed.


(** ** The single-note page: link resolution *)



(** The two pages resolve the same link differently: the single-note page
    takes the first result with the title, the notes page the one in the
    book of the note shown. *)
Example slug_link_ignores_book :
  handleWikiLinkClickSlug Example.api (js "chapter 1") = Some (js "/notes/o1")
  ∧ exactMatch (ui Example.shown) (js "chapter 1")
      [Example.meta Example.other; Example.meta Example.c1]
    = Some (Example.meta Example.c1).
Proof. split; vm_compute; reflexivity. Qed.

(** ** Restoring: what every restore does *)

(** What every restore does, whatever is stored and answered. *)
Lemma handlePopState_run (api : Api) (s : Sys) :
  (∀ st,
     let s' := runTask api (handlePopState (Some st)) s in
     browser s' = browser s
     ∧ isRestoringState (ui s') = false
     ∧ noteLoading (ui s') = false
     ∧ viewLevel (ui s') = NavigationState.viewLevel st
     ∧ selectedCategory (ui s') = NavigationState.selectedCategory st
     ∧ selectedBook (ui s') = NavigationState.selectedBook st
     ∧ searchQuery (ui s') = []
     ∧ (truthy (NavigationState.noteId st) = false →
        requestsIn (log s') = requestsIn (log s)
        ∧ currentNote (ui s') = None ∧ noteHistory (ui s') = []))
  ∧ (let s' := runTask api (handlePopState None) s in
     browser s' = browser s
     ∧ requestsIn (log s') = requestsIn (log s)
     ∧ viewLevel (ui s') = VCategories
     ∧ selectedCategory (ui s') = None ∧ selectedBook (ui s') = None
     ∧ currentNote (ui s') = None ∧ noteHistory (ui s') = []
     ∧ searchQuery (ui s') = []
     ∧ isRestoringState (ui s') = isRestoringState (ui s)).
Proof.
  split.
  - intros st. cbv zeta. unfold runTask, handlePopState.
    destruct st as [vl cat book nid ids].
    cbn [NavigationState.noteId NavigationState.noteHistoryIds
         NavigationState.viewLevel NavigationState.selectedCategory
         NavigationState.selectedBook].
    destruct nid as [[|c nid]|]; cbn [truthy from_option default id].
    + sys_simpl. repeat split; done.
    + destruct (fetchNote api (c :: nid)) as [fetched|] eqn:Hf.
      * destruct ids as [|i0 ids].
        -- rewrite bool_decide_false by (cbn; lia).
           sys_simpl; rewrite Hf; sys_simpl. repeat split; done.
        -- rewrite bool_decide_true by (cbn; lia).
           generalize (i0 :: ids). clear i0 ids. intros ids.
           destruct (fetchAll api ids) as [hs|] eqn:Ha;
             sys_simpl; rewrite Hf; sys_simpl; rewrite ?Ha; sys_simpl;
             repeat split; done.
      * destruct (bool_decide (0 < length ids));
          sys_simpl; rewrite Hf; sys_simpl; repeat split; done.
    + sys_simpl. repeat split; done.
  - cbv zeta. unfold runTask, handlePopState. sys_simpl. repeat split; done.
Qed.

(** X11. Whatever the stored state and whatever the backend answers, a
    restore never writes to the browser history, ends with the guard flag
    and the note spinner off, sets view level, category and book to the
    stored ones and empties the search query.  A stored state without a note
    id (or with an empty one) is restored without any request and leaves no
    note and an empty history stack; an entry without stored state resets
    the page to the categories, again without a request. *)
Theorem handlePopState_frame (api : Api) (s : Sys) :
  (∀ st,
     let s' := runTask api (handlePopState (Some st)) s in
     browser s' = browser s
     ∧ isRestoringState (ui s') = false
     ∧ noteLoading (ui s') = false
     ∧ viewLevel (ui s') = NavigationState.viewLevel st
     ∧ selectedCategory (ui s') = NavigationState.selectedCategory st
     ∧ selectedBook (ui s') = NavigationState.selectedBook st
     ∧ searchQuery (ui s') = []
     ∧ (truthy (NavigationState.noteId st) = false →
        requestsIn (log s') = requestsIn (log s)
        ∧ currentNote (ui s') = None ∧ noteHistory (ui s') = []))
  ∧ (let s' := runTask api (handlePopState None) s in
     browser s' = browser s
     ∧ requestsIn (log s') = requestsIn (log s)
     ∧ viewLevel (ui s') = VCategories
     ∧ selectedCategory (ui s') = None ∧ selectedBook (ui s') = None
     ∧ currentNote (ui s') = None ∧ noteHistory (ui s') = []
     ∧ searchQuery (ui s') = []
     ∧ isRestoringState (ui s') = isRestoringState (ui s)).
Proof. apply handlePopState_run. Qed.


(** ** Restoring the description of a page *)

(** X13. Restoring is the inverse of describing: for a page state whose
    current note (with a non-empty id) and history notes the backend returns
    as they are, and whose history stack is empty when there is no current
    note, the restore of its description, started from any state, brings
    back view level, category, book, current note and history stack. *)
Theorem restore_of_snapshot (api : Api) (s : Sys) (p : PageState) :
  match currentNote p with
  | Some cur =>
      Note.id cur ≠ []
      ∧ fetchNote api (Note.id cur) = Some cur
      ∧ fetchAll api (map Note.id (noteHistory p)) = Some (noteHistory p)
  | None => noteHistory p = []
  end →
  let s' := runTask api (handlePopState (Some (snapshot p))) s in
  viewLevel (ui s') = viewLevel p
  ∧ selectedCategory (ui s') = selectedCategory p
  ∧ selectedBook (ui s') = selectedBook p
  ∧ currentNote (ui s') = currentNote p
  ∧ noteHistory (ui s') = noteHistory p
  ∧ snapshot (ui s') = snapshot p.
Proof.
  intros H. cbv zeta.
  assert (E : let s' := runTask api (handlePopState (Some (snapshot p))) s in
              viewLevel (ui s') = viewLevel p
              ∧ selectedCategory (ui s') = selectedCategory p
              ∧ selectedBook (ui s') = selectedBook p
              ∧ currentNote (ui s') = currentNote p
              ∧ noteHistory (ui s') = noteHistory p).
  { cbv zeta. unfold runTask, handlePopState, snapshot.
    cbn [NavigationState.noteId NavigationState.noteHistoryIds
         NavigationState.viewLevel NavigationState.selectedCategory
         NavigationState.selectedBook].
    destruct (currentNote p) as [cur|] eqn:Hcur; cbn [option_map].
    - destruct H as (Hne & Hf & Ha).
      destruct (Note.id cur) as [|c nid] eqn:Hid; [done|].
      cbn [truthy from_option default id].
      destruct (noteHistory p) as [|h hs] eqn:Hh.
      + cbn [map length]. rewrite bool_decide_false by lia.
        sys_simpl; rewrite Hf; sys_simpl. repeat split; done.
      + rewrite bool_decide_true by (cbn; lia).
        sys_simpl; rewrite Hf; sys_simpl; rewrite Ha; sys_simpl.
        repeat split; done.
    - cbn [truthy]. rewrite H. sys_simpl. repeat split; done. }
  cbv zeta in E. set (s' := runTask api _ s) in *.
  destruct E as (E1 & E2 & E3 & E4 & E5).
  repeat split; try done. unfold snapshot. by rewrite E1, E2, E3, E4, E5.
Qed.


Lemma restore_of_snapshot_witness :
  fetchAll Example.api [js "root"] = Some [Example.root]
  ∧ let p := setNoteHistory [Example.root]
               (setCurrentNote (Some Example.c1) (ui Example.shown)) in
    snapshot p = Example.stateC1
    ∧ snapshot (ui (runTask Example.api (handlePopState (Some (snapshot p)))
                      (mkSys initialPageState Example.session None [])))
      = Example.stateC1.
Proof.
  assert (Ha : fetchAll Example.api [js "root"] = Some [Example.root])
    by (vm_compute; reflexivity).
  split; [exact Ha|]. cbv zeta. split; [reflexivity|].
  refine (proj2 (proj2 (proj2 (proj2 (proj2
            (restore_of_snapshot Example.api
               (mkSys initialPageState Example.session None [])
               (setNoteHistory [Example.root]
                  (setCurrentNote (Some Example.c1) (ui Example.shown))) _)))))).
  cbn [currentNote setNoteHistory setCurrentNote].
  split; [vm_compute; discriminate|]. split; [vm_compute; reflexivity|exact Ha].
Defined.

(** ** A click on a search result *)


(** ** Handlers that only reset *)

(** X15. The three buttons that lead back ("All Categories", the category
    of the breadcrumb, "Back to categories") issue no request and never
    write to the browser history.  "All Categories" clears category, book,
    note, history stack and query; the category of the breadcrumb keeps the
    category and clears book, note and history stack; "Back to categories"
    changes view level and category only: book, note and history stack stay
    as they are. *)
Theorem reset_handlers_outcome (api : Api) (s : Sys) :
  (let s' := runTask api resetToCategories s in
   browser s' = browser s ∧ requestsIn (log s') = requestsIn (log s)
   ∧ viewLevel (ui s') = VCategories
   ∧ selectedCategory (ui s') = None ∧ selectedBook (ui s') = None
   ∧ currentNote (ui s') = None ∧ noteHistory (ui s') = []
   ∧ searchQuery (ui s') = [])
  ∧ (let s' := runTask api handleCrumbCategoryClick s in
     browser s' = browser s ∧ requestsIn (log s') = requestsIn (log s)
     ∧ viewLevel (ui s') = VBooks
     ∧ selectedCategory (ui s') = selectedCategory (ui s)
     ∧ selectedBook (ui s') = None
     ∧ currentNote (ui s') = None ∧ noteHistory (ui s') = []
     ∧ searchQuery (ui s') = searchQuery (ui s))
  ∧ (let s' := runTask api handleBackToCategoriesClick s in
     browser s' = browser s ∧ requestsIn (log s') = requestsIn (log s)
     ∧ viewLevel (ui s') = VCategories
     ∧ selectedCategory (ui s') = None
     ∧ selectedBook (ui s') = selectedBook (ui s)
     ∧ currentNote (ui s') = currentNote (ui s)
     ∧ noteHistory (ui s') = noteHistory (ui s)
     ∧ searchQuery (ui s') = searchQuery (ui s)).
Proof.
  cbv zeta.
  unfold runTask, resetToCategories, handleCrumbCategoryClick,
    handleBackToCategoriesClick.
  sys_simpl. repeat split; done.
Qed.

(** ** The URL effect after a restore *)

(** The state a successful restore of a note leaves. *)
Lemma handlePopState_restored api s st nid fetched hs :
  NavigationState.noteId st = Some nid → nid ≠ [] →
  fetchNote api nid = Some fetched →
  fetchAll api (NavigationState.noteHistoryIds st) = Some hs →
  let s1 := runTask api (handlePopState (Some st)) s in
  isRestoringState (ui s1) = false
  ∧ currentNote (ui s1) = Some fetched
  ∧ noteHistory (ui s1) = match NavigationState.noteHistoryIds st with
                          | [] => []
                          | _ :: _ => hs
                          end
  ∧ browser s1 = browser s.
Proof.
  intros Hid Hne Hf Ha. cbv zeta. unfold runTask, handlePopState.
  destruct st as [vl cat book nid' ids]. cbn in Hid. subst nid'.
  destruct nid as [|c nid]; [done|].
  cbn [NavigationState.noteId NavigationState.noteHistoryIds
       NavigationState.viewLevel NavigationState.selectedCategory
       NavigationState.selectedBook truthy from_option default id] in *.
  destruct ids as [|i0 ids].
  - rewrite bool_decide_false by (cbn; lia).
    sys_simpl; rewrite Hf; sys_simpl. repeat split; done.
  - rewrite bool_decide_true by (cbn; lia).
    sys_simpl; rewrite Hf; sys_simpl; rewrite Ha; sys_simpl.
    repeat split; done.
Qed.

(** X16. The URL effect does nothing while a restore is in progress.  Run
    on the state a successful restore of a note leaves (the guard flag is
    off again) with neither a note nor a book parameter in the URL, it
    resets the page to the categories: the note and the history stack the
    restore brought back are cleared. *)
Theorem urlEffect_after_restore (api : Api) (s : Sys)
    (st : NavigationState.t) (nid : str) (fetched : Note.t)
    (hs : list Note.t) :
  NavigationState.noteId st = Some nid → nid ≠ [] →
  fetchNote api nid = Some fetched →
  fetchAll api (NavigationState.noteHistoryIds st) = Some hs →
  let s1 := runTask api (handlePopState (Some st)) s in
  let s2 := runTask api (urlEffect true (ui s1)) s1 in
  (∀ p b, isRestoringState p = true → urlEffect b p = Ret)
  ∧ currentNote (ui s1) = Some fetched
  ∧ viewLevel (ui s2) = VCategories
  ∧ selectedCategory (ui s2) = None ∧ selectedBook (ui s2) = None
  ∧ currentNote (ui s2) = None ∧ noteHistory (ui s2) = []
  ∧ browser s2 = browser s.
Proof.
  intros Hid Hne Hf Ha. cbv zeta.
  split; [intros p b Hp; unfold urlEffect; by rewrite Hp|].
  pose proof (handlePopState_restored api s st nid fetched hs Hid Hne Hf Ha) as H.
  cbv zeta in H. destruct H as (Hflag & Hc & _ & Hb).
  set (s1 := runTask api (handlePopState (Some st)) s) in *.
  split; [done|].
  unfold urlEffect. rewrite Hflag, Hc.
  rewrite bool_decide_true by done. cbn [andb orb].
  unfold runTask, resetToCategories. sys_simpl. repeat split; done.
Qed.


Lemma urlEffect_after_restore_witness :
  fetchNote Example.api (js "c1") = Some Example.c1
  ∧ let s1 := runTask Example.api (handlePopState (Some Example.stateC1))
                Example.shown in
    currentNote (ui s1) = Some Example.c1
    ∧ currentNote (ui (runTask Example.api (urlEffect true (ui s1)) s1)) = None
    ∧ viewLevel (ui (runTask Example.api (urlEffect true (ui s1)) s1))
      = VCategories.
Proof.
  assert (Hf : fetchNote Example.api (js "c1") = Some Example.c1)
    by (vm_compute; reflexivity).
  assert (Ha : fetchAll Example.api
                 (NavigationState.noteHistoryIds Example.stateC1)
               = Some [Example.root])
    by (vm_compute; reflexivity).
  assert (Hne : js "c1" ≠ []) by done.
  split; [exact Hf|].
  pose proof (urlEffect_after_restore Example.api Example.shown Example.stateC1
                (js "c1") Example.c1 [Example.root] eq_refl Hne Hf Ha)
    as (_ & H1 & H2 & _ & _ & H3 & _).
  cbv zeta. split; [exact H1|]. split; [exact H3|exact H2].
Defined.

(** ** The flags settle *)

Lemma flagsOff_searchEffect q s :
  flagsOff (ui s) → flagsOff (ui (searchEffect q s)).
Proof.
  unfold flagsOff. rewrite loading_searchEffect, isRestoringState_searchEffect.
  intros (? & Hs & ?). repeat split; try done.
  unfold searchEffect. repeat case_bool_decide; try done.
Qed.

Lemma flagsOff_execStmt st s :
  setsFlag st = false → flagsOff (ui s) → flagsOff (ui (execStmt st s)).
Proof.
  unfold flagsOff. intros Hst H.
  rewrite loading_execStmt, isSearching_execStmt, isRestoringState_execStmt.
  destruct st; try done.
Qed.

Lemma runIso_flagFree api t :
  flagFree t → ∀ q0 s, flagsOff (ui s) → flagsOff (ui (runIso api t q0 s)).
Proof.
  induction t as [|st k IH|id k IH|ids k IH|o qq k IH|k IH];
    cbn [flagFree]; intros Hfree q0 s H.
  - rewrite runIso_Ret. by apply flagsOff_searchEffect.
  - destruct Hfree as [Hst Hk]. rewrite runIso_Do. apply IH; [done|].
    by apply flagsOff_execStmt.
  - rewrite runIso_AwaitNote. apply IH; [done|].
    apply flagsOff_searchEffect. by rewrite ui_logRequests.
  - rewrite runIso_AwaitAll. apply IH; [done|].
    apply flagsOff_searchEffect. by rewrite ui_logRequests.
  - rewrite runIso_AwaitSearch. apply IH; [done|].
    apply flagsOff_searchEffect. by rewrite ui_logRequests.
  - rewrite runIso_AwaitStructure. apply IH; [done|].
    apply flagsOff_searchEffect. by rewrite ui_logRequests.
Qed.

Ltac flag_pred :=
  repeat first
    [ done
    | split
    | intros [?|]
    | progress cbn [flagFree setsFlag]
    | progress unfold pushNavigationState
    | case_match
    | case_bool_decide ].

Lemma navigateToNote_flagFree p id : flagFree (navigateToNote p id).
Proof. unfold navigateToNote, pushNavigationState. flag_pred. Qed.

Lemma urlEffect_flagFree b p : flagFree (urlEffect b p).
Proof. unfold urlEffect, resetToCategories. flag_pred. Qed.

Lemma handlerOf_flagFree p e t : handlerOf p e = Some t → flagFree t.
Proof.
  destruct e; cbn [handlerOf]; intros H; repeat case_match; try done;
    injection H as <-;
    unfold resetToCategories, handleCrumbCategoryClick, handleBookClick,
      handleSearchResultClick, handleCategoryClick,
      handleBackToCategoriesClick, handleWikiLinkClick;
    repeat first
      [ simple apply navigateToNote_flagFree
      | done
      | split
      | intros [?|]
      | progress cbn [flagFree setsFlag]
      | progress unfold pushNavigationState
      | case_match
      | case_bool_decide ].
Qed.

(** The restore sets the guard flag and releases it on every path; it
    assigns no other flag. *)
Lemma handlePopState_flagsOff api e q0 s :
  flagsOff (ui s) → flagsOff (ui (runIso api (handlePopState e) q0 s)).
Proof.
  intros H. destruct e as [st|].
  - unfold handlePopState.
    set (fin := SetNoteLoading false ;> SetIsRestoringState false ;> Ret).
    assert (Hfin : ∀ q s1, loading (ui s1) = false → isSearching (ui s1) = false →
                           flagsOff (ui (runIso api fin q s1))).
    { intros q s1 Hl Hs. unfold fin. rewrite !runIso_Do, runIso_Ret.
      apply flagsOff_searchEffect. unfold flagsOff. sys_simpl. done. }
    assert (Hcatch : ∀ q s1 msg, loading (ui s1) = false → isSearching (ui s1) = false →
              flagsOff (ui (runIso api (ConsoleError msg ;> SetCurrentNote None ;>
                                        SetNoteHistory [] ;> fin) q s1))).
    { intros q s1 msg Hl Hs. rewrite !runIso_Do. apply Hfin; sys_simpl; done. }
    assert (Hse : ∀ q s1, isSearching (ui s1) = false →
                          isSearching (ui (searchEffect q s1)) = false).
    { intros q s1 Hs. unfold searchEffect. repeat case_bool_decide; done. }
    destruct H as (Hl & Hs & Hr).
    rewrite !runIso_Do.
    destruct (truthy (NavigationState.noteId st)).
    + rewrite runIso_Do, runIso_AwaitNote.
      match goal with |- context [searchEffect q0 ?x] => set (s1 := x) end.
      assert (Hl1 : loading (ui (searchEffect q0 s1)) = false)
        by (unfold s1; sys_simpl; done).
      assert (Hs1 : isSearching (ui (searchEffect q0 s1)) = false).
      { apply Hse. unfold s1. sys_simpl. done. }
      destruct (fetchNote api _) as [fetched|]; [|by apply Hcatch].
      rewrite runIso_Do. case_bool_decide.
      * rewrite runIso_AwaitAll.
        match goal with |- context [searchEffect ?q (logRequests ?r ?x)] =>
          set (s2 := searchEffect q (logRequests r x)) end.
        assert (Hl2 : loading (ui s2) = false)
          by (unfold s2; sys_simpl; done).
        assert (Hs2 : isSearching (ui s2) = false).
        { apply Hse. sys_simpl. done. }
        destruct (fetchAll api _) as [hs|]; [|by apply Hcatch].
        rewrite runIso_Do. apply Hfin; sys_simpl; done.
      * rewrite runIso_Do. apply Hfin; sys_simpl; done.
    + rewrite !runIso_Do. apply Hfin; sys_simpl; done.
  - apply runIso_flagFree; [|done]. unfold handlePopState. flag_pred.
Qed.

(** The callback of the timeout turns the search spinner on and, on both
    outcomes, off again. *)
Lemma searchCallback_flagsOff api query q0 s :
  flagsOff (ui s) → flagsOff (ui (runIso api (searchCallback query) q0 s)).
Proof.
  intros (Hl & Hs & Hr). unfold searchCallback.
  rewrite runIso_Do, runIso_AwaitSearch.
  destruct (searchNotes api query); rewrite !runIso_Do, runIso_Ret;
    apply flagsOff_searchEffect; unfold flagsOff; sys_simpl; done.
Qed.

Lemma starts_flagsOff api w e t s0 :
  flagsOff (ui (sys w)) → Starts w e t s0 →
  flagsOff (ui (runTask api t s0)).
Proof.
  intros H Hst. unfold runTask.
  destruct Hst as [e t Hho|e target He Hlt|q Hq|b].
  - apply runIso_flagFree; [|done]. by apply (handlerOf_flagFree (ui (sys w)) e).
  - by apply handlePopState_flagsOff.
  - by apply searchCallback_flagsOff.
  - apply runIso_flagFree; [|done]. apply urlEffect_flagFree.
Qed.

Lemma mount_flagsOff api b : flagsOff (ui (sys (settle api 2 (mount b)))).
Proof.
  rewrite mount_settled. cbn [sys]. unfold runTask, structureEffect.
  rewrite runIso_Do, runIso_AwaitStructure.
  destruct (fetchVaultStructure api); rewrite !runIso_Do, runIso_Ret;
    apply flagsOff_searchEffect; unfold flagsOff; sys_simpl; done.
Qed.

Lemma seqRun_flagsOff eas : ∀ w w',
  pending w = [] → flagsOff (ui (sys w)) → seqRun w eas = Some w' →
  pending w' = [] ∧ flagsOff (ui (sys w')).
Proof.
  induction eas as [|ea eas IH]; intros w w' Hp Hf H; cbn [seqRun] in H.
  - by injection H as <-.
  - destruct (seqStep w ea) as [w1|] eqn:Hs; [|done].
    destruct (seqStep_starts w ea w1 Hp Hs) as (t & s0 & Hst & ->).
    apply (IH (mkWorld (runTask ea.2 t s0) []) w'); [done| |done]. cbn [sys].
    by apply (starts_flagsOff _ w ea.1).
Qed.

(** X17. In a run in which every request is answered before the next
    event, no flag is left on: once the structure has been requested and
    answered, in every state between two events the page-level spinner and
    the search spinner are off and no restore is in progress (so pushes are
    not suppressed), whatever requests failed on the way. *)
Theorem flags_settle (w : World) :
  seqReachable w →
  loading (ui (sys w)) = false
  ∧ isSearching (ui (sys w)) = false
  ∧ isRestoringState (ui (sys w)) = false.
Proof.
  intros (b & api & eas & Hb & Hrun).
  destruct (seqRun_flagsOff eas (settle api 2 (mount b)) w) as [_ H];
    [by rewrite mount_settled|apply mount_flagsOff|done|done].
Qed.


Lemma flags_settle_witness :
  seqReachable Example.atC1
  ∧ isRestoringState (ui (sys Example.atC1)) = false
  ∧ loading (ui (sys Example.atC1)) = false.
Proof.
  split; [apply seqReachable_atC1|].
  pose proof (flags_settle Example.atC1 seqReachable_atC1) as (H1 & _ & H3).
  split; [exact H3|exact H1].
Defined.

(** ** The debounce of the search box *)

Lemma step_TypeQuery w q :
  step w (TypeQuery q)
  = Some (mkWorld
            (searchEffect (searchQuery (ui (sys w)))
               (execStmt (SetSearchQuery q) (sys w)))
            (pending w)).
Proof.
  cbn [step handlerOf]. rewrite spawn_eq.
  rewrite (proj1 (segment_sys _ _)), (proj2 (segment_sys _ _)).
  cbn [advance fst snd]. unfold issue. cbn [requestsOf].
  by rewrite logRequests_nil, app_nil_r.
Qed.

(** X18. Every keystroke that changes the query cancels the timeout armed
    before it and issues no request.  A query shorter than two characters
    empties the results at once and arms nothing; a longer one arms a new
    timeout and leaves the results of the previous query on display.  When
    a timeout fires, exactly one search, for the query it was armed with, is
    issued and no timeout is left: of a burst of keystrokes only the last
    query is searched for. *)
Theorem typing_rearms_timer (w : World) :
  (∀ q, q ≠ searchQuery (ui (sys w)) →
        ∃ w', step w (TypeQuery q) = Some w'
              ∧ searchQuery (ui (sys w')) = q
              ∧ requestsIn (log (sys w')) = requestsIn (log (sys w))
              ∧ pending w' = pending w
              ∧ if bool_decide (2 ≤ length q)
                then timer (sys w') = Some q
                     ∧ searchResults (ui (sys w')) = searchResults (ui (sys w))
                else timer (sys w') = None
                     ∧ searchResults (ui (sys w')) = [])
  ∧ (∀ w', step w TimerFires = Some w' →
           ∃ q, timer (sys w) = Some q
                ∧ timer (sys w') = None
                ∧ requestsIn (log (sys w'))
                  = requestsIn (log (sys w)) ++ [ReqSearch FromSearchBox q]
                ∧ searchQuery (ui (sys w')) = searchQuery (ui (sys w)))
  ∧ (timer (sys w) = None → step w TimerFires = None).
Proof.
  split; [|split].
  - intros q Hq. eexists. split; [apply step_TypeQuery|]. cbn [sys pending].
    rewrite searchQuery_searchEffect, searchQuery_execStmt.
    rewrite requestsIn_searchEffect, requestsIn_execStmt.
    repeat split; try done.
    assert (E : searchEffect (searchQuery (ui (sys w)))
                  (execStmt (SetSearchQuery q) (sys w))
                = let s1 := setTimer None (execStmt (SetSearchQuery q) (sys w)) in
                  if bool_decide (length q < 2)
                  then execStmt (SetIsSearching false)
                         (execStmt (SetSearchResults []) s1)
                  else setTimer (Some q) s1).
    { unfold searchEffect. rewrite searchQuery_execStmt.
      rewrite (bool_decide_false (q = _)) by done. cbn [ui setTimer].
      by rewrite searchQuery_execStmt. }
    rewrite E. cbv zeta. clear E.
    destruct (decide (length q < 2)) as [Hlt|Hge].
    + rewrite (bool_decide_true (length q < 2)) by done.
      rewrite (bool_decide_false (2 ≤ length q)) by lia.
      by rewrite !timer_execStmt, searchResults_execStmt, searchResults_execStmt.
    + rewrite (bool_decide_false (length q < 2)) by done.
      rewrite (bool_decide_true (2 ≤ length q)) by lia.
      cbn [timer setTimer ui]. by rewrite searchResults_execStmt.
  - intros w' Hs. cbn [step] in Hs.
    destruct (timer (sys w)) as [q|] eqn:Ht; [|done]. injection Hs as <-.
    exists q. split; [done|]. rewrite spawn_eq.
    rewrite (proj1 (segment_sys _ _)).
    unfold searchCallback. cbn [advance fst snd sys pending ui setTimer].
    unfold issue. cbn [requestsOf].
    rewrite searchQuery_searchEffect, ui_logRequests, searchQuery_execStmt.
    rewrite requestsIn_searchEffect, requestsIn_logRequests, requestsIn_execStmt.
    cbn [ui log setTimer]. repeat split; try done.
    rewrite searchEffect_same.
    + by rewrite timer_logRequests, timer_execStmt.
    + by rewrite ui_logRequests, searchQuery_execStmt.
  - intros Ht. cbn [step]. by rewrite Ht.
Qed.


(** ** Back to a page without note *)

Lemma keeps_pushState n b b' st :
  keeps n b b' → keeps n b (pushState st b').
Proof.
  intros (Hlt & Hn & He). unfold keeps, pushState. cbn [entries cursor].
  rewrite length_app, length_take. cbn [length]. split; [lia|]. split; [lia|].
  intros i Hi. rewrite lookup_app_l by (rewrite length_take; lia).
  rewrite lookup_take_lt by lia. by apply He.
Qed.

Lemma keeps_execStmt n b st s :
  match st with HistoryReplaceState _ => False | _ => True end →
  keeps n b (browser s) → keeps n b (browser (execStmt st s)).
Proof.
  intros Hst H. rewrite browser_execStmt.
  destruct st; try done. by apply keeps_pushState.
Qed.

Lemma runIso_keeps api t :
  replaceFree t →
  ∀ n b q s, keeps n b (browser s) → keeps n b (browser (runIso api t q s)).
Proof.
  induction t as [|st k IH|id k IH|ids k IH|o qq k IH|k IH];
    cbn [replaceFree]; intros Hfree n b q s H.
  - by rewrite runIso_Ret, browser_searchEffect.
  - destruct Hfree as [Hst Hk]. rewrite runIso_Do. apply IH; [done|].
    by apply keeps_execStmt.
  - rewrite runIso_AwaitNote. apply IH; [done|].
    by rewrite browser_searchEffect, browser_logRequests.
  - rewrite runIso_AwaitAll. apply IH; [done|].
    by rewrite browser_searchEffect, browser_logRequests.
  - rewrite runIso_AwaitSearch. apply IH; [done|].
    by rewrite browser_searchEffect, browser_logRequests.
  - rewrite runIso_AwaitStructure. apply IH; [done|].
    by rewrite browser_searchEffect, browser_logRequests.
Qed.

Ltac replace_pred :=
  repeat first
    [ done
    | split
    | intros [?|]
    | progress cbn [replaceFree]
    | progress unfold pushNavigationState
    | case_match
    | case_bool_decide ].

Lemma navigateToNote_replaceFree p id : replaceFree (navigateToNote p id).
Proof. unfold navigateToNote, pushNavigationState. replace_pred. Qed.

Lemma handlePopState_replaceFree e : replaceFree (handlePopState e).
Proof. unfold handlePopState. replace_pred. Qed.

Lemma handlerOf_replaceFree p e t : handlerOf p e = Some t → replaceFree t.
Proof.
  destruct e; cbn [handlerOf]; intros H; repeat case_match; try done;
    injection H as <-;
    unfold resetToCategories, handleCrumbCategoryClick, handleBookClick,
      handleSearchResultClick, handleCategoryClick,
      handleBackToCategoriesClick, handleWikiLinkClick;
    repeat first
      [ simple apply navigateToNote_replaceFree
      | done
      | split
      | intros [?|]
      | progress cbn [replaceFree]
      | progress unfold pushNavigationState
      | case_match
      | case_bool_decide ].
Qed.

Lemma starts_replaceFree w e t s0 : Starts w e t s0 → replaceFree t.
Proof.
  intros [e' t' Hho|e' target _ _|q _|b].
  - by apply (handlerOf_replaceFree (ui (sys w)) e').
  - apply handlePopState_replaceFree.
  - unfold searchCallback. replace_pred.
  - unfold urlEffect, resetToCategories. replace_pred.
Qed.

(** One event of a run without overlap keeps the entry that was current
    and everything before it. *)
Lemma seqStep_keeps w ea w1 :
  pending w = [] →
  cursor (browser (sys w)) < length (entries (browser (sys w))) →
  seqStep w ea = Some w1 →
  ∀ i, i ≤ cursor (browser (sys w)) →
       entries (browser (sys w1)) !! i = entries (browser (sys w)) !! i.
Proof.
  intros Hp Hlt Hs.
  destruct (seqStep_starts w ea w1 Hp Hs) as (t & s0 & Hst & ->).
  cbn [sys]. pose proof (starts_replaceFree _ _ _ _ Hst) as Hfree.
  destruct Hst as [e' t' Hho|e' target He Htl|q Hq|b].
  - apply (runIso_keeps _ _ Hfree (cursor (browser (sys w))) (browser (sys w))).
    by split.
  - (* a traversal writes nothing *)
    intros i _.
    assert (E : ∀ i, entries (browser (runTask ea.2
                  (handlePopState (mjoin (entries (browser (sys w)) !! target)))
                  (onBrowser (fun b => mkBrowser (entries b) target) (sys w)))) !! i
                = entries (browser (sys w)) !! i); [|apply E].
    intros j.
    destruct (runIso_keeps ea.2 _ Hfree target
                (mkBrowser (entries (browser (sys w))) target)
                (searchQuery (ui (sys w)))
                (onBrowser (fun b => mkBrowser (entries b) target) (sys w)))
      as (_ & _ & _); [by split|].
    destruct (mjoin (entries (browser (sys w)) !! target)) as [st|].
    + by rewrite (proj1 (proj1 (handlePopState_run ea.2 _) st)).
    + by rewrite (proj1 (proj2 (handlePopState_run ea.2 _))).
  - apply (runIso_keeps _ _ Hfree (cursor (browser (sys w))) (browser (sys w))).
    by split.
  - apply (runIso_keeps _ _ Hfree (cursor (browser (sys w))) (browser (sys w))).
    by split.
Qed.

(** The restore of a description without note, run on its own. *)
Lemma restore_without_note api s p :
  currentNote p = None →
  let s' := runTask api (handlePopState (Some (snapshot p))) s in
  viewLevel (ui s') = viewLevel p
  ∧ selectedCategory (ui s') = selectedCategory p
  ∧ selectedBook (ui s') = selectedBook p
  ∧ currentNote (ui s') = None
  ∧ noteHistory (ui s') = []
  ∧ browser s' = browser s
  ∧ requestsIn (log s') = requestsIn (log s).
Proof.
  intros Hc. cbv zeta. unfold runTask, handlePopState, snapshot.
  rewrite Hc.
  cbn [NavigationState.noteId NavigationState.noteHistoryIds
       NavigationState.viewLevel NavigationState.selectedCategory
       NavigationState.selectedBook option_map truthy].
  sys_simpl. repeat split; done.
Qed.

(** The step of a traversal of the session history, in a run without
    overlap. *)
Lemma seqStep_PopState w api target w1 :
  pending w = [] →
  seqStep w (PopState target, api) = Some w1 →
  w1 = mkWorld
         (runTask api
            (handlePopState (mjoin (entries (browser (sys w)) !! target)))
            (onBrowser (fun b => mkBrowser (entries b) target) (sys w)))
         [].
Proof.
  intros Hp Hs.
  destruct (seqStep_starts w _ w1 Hp Hs) as (t & s0 & Hst & ->).
  cbn [fst snd] in *.
  inversion Hst as [e t' Hho|e target' He Hlt|q Hq|b]; subst.
  - done.
  - destruct He as [He|He]; [|done]. by injection He as ->.
Qed.

(** X19. In a run without overlap, take a page without current note whose
    history entry describes it.  Whatever single event comes next (a click
    that pushes a state, a traversal, a keystroke), going back to that
    entry afterwards brings back view level, category and book as they were,
    with no note and an empty history stack, without any request and
    without writing to the session history. *)
Theorem returning_restores_page (w w1 w2 : World) (e : Event)
    (api api' : Api) :
  seqReachable w →
  currentNote (ui (sys w)) = None →
  entries (browser (sys w)) !! cursor (browser (sys w))
  = Some (Some (snapshot (ui (sys w)))) →
  seqStep w (e, api) = Some w1 →
  seqStep w1 (PopState (cursor (browser (sys w))), api') = Some w2 →
  viewLevel (ui (sys w2)) = viewLevel (ui (sys w))
  ∧ selectedCategory (ui (sys w2)) = selectedCategory (ui (sys w))
  ∧ selectedBook (ui (sys w2)) = selectedBook (ui (sys w))
  ∧ currentNote (ui (sys w2)) = None
  ∧ noteHistory (ui (sys w2)) = []
  ∧ cursor (browser (sys w2)) = cursor (browser (sys w))
  ∧ entries (browser (sys w2)) = entries (browser (sys w1))
  ∧ requestsIn (log (sys w2)) = requestsIn (log (sys w1)).
Proof.
  intros Hr Hcur Hentry H1 H2.
  pose proof (seqReachable_inv w Hr) as (Hp & _).
  pose proof (seqReachable_inv w1 (seqReachable_step w _ w1 Hr H1)) as (Hp1 & _).
  assert (Hlt : cursor (browser (sys w)) < length (entries (browser (sys w)))).
  { apply lookup_lt_is_Some. eauto. }
  pose proof (seqStep_keeps w _ w1 Hp Hlt H1 (cursor (browser (sys w)))
                (le_n _)) as Hk.
  apply seqStep_PopState in H2; [|done]. subst w2. cbn [sys].
  rewrite Hk, Hentry. cbn [mjoin option_join option_bind].
  pose proof (restore_without_note api'
                (onBrowser (fun b => mkBrowser (entries b)
                                       (cursor (browser (sys w)))) (sys w1))
                (ui (sys w)) Hcur) as E.
  cbv zeta in E. destruct E as (V & C & B & N & H & Br & L).
  repeat split; try done.
  - by rewrite Br.
  - by rewrite Br.
Qed.


Lemma returning_restores_page_witness :
  ∃ w2,
    seqRun (settle Example.api 2 (mount Example.session))
      [ (ClickCategory (js "Science"), Example.api);
        (PopState 0, Example.api) ] = Some w2
    ∧ viewLevel (ui (sys w2)) = VCategories
    ∧ selectedCategory (ui (sys w2)) = None.
Proof.
  set (w0 := settle Example.api 2 (mount Example.session)).
  assert (Hr : seqReachable w0).
  { exists Example.session, Example.api, []. split; [apply sessionOk_example|].
    reflexivity. }
  destruct (seqStep w0 (ClickCategory (js "Science"), Example.api))
    as [w1|] eqn:H1; [|vm_compute in H1; discriminate].
  destruct (seqStep w1 (PopState (cursor (browser (sys w0))), Example.api))
    as [w2|] eqn:H2.
  - exists w2.
    assert (Hc : cursor (browser (sys w0)) = 0) by (vm_compute; reflexivity).
    split; [cbn [seqRun]; fold w0; rewrite H1; rewrite <- Hc; by rewrite H2|].
    pose proof (returning_restores_page w0 w1 w2 _ Example.api Example.api
                  Hr eq_refl eq_refl H1 H2) as (V & C & _).
    rewrite V, C. split; vm_compute; reflexivity.
  - exfalso. revert H2.
    assert (E : Some w1 = seqStep w0 (ClickCategory (js "Science"), Example.api))
      by (by rewrite H1).
    vm_compute in E. injection E as ->. vm_compute. discriminate.
Defined.

(** ** The header: which link is active *)

Lemma isActive_second c0 c1 rest x p :
  c1 ≠ x → isActive (c0 :: c1 :: rest) ("/"%char :: x :: p) = false.
Proof.
  intros H. unfold isActive, str_eqb.
  rewrite bool_decide_false by congruence. cbn [orb startsWith].
  rewrite (proj2 (ascii_eqb_false x c1)) by congruence.
  cbn [andb]. by rewrite !andb_false_r.
Qed.

Lemma isActive_short c0 x p :
  isActive [c0] ("/"%char :: x :: p) = false.
Proof.
  unfold isActive, str_eqb. rewrite bool_decide_false by done.
  cbn [orb startsWith]. by rewrite !andb_false_r.
Qed.

Lemma filter_one {A} (b : bool) (x : A) :
  length (if b then [x] else []) ≤ 1.
Proof. destruct b; cbn; lia. Qed.

(** X20. On every path at most one link of the header is marked active;
    Home is marked on the path [/] only; every other link is marked on its
    own path and on every path below it.  A click forces a reload only on
    the Notes link, and only where that link is the one marked active. *)
Theorem header_active_link (pathname : str) :
  length (activeItems pathname) ≤ 1
  ∧ (isActive pathname (js "/") = true ↔ pathname = js "/")
  ∧ (∀ item rest, item ∈ navItems → item.1 ≠ js "/" →
                  isActive (item.1 ++ rest) item.1 = true)
  ∧ (∀ href, (handleNavClick pathname href).2 = true →
             href = js "/notes" ∧ isActive pathname href = true)
  ∧ (∀ href, (handleNavClick pathname href).1 = false).
Proof.
  split; [|split; [|split; [|split]]].
  - unfold activeItems, navItems. cbn [List.filter fst].
    change (js "/about") with ("/"%char :: "a"%char :: js "bout").
    change (js "/projects") with ("/"%char :: "p"%char :: js "rojects").
    change (js "/education") with ("/"%char :: "e"%char :: js "ducation").
    change (js "/notes") with ("/"%char :: "n"%char :: js "otes").
    change (js "/quotes") with ("/"%char :: "q"%char :: js "uotes").
    change (js "/contact") with ("/"%char :: "c"%char :: js "ontact").
    destruct pathname as [|c0 [|c1 rest]].
    + vm_compute. lia.
    + rewrite !isActive_short. apply filter_one.
    + assert (Hh : isActive (c0 :: c1 :: rest) (js "/") = false).
      { unfold isActive, str_eqb. by rewrite bool_decide_false by done. }
      rewrite Hh.
      destruct (decide (c1 = "a"%char)) as [->|Ha];
        [rewrite ?(isActive_second c0 "a" rest "p"), ?(isActive_second c0 "a" rest "e"), ?(isActive_second c0 "a" rest "n"), ?(isActive_second c0 "a" rest "q"), ?(isActive_second c0 "a" rest "c") by done; apply filter_one
        |rewrite (isActive_second _ c1 _ "a") by done].
      destruct (decide (c1 = "p"%char)) as [->|Hp];
        [rewrite ?(isActive_second c0 "p" rest "a"), ?(isActive_second c0 "p" rest "e"), ?(isActive_second c0 "p" rest "n"), ?(isActive_second c0 "p" rest "q"), ?(isActive_second c0 "p" rest "c") by done; apply filter_one
        |rewrite (isActive_second _ c1 _ "p") by done].
      destruct (decide (c1 = "e"%char)) as [->|He];
        [rewrite ?(isActive_second c0 "e" rest "a"), ?(isActive_second c0 "e" rest "p"), ?(isActive_second c0 "e" rest "n"), ?(isActive_second c0 "e" rest "q"), ?(isActive_second c0 "e" rest "c") by done; apply filter_one
        |rewrite (isActive_second _ c1 _ "e") by done].
      destruct (decide (c1 = "n"%char)) as [->|Hn];
        [rewrite ?(isActive_second c0 "n" rest "a"), ?(isActive_second c0 "n" rest "p"), ?(isActive_second c0 "n" rest "e"), ?(isActive_second c0 "n" rest "q"), ?(isActive_second c0 "n" rest "c") by done; apply filter_one
        |rewrite (isActive_second _ c1 _ "n") by done].
      destruct (decide (c1 = "q"%char)) as [->|Hq];
        [rewrite ?(isActive_second c0 "q" rest "a"), ?(isActive_second c0 "q" rest "p"), ?(isActive_second c0 "q" rest "e"), ?(isActive_second c0 "q" rest "n"), ?(isActive_second c0 "q" rest "c") by done; apply filter_one
        |rewrite (isActive_second _ c1 _ "q") by done].
      apply filter_one.
  - unfold isActive, str_eqb. rewrite (bool_decide_true (js "/" = js "/")) by done.
    cbn [negb andb]. rewrite orb_false_r. apply bool_decide_eq_true.
  - intros item rest Hin Hne. unfold isActive.
    rewrite startsWith_app. unfold str_eqb at 2.
    rewrite bool_decide_false by done. cbn [negb andb]. apply orb_true_r.
  - intros href H. cbn [handleNavClick snd] in H.
    apply andb_true_iff in H as [H1 H2].
    apply bool_decide_eq_true in H1. subst href. split; [done|].
    unfold isActive. rewrite H2. unfold str_eqb at 2.
    rewrite bool_decide_false by done. cbn [negb andb]. apply orb_true_r.
  - done.
Qed.


(** ** The projects page: filtering *)

(** X21. Whatever the list of projects: a filter button lists a project
    exactly when it is the button All or the button of the project's own
    category, in the order of the list; every category a project can have
    has its button, so each project is listed under exactly two buttons. *)
Theorem filteredProjects_buttons (projects : list Project) (p : Project) :
  (∀ c, p ∈ filteredProjects projects c
        ↔ p ∈ projects ∧ (c = js "all" ∨ c = categoryName (projectCategory p)))
  ∧ (∀ c, sublist (filteredProjects projects c) projects)
  ∧ List.filter
      (fun b => str_eqb b.1 (js "all")
                || str_eqb b.1 (categoryName (projectCategory p)))
      categories
    = [ (js "all", js "All Projects");
        match projectCategory p with
        | PAi => (js "ai", js "AI & ML")
        | PWeb => (js "web", js "Web Development")
        | PPodcast => (js "podcast", js "Podcasts")
        | POther => (js "other", js "Other")
        end ].
Proof.
  split; [|split].
  - intros c. unfold filteredProjects, str_eqb. case_bool_decide as Hall.
    + subst c. split; [by auto|]. by intros [? _].
    + rewrite list_elem_of_In, filter_In, <- list_elem_of_In.
      rewrite bool_decide_eq_true. split.
      * intros [? ?]. by auto.
      * intros [? [?|?]]; [done|by auto].
  - intros c. unfold filteredProjects. destruct (str_eqb c (js "all")); [done|].
    induction projects as [|x l IH]; [done|]. cbn [List.filter].
    destruct (str_eqb _ c); [by apply sublist_skip|by apply sublist_cons].
  - destruct (projectCategory p); vm_compute; reflexivity.
Qed.

(** X22. A project card accounts for every technology: it shows the first
    four as tags and, only when there are more than four, the number of the
    others in a [+N more] tag. *)
Theorem technologies_accounted (p : Project) :
  shownTechnologies p ++ drop 4 (technologies p) = technologies p
  ∧ length (shownTechnologies p) + default 0 (moreTechnologies p)
    = length (technologies p)
  ∧ length (shownTechnologies p) ≤ 4
  ∧ (moreTechnologies p = None ↔ length (technologies p) ≤ 4)
  ∧ moreTechnologies p ≠ Some 0.
Proof.
  unfold shownTechnologies, moreTechnologies.
  split; [apply take_drop|]. rewrite length_take.
  case_bool_decide; cbn [default from_option id]; repeat split; try lia; try done.
  intros [= ?]. lia.
Qed.


(** ** The contact form *)

(** X23. A submission never leaves the form in the submitting state.  When
    the request succeeds the four fields are emptied and the success message
    is shown; when it fails the error message is shown and everything the
    user typed is kept.  Editing a field changes that field only and removes
    the message of the last submission. *)
Theorem contact_submit_outcome (submit : ContactPage.FormData -> bool)
    (st : ContactPage.State) :
  let st' := ContactPage.handleSubmit submit st in
  ContactPage.isSubmitting st' = false
  ∧ ContactPage.isSubmitting (ContactPage.handleSubmitStart st) = true
  ∧ (if submit (ContactPage.formData st)
     then ContactPage.formData st' = ContactPage.emptyForm
          ∧ fst <$> ContactPage.submitStatus st' = Some ContactPage.Success
     else ContactPage.formData st' = ContactPage.formData st
          ∧ fst <$> ContactPage.submitStatus st' = Some ContactPage.Error)
  ∧ ∀ f value,
      let st2 := ContactPage.handleChange f value st' in
      ContactPage.submitStatus st2 = None
      ∧ ContactPage.isSubmitting st2 = false
      ∧ ContactPage.formData st2
        = ContactPage.setField f value (ContactPage.formData st').
Proof.
  cbv zeta. unfold ContactPage.handleSubmit, ContactPage.handleSubmitEnd,
    ContactPage.handleSubmitStart. cbn [ContactPage.formData].
  destruct (submit (ContactPage.formData st)); cbn; repeat split; done.
Qed.

(** ** The quotes page *)

(** X24. After [generateQuote] a quote is always displayed and the spinner
    is off, whether or not the backend answered.  The error message is set
    exactly when the request failed; the quote displayed then is the
    placeholder, filed under the selected category, or under Inspiration
    when none is selected.  No category is sent when none is selected. *)
Theorem generateQuote_outcome
    (fetch : option str -> option QuotesPage.Quote) (st : QuotesPage.State) :
  let st' := QuotesPage.generateQuote fetch st in
  is_Some (QuotesPage.quote st')
  ∧ QuotesPage.isLoading st' = false
  ∧ QuotesPage.copied st' = false
  ∧ QuotesPage.selectedCategory st' = QuotesPage.selectedCategory st
  ∧ (QuotesPage.requestCategory st = None
     ↔ QuotesPage.selectedCategory st = [])
  ∧ match fetch (QuotesPage.requestCategory st) with
    | Some q => QuotesPage.quote st' = Some q ∧ QuotesPage.error st' = None
    | None =>
        is_Some (QuotesPage.error st')
        ∧ ∃ q, QuotesPage.quote st' = Some q
               ∧ QuotesPage.source q = js "Placeholder"
               ∧ QuotesPage.category q
                 = (if bool_decide (QuotesPage.selectedCategory st = [])
                    then js "Inspiration"
                    else QuotesPage.selectedCategory st)
    end.
Proof.
  cbv zeta. unfold QuotesPage.generateQuote, QuotesPage.requestCategory.
  destruct (QuotesPage.selectedCategory st) as [|c cat] eqn:Hsel.
  - destruct (fetch None); cbn; rewrite ?Hsel; repeat split; eauto.
    eexists. split; [reflexivity|]. unfold QuotesPage.placeholderQuote.
    by rewrite Hsel.
  - destruct (fetch _); cbn; rewrite ?Hsel; repeat split; eauto; try done.
    eexists. split; [reflexivity|]. unfold QuotesPage.placeholderQuote.
    by rewrite Hsel.
Qed.

(** ** The list view: loading *)

(** X25. The list view loads the tree and the notes together: both are
    stored only when both requests succeed; when either fails the error
    message is set and neither is stored, even the one that arrived.  The
    spinner is off in every case, and the line with the counts is rendered
    only after a successful load of at least one note. *)
Theorem notes_list_load {N : Type}
    (fetchNoteTree : option (gmap str (list N)))
    (fetchNotes : option (list NoteMetadata.t)) :
  let st' := NotesList.loadEffect fetchNoteTree fetchNotes
               NotesList.initialState in
  NotesList.loading st' = false
  ∧ match fetchNoteTree, fetchNotes with
    | Some treeData, Some notesData =>
        NotesList.tree st' = treeData ∧ NotesList.notes st' = notesData
        ∧ NotesList.error st' = None
        ∧ NotesList.statsShown st' = bool_decide (notesData ≠ [])
    | _, _ =>
        NotesList.tree st' = ∅ ∧ NotesList.notes st' = []
        ∧ is_Some (NotesList.error st')
        ∧ NotesList.statsShown st' = false
    end.
Proof.
  cbv zeta. unfold NotesList.loadEffect, NotesList.statsShown.
  destruct fetchNoteTree, fetchNotes as [[|n ns]|]; cbn; repeat split; eauto.
Qed.

(** ** [MarkdownContent] and [NoteContent] *)

Lemma processLine_lineStep st ls line :
  mdInCodeBlock st = inCodeBlock ls →
  mdCodeContent st = codeContent ls →
  mdElements st = map mdOf (elements ls) →
  mdInCodeBlock (processLine st line) = inCodeBlock (lineStep mdInline ls line)
  ∧ mdCodeContent (processLine st line) = codeContent (lineStep mdInline ls line)
  ∧ mdElements (processLine st line)
    = map mdOf (elements (lineStep mdInline ls line)).
Proof.
  intros Hi Hc He. unfold processLine, lineStep, mdPush, push.
  rewrite Hi, Hc, He.
  repeat case_match; cbn [mdInCodeBlock mdCodeContent mdElements inCodeBlock
                           codeContent elements];
    rewrite ?map_app; cbn [map mdOf htmlOf mdInline flat_map];
    rewrite ?app_nil_r; done.
Qed.

Lemma processLines_renderLines lines : ∀ st ls,
  mdInCodeBlock st = inCodeBlock ls →
  mdCodeContent st = codeContent ls →
  mdElements st = map mdOf (elements ls) →
  mdElements (foldl processLine st lines)
  = map mdOf (elements (foldl (lineStep mdInline) ls lines)).
Proof.
  induction lines as [|l lines IH]; intros st ls Hi Hc He; [done|].
  cbn [foldl].
  destruct (processLine_lineStep st ls l Hi Hc He) as (Hi' & Hc' & He').
  by apply IH.
Qed.

(** X26. The first single-note page builds, line by line, the same
    elements as the later [NoteContent]: the same kind of element for every
    line, code blocks included, with [processInlineStyles] as inline
    renderer and a line break where [NoteContent] puts a spacer.  It has no
    placeholder for blank notes: an empty note gives one line break, and it
    never emits a button. *)
Theorem MarkdownContent_like_NoteContent (content : str) :
  processContent content = map mdOf (renderBlocks mdInline content)
  ∧ length (processContent content) = length (renderBlocks mdInline content)
  ∧ processContent [] = [MdBr]
  ∧ ∀ text, linkUnits (mdInline text) = [].
Proof.
  assert (E : processContent content = map mdOf (renderBlocks mdInline content)).
  { unfold processContent, renderBlocks. by apply processLines_renderLines. }
  split; [done|]. split; [by rewrite E, length_map|]. split; done.
Qed.

(** ** C5: note-to-note transitions in runs without overlap *)

(** Between two events of a run without overlap nothing is suspended and no
    flag is on. *)
Lemma seqReachable_flagsOff w :
  seqReachable w → pending w = [] ∧ flagsOff (ui (sys w)).
Proof.
  intros (b & api & eas & Hb & Hrun).
  apply (seqRun_flagsOff eas (settle api 2 (mount b)) w);
    [by rewrite mount_settled|apply mount_flagsOff|done].
Qed.

(** The page that shows the root note is reached without overlap. *)
Lemma seqReachable_atRoot :
  seqReachable (default (mount Example.session) Example.atRoot).
Proof.
  exists Example.session, Example.api,
    [ (ClickCategory (js "Science"), Example.api);
      (ClickBook (js "Sapiens"), Example.api) ].
  split; [apply sessionOk_example|]. vm_compute. reflexivity.
Qed.

(** What [navigateToNote] does when the note is fetched, called from a
    page [p] that shows [cur] outside a restore: its statements and its
    request in order, and the state at the end. *)
Lemma navigateToNote_success_run (api : Api) (p : PageState) (s : Sys)
    (noteId : str) (cur fetched : Note.t) :
  currentNote p = Some cur →
  isRestoringState p = false →
  fetchNote api noteId = Some fetched →
  searchQuery (ui s) = searchQuery p →
  let stack := noteHistory p ++ [cur] in
  let pushed :=
    NavigationState.mk VNote (selectedCategory p) (selectedBook p)
      (Some (Note.id fetched)) (map Note.id stack) in
  let s' := runIso api (navigateToNote p noteId) (searchQuery p) s in
  log s'
  = log s ++ [ LDo (SetNoteLoading true); LDo (SetNoteHistory stack);
               LRequest (ReqNote noteId); LDo (SetCurrentNote (Some fetched));
               LDo (HistoryPushState pushed); LDo (SetNoteLoading false) ]
  ∧ noteHistory (ui s') = stack
  ∧ currentNote (ui s') = Some fetched
  ∧ browser s' = pushState pushed (browser s).
Proof.
  intros Hcur Hres Hf Hq. cbv zeta.
  unfold navigateToNote, newHistory, pushNavigationState.
  rewrite Hcur, Hres. rewrite bool_decide_true by done.
  rewrite !runIso_Do, runIso_AwaitNote, Hf, !runIso_Do, runIso_Ret.
  rewrite !searchQuery_execStmt. cbv beta iota. rewrite Hq.
  rewrite (searchEffect_same (searchQuery p) (logRequests _ _))
    by (sys_simpl; done).
  rewrite (searchEffect_same (searchQuery p)) by (sys_simpl; done).
  split.
  - rewrite !log_execStmt, log_logRequests, !log_execStmt.
    cbn [map]. by rewrite <- !app_assoc.
  - sys_simpl. done.
Qed.

(** C5, amended. In a run in which every request is answered before the
    next event is handled, take a page that shows the note [cur] and a click
    on a child, or on a wiki-link that the search resolves, whose note
    [fetched] the backend returns.  The handler appends [cur] to the end of
    the history stack, then requests the note, then makes [fetched] the
    current note, then pushes one state to the browser history: the state
    of the note view with the id of [fetched] as current note id and the
    ids of the updated stack, in order, as history ids.  (No condition on
    the guard flag is needed: between the events of such a run no restore is
    in progress.) *)
Theorem note_to_note_transition (w w' : World) (e : Event) (api : Api)
    (cur fetched : Note.t) (noteId : str) :
  seqReachable w →
  currentNote (ui (sys w)) = Some cur →
  (∃ i child, e = ClickChild i ∧ childrenOf cur !! i = Some child
              ∧ NavRef.id child = noteId)
  ∨ (∃ linkText results found,
       e = ClickWikiLink linkText
       ∧ searchNotes api linkText = Some results
       ∧ exactMatch (ui (sys w)) linkText results = Some found
       ∧ NoteMetadata.id found = noteId) →
  fetchNote api noteId = Some fetched →
  seqStep w (e, api) = Some w' →
  let p := ui (sys w) in
  let stack := noteHistory p ++ [cur] in
  let pushed :=
    NavigationState.mk VNote (selectedCategory p) (selectedBook p)
      (Some (Note.id fetched)) (map Note.id stack) in
  log (sys w')
  = log (sys w)
    ++ match e with
       | ClickWikiLink linkText => [LRequest (ReqSearch FromWikiLink linkText)]
       | _ => []
       end
    ++ [ LDo (SetNoteLoading true); LDo (SetNoteHistory stack);
         LRequest (ReqNote noteId); LDo (SetCurrentNote (Some fetched));
         LDo (HistoryPushState pushed); LDo (SetNoteLoading false) ]
  ∧ noteHistory (ui (sys w')) = stack
  ∧ currentNote (ui (sys w')) = Some fetched
  ∧ browser (sys w') = pushState pushed (browser (sys w))
  ∧ last (entries (browser (sys w'))) = Some (Some pushed).
Proof.
  intros Hr Hcur He Hf Hs. cbv zeta.
  destruct (seqReachable_flagsOff w Hr) as (Hp & _ & _ & Hres).
  destruct (seqStep_starts w (e, api) w' Hp Hs) as (t & s0 & Hst & ->).
  cbn [fst snd sys] in *.
  assert (Hlast : ∀ s' st, browser s' = pushState st (browser (sys w)) →
                           last (entries (browser s')) = Some (Some st)).
  { intros s' st ->. apply pushState_last. }
  destruct He as [(i & child & -> & Hchild & Hid)
                 |(linkText & results & found & -> & Hsearch & Hm & Hid)].
  - inversion Hst as [e' t' Hho|e' target [He'|He'] _|q Hq|b]; subst; try done.
    cbn [handlerOf] in Hho. rewrite Hcur in Hho.
    destruct (noteShown (ui (sys w))); [|done]. rewrite Hchild in Hho.
    injection Hho as <-. unfold runTask.
    destruct (navigateToNote_success_run api (ui (sys w)) (sys w)
                (NavRef.id child) cur fetched Hcur Hres Hf eq_refl)
      as (Hlog & Hh & Hc & Hb).
    cbn [app]. repeat split; try done. by apply Hlast.
  - inversion Hst as [e' t' Hho|e' target [He'|He'] _|q Hq|b]; subst; try done.
    cbn [handlerOf] in Hho. rewrite Hcur in Hho.
    destruct (noteShown (ui (sys w)) && _); [|done].
    injection Hho as <-. unfold runTask, handleWikiLinkClick.
    rewrite runIso_AwaitSearch, Hsearch.
    destruct results as [|x l]; [done|].
    cbn [length]. rewrite bool_decide_true by lia. rewrite Hm.
    rewrite (searchEffect_same (searchQuery (ui (sys w))))
      by (by rewrite ui_logRequests).
    destruct (navigateToNote_success_run api (ui (sys w))
                (logRequests [ReqSearch FromWikiLink linkText] (sys w))
                (NoteMetadata.id found) cur fetched Hcur Hres Hf
                (f_equal searchQuery (ui_logRequests _ _)))
      as (Hlog & Hh & Hc & Hb).
    rewrite log_logRequests in Hlog. rewrite browser_logRequests in Hb.
    cbn [map] in Hlog. rewrite <- app_assoc in Hlog.
    repeat split; try done. by apply Hlast.
Qed.

Lemma note_to_note_transition_witness :
  ∃ w,
    Example.atRoot = Some w
    ∧ seqReachable w
    ∧ currentNote (ui (sys w)) = Some Example.root
    ∧ fetchNote Example.api (js "c1") = Some Example.c1
    ∧ seqStep w (ClickChild 0, Example.api) = Some Example.atC1
    ∧ noteHistory (ui (sys Example.atC1)) = [Example.root]
    ∧ currentNote (ui (sys Example.atC1)) = Some Example.c1
    ∧ last (entries (browser (sys Example.atC1))) = Some (Some Example.stateC1).
Proof.
  set (w := default (mount Example.session) Example.atRoot).
  assert (Hcur : currentNote (ui (sys w)) = Some Example.root)
    by (vm_compute; reflexivity).
  assert (Hf : fetchNote Example.api (js "c1") = Some Example.c1)
    by (vm_compute; reflexivity).
  assert (Hs : seqStep w (ClickChild 0, Example.api) = Some Example.atC1)
    by (vm_compute; reflexivity).
  exists w. split; [vm_compute; reflexivity|].
  split; [apply seqReachable_atRoot|].
  split; [exact Hcur|]. split; [exact Hf|]. split; [exact Hs|].
  destruct (note_to_note_transition w Example.atC1 (ClickChild 0) Example.api
              Example.root Example.c1 (js "c1") seqReachable_atRoot Hcur
              (or_introl (ex_intro _ 0 (ex_intro _ (NavRef.mk (js "c1") (js "Chapter 1"))
                 (conj eq_refl (conj eq_refl eq_refl))))) Hf Hs)
    as (_ & Hh & Hc & _ & Hl).
  cbv zeta in Hh, Hl. split; [|split; [exact Hc|]].
  - rewrite Hh. vm_compute. reflexivity.
  - rewrite Hl. vm_compute. reflexivity.
Defined.

(** C5 as stated fails when handlers overlap.  The wiki-link of the root
    note is clicked; the search shows no spinner, and before it answers the
    second child is clicked and [c2] is shown, with [root] on the stack.
    Then the search answers and [navigateToNote] runs with the current note
    and the stack of the render in which the link was clicked: when [c1]
    becomes the current note the stack is [root] alone, and the state pushed
    carries the history ids of [root] alone.  The note [c2], current until
    then, is never appended. *)
Lemma previous_note_not_appended :
  ∃ w1 w2,
    run (mount Example.session) Overlap.linkThenChild = Some w1
    ∧ noteShown (ui (sys w1)) = true
    ∧ currentNote (ui (sys w1)) = Some Example.c2
    ∧ noteHistory (ui (sys w1)) = [Example.root]
    ∧ map requestsOf (pending w1)
      = [[ReqSearch FromWikiLink (js "chapter 1")]]
    ∧ run w1 Overlap.lateLink = Some w2
    ∧ pending w2 = []
    ∧ currentNote (ui (sys w2)) = Some Example.c1
    ∧ noteHistory (ui (sys w2)) = [Example.root]
    ∧ browser (sys w2) = pushState Example.stateC1 (browser (sys w1))
    ∧ NavigationState.noteHistoryIds Example.stateC1 = [js "root"]
    ∧ requestsIn (log (sys w2))
      = requestsIn (log (sys w1)) ++ [ReqNote (js "c1")].
Proof.
  exists (default (mount Example.session)
            (run (mount Example.session) Overlap.linkThenChild)),
         (default (mount Example.session)
            (run (mount Example.session)
               (Overlap.linkThenChild ++ Overlap.lateLink))).
  do 11 (split; [vm_compute; reflexivity|]). vm_compute; reflexivity.
Qed.

(** ** What is pushed describes the page *)

(** The last of the requests added to [l]. *)
Lemma last_request (l rs X : list Request) (r : Request) :
  l ++ X = l ++ rs ++ [r] → last X = Some r.
Proof. intros H. apply app_inv_head in H. subst X. apply last_snoc. Qed.

Lemma no_request (l rs : list Request) (r : Request) :
  l = l ++ rs ++ [r] → False.
Proof.
  intros H. apply (f_equal length) in H. rewrite !length_app in H.
  cbn [length] in H. lia.
Qed.

Ltac no_push Hreq :=
  exfalso;
  first [ by apply no_request in Hreq
        | rewrite <- ?app_assoc in Hreq; apply last_request in Hreq;
          cbn [last app] in Hreq; congruence ].

(** What a handler does to the session history when it runs outside a
    restore from the page it closed over. *)
Lemma handlerOf_push api e t s :
  handlerOf (ui s) e = Some t →
  isRestoringState (ui s) = false →
  let s' := runTask api t s in
  (browser s' = browser s
   ∨ browser s' = pushState (snapshot (ui s')) (browser s))
  ∧ ((∃ category, e = ClickCategory category)
     ∨ (∃ rs id n,
          requestsIn (log s') = requestsIn (log s) ++ rs ++ [ReqNote id]
          ∧ fetchNote api id = Some n) →
     browser s' = pushState (snapshot (ui s')) (browser s)).
Proof.
  intros H Hres. cbv zeta. unfold runTask, snapshot.
  destruct e; cbn [handlerOf] in H; repeat case_match; try done;
    injection H as <-.
  all: repeat match goal with
       | H : _ && _ = true |- _ => apply andb_true_iff in H as [? ?]
       | H : isView _ _ = true |- _ => apply isView_true in H
       | H : noteShown _ = true |- _ => apply noteShown_view in H
       end.
  all: unfold resetToCategories, handleCrumbCategoryClick, handleBookClick,
      handleSearchResultClick, handleCategoryClick,
      handleBackToCategoriesClick, handleWikiLinkClick, navigateToNote,
      newHistory, pushNavigationState.
  all: rewrite ?Hres.
  all: repeat first [ progress sys_simpl | case_match ].
  all: try match goal with
           | Hv : viewLevel _ = VNote |- _ => rewrite Hv
           end.
  all: split;
       [ first [ by left | by right ]
       | intros [[c Hc]|(rs & id & n & Hreq & Hf)];
         first [ done | no_push Hreq ] ].
Qed.

(** X12. In a run in which every request is answered before the next
    event is handled, an event other than a traversal of the session history
    either leaves the browser history as it is, or pushes exactly one entry,
    and that entry describes the page as the event leaves it: view level,
    category, book, id of the current note and ids of the history stack.  A
    click on a category always pushes; any other event pushes whenever its
    last request was for a note and the backend returned that note (a book,
    a child, a resolved wiki-link, a search result). *)
Theorem pushed_state_is_snapshot (w w' : World) (e : Event) (api : Api) :
  seqReachable w →
  (∀ target, e ≠ PopState target) → e ≠ ClickBack →
  seqStep w (e, api) = Some w' →
  (browser (sys w') = browser (sys w)
   ∨ browser (sys w') = pushState (snapshot (ui (sys w'))) (browser (sys w)))
  ∧ ((∃ category, e = ClickCategory category)
     ∨ (∃ rs id n,
          requestsIn (log (sys w'))
          = requestsIn (log (sys w)) ++ rs ++ [ReqNote id]
          ∧ fetchNote api id = Some n) →
     browser (sys w') = pushState (snapshot (ui (sys w'))) (browser (sys w))).
Proof.
  intros Hr Hpop Hback Hs.
  destruct (seqReachable_flagsOff w Hr) as (Hp & _ & _ & Hres).
  destruct (seqStep_starts w (e, api) w' Hp Hs) as (t & s0 & Hst & ->).
  cbn [fst snd sys] in *.
  destruct Hst as [e t Hho|e target [->| ->] _|q Hq|b].
  - by apply (handlerOf_push api e).
  - by destruct (Hpop target).
  - done.
  - (* the callback of the timeout searches and pushes nothing *)
    unfold runTask, searchCallback, snapshot.
    destruct (searchNotes api q) eqn:Hsearch; sys_simpl; rewrite Hsearch;
      sys_simpl; cbn [browser setTimer log].
    all: split; [by left|].
    all: intros [[c Hc]|(rs & id & n & Hreq & Hf)]; [done|no_push Hreq].
  - (* the URL effect resets or does nothing *)
    unfold runTask, urlEffect, resetToCategories, snapshot.
    repeat case_match; sys_simpl.
    all: split; [by left|].
    all: intros [[c Hc]|(rs & id & n & Hreq & Hf)]; [done|no_push Hreq].
Qed.

Lemma pushed_state_is_snapshot_witness :
  ∃ w, Example.atRoot = Some w
       ∧ seqReachable w
       ∧ seqStep w (ClickChild 0, Example.api) = Some Example.atC1
       ∧ browser (sys Example.atC1)
         = pushState Example.stateC1 (browser (sys w)).
Proof.
  set (w := default (mount Example.session) Example.atRoot).
  assert (Hs : seqStep w (ClickChild 0, Example.api) = Some Example.atC1)
    by (vm_compute; reflexivity).
  exists w. split; [vm_compute; reflexivity|].
  split; [apply seqReachable_atRoot|]. split; [exact Hs|].
  destruct (pushed_state_is_snapshot w Example.atC1 (ClickChild 0) Example.api
              seqReachable_atRoot ltac:(discriminate) ltac:(discriminate) Hs)
    as [_ H].
  rewrite H.
  - vm_compute. reflexivity.
  - right. exists [], (js "c1"), Example.c1. split; vm_compute; reflexivity.
Defined.
